(** * worker.js: a voting API over JSON files kept in a GitHub repository

    Shallow embedding of [src/worker.js] (a Cloudflare Worker) and of the
    document host it talks to, followed by the properties of the
    vote-submission, candidate-registration and id-check endpoints.

    - JSON data is modelled as the code uses it: a collection is an array
      whose items are strings (used ids) or objects with string-valued
      properties (credentials, candidates, votes); a missing property reads
      as [None] (JavaScript's [undefined]). Property values that are not
      strings are outside the model: the properties hold of requests and
      files whose values are strings.
    - A string is the UTF-8 text of the JavaScript string. The worker's
      tests on strings ([===], [includes], [startsWith], emptiness) read the
      same on it; [btoa], which throws on a character above U+00FF, is
      modelled by [latin1].
    - Asynchronous code is a program over the effects the worker performs:
      an HTTP request to the document host, [setTimeout], [new Date()];
      [throw] is part of the program type, [try]/[catch] a combinator.
    - The document host is a store of versioned files with compare-and-swap
      writes; a world may also script the reply to any request, which is how
      network failures, error statuses and lost races are injected. *)

From Stdlib Require Import ZArith.
From stdpp Require Import base option list strings gmap fin_maps pretty.

Local Open Scope Z_scope.
Local Open Scope string_scope.

(** ** JavaScript values *)

(** A JSON object with string-valued properties. An object with a property
    of another type (a number, a nested object) has no counterpart here. *)
Abbreviation Obj := (gmap string string).

(** An item of a collection. *)
Inductive Json : Type :=
| JStr (s : string)
| JObj (o : Obj).

Global Instance Json_eq_dec : EqDecision Json.
Proof. solve_decision. Defined.

(** [v.name]; [None] is [undefined]. A string has none of the properties
    the worker reads. *)
Definition prop (v : Json) (name : string) : option string :=
  match v with
  | JStr _ => None
  | JObj o => o !! name
  end.

(** Truthiness of a value that is a string, [null] or [undefined]. *)
Definition truthy (v : option string) : bool :=
  match v with
  | Some s => negb (String.eqb s "")
  | None => false
  end.

(** [a || b] on strings: [a] when truthy, else [b]. *)
Definition or_else (a : option string) (b : string) : string :=
  match a with
  | Some s => if String.eqb s "" then b else s
  | None => b
  end.

(** [s.includes(search)]. *)
Fixpoint includes (s search : string) : bool :=
  String.prefix search s ||
  match s with
  | EmptyString => false
  | String _ rest => includes rest search
  end.

(** [s.startsWith(p)] and [s.substring(n)]. *)
Definition startsWith (s p : string) : bool := String.prefix p s.

Fixpoint substring_from (n : nat) (s : string) : string :=
  match n, s with
  | O, _ => s
  | S n', String _ rest => substring_from n' rest
  | S _, EmptyString => EmptyString
  end.

(** A property value of a response body. *)
Inductive Val : Type :=
| VBool (b : bool)
| VStr (s : string).

(** An object literal as [JSON.stringify] renders it: a property whose
    value is [undefined] is left out. *)
Fixpoint literal (fields : list (string * option Val)) : gmap string Val :=
  match fields with
  | [] => ∅
  | (k, Some v) :: rest => <[k := v]> (literal rest)
  | (_, None) :: rest => literal rest
  end.

Fixpoint record (fields : list (string * option string)) : Obj :=
  match fields with
  | [] => ∅
  | (k, Some v) :: rest => <[k := v]> (record rest)
  | (_, None) :: rest => record rest
  end.

(** ** Constants of the worker *)

Definition CANDIDATES_PATH : string := "candidates.json".
Definition VOTES_PATH : string := "votes.json".
Definition VOTING_IDS_PATH : string := "voting_ids.json".
Definition USED_VOTING_IDS_PATH : string := "used_voting_ids.json".
Definition MAX_RETRIES : nat := 3.

(** ** The HTTP interface of the document host *)

(** A request of the worker to the GitHub contents API. The repository and
    branch are constants; the file path, the token and, for a write, the
    body vary. [put_sha = None] is a body without the [sha] property. *)
Inductive HttpRequest : Type :=
| GET (filePath token : string)
| PUT (filePath : string) (content : list Json) (put_sha : option string)
      (token message : string).

(** The parsed body of a response, through the properties the worker reads:
    [data.content] decoded and parsed ([inl] is the message of the error
    that [atob] or [JSON.parse] throws), [data.sha], [data.message] and
    [JSON.stringify(data)]. *)
Record JsonBody : Type := {
  j_content : string + list Json;
  j_sha : option string;
  j_message : option string;
  j_string : string
}.

(** [response.json()] rejects ([inl] holds the message) when the body is
    not JSON. *)
Record HttpResponse : Type := {
  status : Z;
  statusText : string;
  text : string;
  json : string + JsonBody
}.

(** [response.ok] *)
Definition ok (r : HttpResponse) : bool :=
  Z.leb 200 (status r) && Z.leb (status r) 299.

(** What [await fetch(url, ...)] settles to. *)
Inductive FetchResult : Type :=
| Rejects (msg : string)
| Resolves (r : HttpResponse).

(** ** Programs *)

(** The code of the worker as a tree of the effects it performs. [Throw msg]
    is a thrown [Error] whose [message] is [msg]; [Now] is
    [new Date().toISOString()]. *)
Inductive Prog (A : Type) : Type :=
| Ret (a : A)
| Throw (msg : string)
| Http (rq : HttpRequest) (k : FetchResult → Prog A)
| Sleep (ms : Z) (k : Prog A)
| Now (k : string → Prog A).

Arguments Ret {A} a.
Arguments Throw {A} msg.
Arguments Http {A} rq k.
Arguments Sleep {A} ms k.
Arguments Now {A} k.

Fixpoint bind {A B : Type} (p : Prog A) (f : A → Prog B) : Prog B :=
  match p with
  | Ret a => f a
  | Throw msg => Throw msg
  | Http rq k => Http rq (λ r, bind (k r) f)
  | Sleep ms k => Sleep ms (bind k f)
  | Now k => Now (λ t, bind (k t) f)
  end.

Global Instance Prog_ret : MRet Prog := @Ret.
Global Instance Prog_bind : MBind Prog := λ A B f p, bind p f.

(** [try { p } catch (e) { handler(e.message) }] *)
Fixpoint try_catch {A : Type} (p : Prog A) (handler : string → Prog A) : Prog A :=
  match p with
  | Ret a => Ret a
  | Throw msg => handler msg
  | Http rq k => Http rq (λ r, try_catch (k r) handler)
  | Sleep ms k => Sleep ms (try_catch k handler)
  | Now k => Now (λ t, try_catch (k t) handler)
  end.

(** ** The two helpers of the worker *)

(** The value [fetchGitHubFile] resolves to: [{ content, sha }]. *)
Record FileData : Type := {
  fd_content : list Json;
  fd_sha : option string
}.

(** What [fetchGitHubFile] does with the settled request. *)
Definition fetched (filePath : string) (res : FetchResult) : Prog FileData :=
  match res with
  | Rejects msg => Throw msg
  | Resolves response =>
      if Z.eqb (status response) 404 then
        Ret {| fd_content := []; fd_sha := None |}
      else if negb (ok response) then
        Throw ("Failed to fetch file from GitHub: " +:+ statusText response
               +:+ " - " +:+ text response)
      else
        match json response with
        | inl msg => Throw msg
        | inr data =>
            match j_content data with
            | inl parseError =>
                Throw ("Failed to parse file content for " +:+ filePath
                       +:+ ": " +:+ parseError)
            | inr content => Ret {| fd_content := content; fd_sha := j_sha data |}
            end
        end
  end.

Definition fetchGitHubFile (filePath token : string) : Prog FileData :=
  Http (GET filePath token) (fetched filePath).

Definition sha_mismatch_error : string :=
  "sha mismatch: File has been updated by another process.".

Definition TypeError_includes : string :=
  "Cannot read properties of undefined (reading 'includes')".

(** Every character of the string is at most U+00FF: in UTF-8 the
    characters above U+00FF are those whose first byte is 0xC4 or more. *)
Fixpoint latin1 (s : string) : bool :=
  match s with
  | EmptyString => true
  | String c rest => Nat.ltb (Ascii.nat_of_ascii c) 196 && latin1 rest
  end.

(** [btoa(JSON.stringify(newContent, null, 2))] does not throw:
    [JSON.stringify] writes the keys and the string values as they are, up
    to escapes that are ASCII, so [btoa] throws exactly when a key or a value
    of the content has a character above U+00FF. *)
Definition encodable (newContent : list Json) : bool :=
  forallb (λ item, match item with
                   | JStr s => latin1 s
                   | JObj o => forallb (λ kv, latin1 kv.1 && latin1 kv.2)
                                 (map_to_list o)
                   end) newContent.

(** The message of the [InvalidCharacterError] that [btoa] throws, in the
    words of the Workers runtime. *)
Definition InvalidCharacterError_btoa : string :=
  "btoa() can only operate on characters in the Latin1 (ISO/IEC 8859-1) range.".

(** What [updateGitHubFile] does with the settled request. *)
Definition updated (res : FetchResult) : Prog bool :=
  match res with
  | Rejects msg => Throw msg
  | Resolves response =>
      if negb (ok response) then
        match json response with
        | inl msg => Throw msg
        | inr errorData =>
            if Z.eqb (status response) 409 then
              match j_message errorData with
              | None => Throw TypeError_includes
              | Some m =>
                  if includes m "sha mismatch" then Throw sha_mismatch_error
                  else Throw ("Failed to update file on GitHub: "
                              +:+ statusText response +:+ " - "
                              +:+ j_string errorData)
              end
            else Throw ("Failed to update file on GitHub: "
                        +:+ statusText response +:+ " - " +:+ j_string errorData)
        end
      else Ret true
  end.

(** [btoa] runs before the request is made and outside the [try]: when it
    throws, nothing is sent. [if (sha) body.sha = sha]: a falsy [sha] is not
    sent. *)
Definition updateGitHubFile (filePath : string) (newContent : list Json)
    (sha : option string) (token commitMessage : string) : Prog bool :=
  if negb (encodable newContent) then Throw InvalidCharacterError_btoa
  else Http (PUT filePath newContent (if truthy sha then sha else None)
               token commitMessage) updated.

(** ** Requests and responses of the worker *)

(** The incoming request: its method, the path of its URL, the query
    parameters and what [request.json()] settles to ([inl] is the message of
    the error when the body is not a JSON object). *)
Record Request : Type := {
  method : string;
  pathname : string;
  searchParams : gmap string string;
  body : string + Obj
}.

(** [env]: the secrets of the worker. *)
Record Env : Type := {
  GITHUB_TOKEN_VAR : option string
}.

(** The body of a response: nothing, plain text, or [JSON.stringify] of an
    array of items or of an object. *)
Inductive Body : Type :=
| NoBody
| Text (s : string)
| Items (content : list Json)
| Object (o : gmap string Val).

Record Response : Type := {
  r_status : Z;
  r_body : Body
}.

(** [{ success: ..., message: ... }] *)
Definition reply (success : bool) (message : string) : Body :=
  Object (literal [("success", Some (VBool success));
                   ("message", Some (VStr message))]).

Definition method_not_allowed : Body * Z :=
  (reply false "Method Not Allowed", 405).

(** [await request.json()] *)
Definition request_json (request : Request) : Prog Obj :=
  match body request with
  | inl msg => Throw msg
  | inr o => Ret o
  end.

(** [item => item.id === votingId] *)
Definition has_id (votingId : string) (item : Json) : bool :=
  match prop item "id" with
  | Some s => String.eqb s votingId
  | None => false
  end.

(** [usedIds.includes(votingId)]: an item equals the string [votingId] only
    if it is that string. *)
Definition array_includes (usedIds : list Json) (votingId : string) : bool :=
  existsb (λ item, match item with
                   | JStr s => String.eqb s votingId
                   | JObj _ => false
                   end) usedIds.

(** [for (let i = 0; i < MAX_RETRIES; i++) { try { ... } catch (e) { ... } }]
    from iteration [i] on, with [remaining] iterations left. The body of the
    [try] either leaves the loop with a response ([Some], the [break]s) or
    falls through ([None]). The [catch] rethrows an error whose message does
    not include 'sha mismatch' and otherwise waits [100 * (i + 1)] ms. The
    loop yields [None] when it ends without a [break]. *)
Fixpoint retry {R : Type} (attempt : Prog (option R)) (remaining : nat) (i : Z)
    : Prog (option R) :=
  match remaining with
  | O => Ret None
  | S remaining' =>
      r ← try_catch attempt
            (λ e, if negb (includes e "sha mismatch") then Throw e
                  else Sleep (100 * (i + 1)) (Ret None));
      match r with
      | Some response => Ret (Some response)
      | None => retry attempt remaining' (i + 1)
      end
  end.

Definition TypeError_toLowerCase : string :=
  "Cannot read properties of undefined (reading 'toLowerCase')".

Section Worker.

(** [String.prototype.toLowerCase], which depends on the Unicode tables of
    the engine. *)
Variable toLowerCase : string → string.

(** [candidates.some(c => c.partyName.toLowerCase() ===
    newCandidate.partyName.toLowerCase())]: [inl] when reading
    [toLowerCase] of a party name that is [undefined] throws. *)
Fixpoint some_same_party (candidates : list Json) (partyName : option string)
    : string + bool :=
  match candidates with
  | [] => inr false
  | c :: rest =>
      match prop c "partyName", partyName with
      | Some p, Some name =>
          if String.eqb (toLowerCase p) (toLowerCase name) then inr true
          else some_same_party rest partyName
      | _, _ => inl TypeError_toLowerCase
      end
  end.

(** The body of the [try] in 'register-candidate'. *)
Definition register_attempt (newCandidate : Obj) (GITHUB_TOKEN : string)
    : Prog (option (Body * Z)) :=
  candidatesData ← fetchGitHubFile CANDIDATES_PATH GITHUB_TOKEN;
  let candidates := fd_content candidatesData in
  let sha := fd_sha candidatesData in
  match some_same_party candidates (newCandidate !! "partyName") with
  | inl e => Throw e
  | inr true => Ret (Some (reply false "A party with this name already exists.", 409))
  | inr false =>
      success ← updateGitHubFile CANDIDATES_PATH
                  (candidates ++ [JObj newCandidate]) sha GITHUB_TOKEN
                  ("Add new candidate: "
                   +:+ default "undefined" (newCandidate !! "candidateName"));
      if success : bool
      then Ret (Some (reply true "Candidate registered successfully.", 200))
      else Ret None
  end.

(** [finalVoteRecord] *)
Definition finalVoteRecord (voteData : Obj) (votingId party : string)
    (foundIdObject : Json) (timestamp : string) : Obj :=
  record [("votingId", Some votingId);
          ("party", Some party);
          ("minecraftName", prop foundIdObject "playerName");
          ("gameEdition", prop foundIdObject "gameEdition");
          ("realName", Some (or_else (voteData !! "realName") ""));
          ("discordInsta", Some (or_else (voteData !! "discordInsta") ""));
          ("timestamp", Some timestamp)].

(** The body of the [try] in 'submit-vote'. *)
Definition vote_attempt (voteData : Obj) (votingId party GITHUB_TOKEN : string)
    : Prog (option (Body * Z)) :=
  validIds ← fetchGitHubFile VOTING_IDS_PATH GITHUB_TOKEN;
  let validIdObjects := fd_content validIds in
  match find (has_id votingId) validIdObjects with
  | None =>
      Ret (Some (reply false "Invalid Voting ID provided for vote submission.", 401))
  | Some foundIdObject =>
      usedIdsData ← fetchGitHubFile USED_VOTING_IDS_PATH GITHUB_TOKEN;
      let usedIds := fd_content usedIdsData in
      let usedIdsSha := fd_sha usedIdsData in
      if array_includes usedIds votingId then
        Ret (Some (reply true "This Voting ID has already been used to vote.", 200))
      else
        votesFile ← fetchGitHubFile VOTES_PATH GITHUB_TOKEN;
        let currentVotes := fd_content votesFile in
        let votesSha := fd_sha votesFile in
        Now (λ timestamp,
          let vote := finalVoteRecord voteData votingId party foundIdObject timestamp in
          votesUpdated ← updateGitHubFile VOTES_PATH (currentVotes ++ [JObj vote])
                           votesSha GITHUB_TOKEN
                           ("Add vote for " +:+ party +:+ " by " +:+ votingId);
          if negb votesUpdated then Throw "Failed to update votes.json" else
          usedIdsUpdated ← updateGitHubFile USED_VOTING_IDS_PATH
                             (usedIds ++ [JStr votingId]) usedIdsSha GITHUB_TOKEN
                             ("Mark voting ID " +:+ votingId +:+ " as used");
          if negb usedIdsUpdated then Throw "Failed to update used_voting_ids.json" else
          Ret (Some (reply true "Vote submitted successfully.", 200)))
  end.

(** The lookup shared by both forms of 'check-voting-id'; [accepted] is the
    message of a valid id and [overwrite] tells whether a used id replaces
    it (the POST form does, the GET form does not). *)
Definition check_voting_id (votingId : option string) (GITHUB_TOKEN : string)
    (accepted : string) (overwrite : bool) : Prog (Body * Z) :=
  if negb (truthy votingId) then Ret (reply false "Voting ID is required.", 400)
  else
    let votingId := default "" votingId in
    validIds ← fetchGitHubFile VOTING_IDS_PATH GITHUB_TOKEN;
    used ← fetchGitHubFile USED_VOTING_IDS_PATH GITHUB_TOKEN;
    let validIdObjects := fd_content validIds in
    let usedIds := fd_content used in
    let isUsed := array_includes usedIds votingId in
    match find (has_id votingId) validIdObjects with
    | None => Ret (reply false "Invalid Voting ID.", 401)
    | Some foundIdObject =>
        Ret (Object (literal
               [("success", Some (VBool true));
                ("valid", Some (VBool true));
                ("used", Some (VBool isUsed));
                ("message", Some (VStr (if overwrite && isUsed
                                        then "Voting ID has already been used."
                                        else accepted)));
                ("playerName", VStr <$> prop foundIdObject "playerName");
                ("gameEdition", VStr <$> prop foundIdObject "gameEdition")]),
             200)
    end.

(** [GET] of a whole collection. [fetchGitHubFile] resolves to an object or
    throws, so the fallbacks of the worker for a falsy result ([|| { content:
    [] }], [candidatesData ? ... : []]) are never taken, here and in the two
    attempts above. *)
Definition get_collection (request : Request) (filePath GITHUB_TOKEN : string)
    : Prog (Body * Z) :=
  if String.eqb (method request) "GET" then
    file ← fetchGitHubFile filePath GITHUB_TOKEN;
    Ret (Items (fd_content file), 200)
  else Ret method_not_allowed.

(** The [switch (apiPath)] inside the [try] of [fetch]: the response body
    and the status code it leaves. *)
Definition api (apiPath : string) (request : Request) (GITHUB_TOKEN : string)
    : Prog (Body * Z) :=
  if String.eqb apiPath "candidates" then
    get_collection request CANDIDATES_PATH GITHUB_TOKEN
  else if String.eqb apiPath "votes" then
    get_collection request VOTES_PATH GITHUB_TOKEN
  else if String.eqb apiPath "voting-ids" then
    get_collection request VOTING_IDS_PATH GITHUB_TOKEN
  else if String.eqb apiPath "used-voting-ids" then
    get_collection request USED_VOTING_IDS_PATH GITHUB_TOKEN
  else if String.eqb apiPath "check-voting-id" then
    if String.eqb (method request) "POST" then
      data ← request_json request;
      check_voting_id (data !! "votingId") GITHUB_TOKEN "Voting ID accepted." true
    else if String.eqb (method request) "GET" then
      check_voting_id (searchParams request !! "votingId") GITHUB_TOKEN
        "Voting ID status retrieved." false
    else Ret method_not_allowed
  else if String.eqb apiPath "register-candidate" then
    if String.eqb (method request) "POST" then
      newCandidate ← request_json request;
      if negb (truthy (newCandidate !! "partyName"))
         || negb (truthy (newCandidate !! "candidateName"))
         || negb (truthy (newCandidate !! "password"))
      then Ret (reply false
             "Missing required candidate fields (partyName, candidateName, password).",
             400)
      else
        registration ← retry (register_attempt newCandidate GITHUB_TOKEN) MAX_RETRIES 0;
        match registration with
        | Some response => Ret response
        | None =>
            Ret (reply false
              "Failed to register candidate after multiple retries due to concurrent updates.",
              500)
        end
    else Ret method_not_allowed
  else if String.eqb apiPath "submit-vote" then
    if String.eqb (method request) "POST" then
      voteData ← request_json request;
      let votingId := voteData !! "votingId" in
      let party := voteData !! "party" in
      if negb (truthy votingId) || negb (truthy party)
      then Ret (reply false "Missing voting ID or party for vote submission.", 400)
      else
        submission ← retry (vote_attempt voteData (default "" votingId)
                              (default "" party) GITHUB_TOKEN) MAX_RETRIES 0;
        match submission with
        | Some response => Ret response
        | None =>
            Ret (reply false
              "Failed to submit vote after multiple retries due to concurrent updates.",
              500)
        end
    else Ret method_not_allowed
  else Ret (reply false "Not Found", 404).

(** [fetch(request, env, ctx)] *)
Definition fetch (request : Request) (env : Env) : Prog Response :=
  let path := pathname request in
  if String.eqb (method request) "OPTIONS" then
    Ret {| r_status := 204; r_body := NoBody |}
  else if negb (truthy (GITHUB_TOKEN_VAR env)) then
    Ret {| r_status := 500;
           r_body := Text "GitHub token is not configured in Cloudflare Worker secrets." |}
  else if startsWith path "/api/" then
    let GITHUB_TOKEN := default "" (GITHUB_TOKEN_VAR env) in
    let apiPath := substring_from 5 path in
    '(responseBody, statusCode) ←
       try_catch (api apiPath request GITHUB_TOKEN)
         (λ message,
            Ret (reply false ("Internal Server Error: "
                              +:+ or_else (Some message) "Unknown error"), 500));
    Ret {| r_status := statusCode; r_body := responseBody |}
  else Ret {| r_status := 404; r_body := Text "Not Found" |}.

End Worker.

(** ** The document host and the world a request runs in *)

(** A stored file: its items and the number of the write that produced it;
    the version token (GitHub's blob sha) is derived from that number, so it
    is never empty and changes with every write. *)
Record File : Type := {
  f_content : list Json;
  f_version : nat
}.

Definition sha_of (version : nat) : string := "v" +:+ pretty version.

(** The world: the files of the repository, the number of writes so far,
    the replies that the network, the host or racing writers force on the
    coming requests (in order; [None] or an exhausted script lets the store
    answer), and the clock with the calendar that renders it. *)
Record World : Type := {
  store : gmap string File;
  writes : nat;
  script : list (option FetchResult);
  clock : Z;
  toISOString : Z → string
}.

Definition set_store (s : gmap string File) (n : nat) (w : World) : World :=
  {| store := s; writes := n; script := script w;
     clock := clock w; toISOString := toISOString w |}.

Definition pop_script (w : World) : World :=
  {| store := store w; writes := writes w; script := tail (script w);
     clock := clock w; toISOString := toISOString w |}.

Definition advance (ms : Z) (w : World) : World :=
  {| store := store w; writes := writes w; script := script w;
     clock := clock w + ms; toISOString := toISOString w |}.

Definition plain (st : Z) (st_text : string) (data : JsonBody) : FetchResult :=
  Resolves {| status := st; statusText := st_text; text := ""; json := inr data |}.

Definition found (f : File) : FetchResult :=
  plain 200 "OK" {| j_content := inr (f_content f);
                    j_sha := Some (sha_of (f_version f));
                    j_message := None; j_string := "" |}.

(** The double quote. *)
Definition quote : string := String (Ascii.ascii_of_nat 34) EmptyString.

(** The body [{ message }] of a reply that carries no file, and its
    [JSON.stringify] for a message that needs no escape. *)
Definition no_data (message : string) : JsonBody :=
  {| j_content := inl "undefined"; j_sha := None;
     j_message := Some message;
     j_string := "{" +:+ quote +:+ "message" +:+ quote +:+ ":"
                 +:+ quote +:+ message +:+ quote +:+ "}" |}.

Definition not_found : FetchResult := plain 404 "Not Found" (no_data "Not Found").
Definition conflict : FetchResult := plain 409 "Conflict" (no_data "sha mismatch").
Definition written (st : Z) : FetchResult := plain st "OK" (no_data "").

(** The new state of a file after a successful write. *)
Definition write (filePath : string) (content : list Json) (w : World) : World :=
  set_store (<[filePath := {| f_content := content; f_version := writes w |}]> (store w))
            (S (writes w)) w.

(** Modelled from the spec: the document host, which is a service outside
    the repository. A read answers not-found for a file that was never
    written and the items with the current version token otherwise. A write
    is a compare-and-swap on the version token: it succeeds when the token it
    carries is the current one (no token for a file that does not exist) and
    gives the file a new token; any other write is refused as a version
    conflict, in the form the worker recognises (status 409, a message that
    includes 'sha mismatch'), and changes nothing. *)
Definition host (w : World) (rq : HttpRequest) : FetchResult * World :=
  match rq with
  | GET filePath _ =>
      (match store w !! filePath with
       | Some f => found f
       | None => not_found
       end, w)
  | PUT filePath content put_sha _ _ =>
      let current := store w !! filePath in
      if decide (put_sha = (sha_of ∘ f_version) <$> current)
      then (written (if decide (current = None) then 201 else 200), write filePath content w)
      else (conflict, w)
  end.

(** The reply to the next request: the scripted one, if any, else the
    host's. A scripted reply leaves the store as it is. *)
Definition http (w : World) (rq : HttpRequest) : FetchResult * World :=
  match script w with
  | Some r :: _ => (r, pop_script w)
  | _ => host (pop_script w) rq
  end.

(** ** Running a program *)

Inductive Event : Type :=
| EvHttp (rq : HttpRequest)
| EvSleep (ms : Z).

Inductive Outcome (A : Type) : Type :=
| Returned (a : A)
| Thrown (msg : string).

Arguments Returned {A} a.
Arguments Thrown {A} msg.

(** A finished run: how it ended, the world it left and what it did. *)
Record Run (A : Type) : Type := {
  outcome : Outcome A;
  final : World;
  trace : list Event
}.

Arguments outcome {A} _.
Arguments final {A} _.
Arguments trace {A} _.

Definition after {A : Type} (t : list Event) (x : Run A) : Run A :=
  {| outcome := outcome x; final := final x; trace := t ++ trace x |}.

Fixpoint run {A : Type} (p : Prog A) (w : World) : Run A :=
  match p with
  | Ret a => {| outcome := Returned a; final := w; trace := [] |}
  | Throw msg => {| outcome := Thrown msg; final := w; trace := [] |}
  | Http rq k => after [EvHttp rq] (run (k (http w rq).1) (http w rq).2)
  | Sleep ms k => after [EvSleep ms] (run k (advance ms w))
  | Now k => run (k (toISOString w (clock w))) w
  end.

(** One step of a program: up to and including its next [await], a request
    or a wait. Reading the clock does not suspend. A finished program has no
    step. *)
Fixpoint step {A : Type} (p : Prog A) (w : World) : option (Prog A * World) :=
  match p with
  | Ret _ | Throw _ => None
  | Http rq k => Some (k (http w rq).1, (http w rq).2)
  | Sleep ms k => Some (k, advance ms w)
  | Now k => step (k (toISOString w (clock w))) w
  end.

(** Requests in flight at the same time: the worker keeps no state of its
    own between them, so they interleave at their [await]s. The schedule
    names, step by step, the request that moves. *)
Fixpoint interleave {A : Type} (schedule : list nat) (pool : list (Prog A))
    (w : World) : list (Prog A) * World :=
  match schedule with
  | [] => (pool, w)
  | i :: rest =>
      match pool !! i ≫= (λ p, step p w) with
      | Some (p', w') => interleave rest (<[i := p']> pool) w'
      | None => interleave rest pool w
      end
  end.

(** ** Reading the world *)

(** The items of a collection; a file that does not exist has none. *)
Definition items (w : World) (filePath : string) : list Json :=
  match store w !! filePath with
  | Some f => f_content f
  | None => []
  end.

(** What [fetchGitHubFile] yields when the host answers. *)
Definition read (w : World) (filePath : string) : FileData :=
  match store w !! filePath with
  | Some f => {| fd_content := f_content f; fd_sha := Some (sha_of (f_version f)) |}
  | None => {| fd_content := []; fd_sha := None |}
  end.

(** The host itself answers the next [n] requests. *)
Fixpoint quiet (n : nat) (s : list (option FetchResult)) : bool :=
  match n, s with
  | O, _ => true
  | S _, [] => true
  | S n', None :: rest => quiet n' rest
  | S _, Some _ :: _ => false
  end.

Definition is_put (e : Event) : bool :=
  match e with
  | EvHttp (PUT _ _ _ _ _) => true
  | _ => false
  end.

(** The worker recognises a version conflict by this test on the reply to a
    write ([updateGitHubFile], the 409 branch). *)
Definition version_conflict (res : FetchResult) : bool :=
  match res with
  | Resolves response =>
      negb (ok response) && Z.eqb (status response) 409 &&
      match json response with
      | inr errorData =>
          match j_message errorData with
          | Some m => includes m "sha mismatch"
          | None => false
          end
      | inl _ => false
      end
  | Rejects _ => false
  end.

(** The votes stored for a voting id, and how often it is marked used. *)
Definition votes_for (votingId : string) (w : World) : list Json :=
  filter (λ v, prop v "votingId" = Some votingId) (items w VOTES_PATH).

Definition marks_of (votingId : string) (w : World) : list Json :=
  filter (λ v, v = JStr votingId) (items w USED_VOTING_IDS_PATH).

(** ASCII lower-casing, the restriction of [toLowerCase] to ASCII names,
    for running the worker on examples. *)
Definition ascii_lower (c : Ascii.ascii) : Ascii.ascii :=
  let n := Ascii.nat_of_ascii c in
  if (Nat.leb 65 n && Nat.leb n 90)%nat then Ascii.ascii_of_nat (n + 32) else c.

Fixpoint lower (s : string) : string :=
  match s with
  | EmptyString => EmptyString
  | String c rest => String (ascii_lower c) (lower rest)
  end.

(** The run of [p] followed by [f]. *)
Definition and_then {A B : Type} (x : Run A) (f : A → World → Run B) : Run B :=
  match outcome x with
  | Returned a => after (trace x) (f a (final x))
  | Thrown msg => {| outcome := Thrown msg; final := final x; trace := trace x |}
  end.

(** The run of [try { p } catch (e) { handler(e) }]. *)
Definition or_catch {A : Type} (x : Run A) (handler : string → World → Run A) : Run A :=
  match outcome x with
  | Returned a => x
  | Thrown msg => after (trace x) (handler msg (final x))
  end.

(** ** Requests that reach an endpoint *)

(** A POST of the JSON object [data] to [/api/<endpoint>]. *)
Definition posts (request : Request) (endpoint : string) (data : Obj) : Prop :=
  method request = "POST" ∧ pathname request = "/api/" +:+ endpoint
  ∧ body request = inr data.

(** The worker has its token. *)
Definition configured (env : Env) (token : string) : Prop :=
  GITHUB_TOKEN_VAR env = Some token ∧ token ≠ "".

(** A vote submission that passes the check of its required fields. *)
Definition submits (request : Request) (voteData : Obj) (votingId party : string) : Prop :=
  posts request "submit-vote" voteData
  ∧ voteData !! "votingId" = Some votingId ∧ votingId ≠ ""
  ∧ voteData !! "party" = Some party ∧ party ≠ "".

(** A candidate registration that passes the check of its required fields. *)
Definition registers (request : Request) (newCandidate : Obj) (partyName : string) : Prop :=
  posts request "register-candidate" newCandidate
  ∧ newCandidate !! "partyName" = Some partyName ∧ partyName ≠ ""
  ∧ truthy (newCandidate !! "candidateName") = true
  ∧ truthy (newCandidate !! "password") = true.

(** What [fetch] makes of the outcome of the [switch]: the response, or the
    500 of the outer [catch]. *)
Definition respond (x : Run (Body * Z)) : Run Response :=
  {| outcome :=
       Returned match outcome x with
                | Returned (responseBody, statusCode) =>
                    {| r_status := statusCode; r_body := responseBody |}
                | Thrown message =>
                    {| r_status := 500;
                       r_body := reply false ("Internal Server Error: "
                                   +:+ or_else (Some message) "Unknown error") |}
                end;
     final := final x;
     trace := trace x |}.

(** What the two retried endpoints make of the outcome of their loop. *)
Definition conclude (exhausted : string) (x : Run (option (Body * Z))) : Run (Body * Z) :=
  {| outcome := match outcome x with
                | Returned (Some response) => Returned response
                | Returned None => Returned (reply false exhausted, 500)
                | Thrown message => Thrown message
                end;
     final := final x;
     trace := trace x |}.

Definition vote_exhausted : string :=
  "Failed to submit vote after multiple retries due to concurrent updates.".

Definition registration_exhausted : string :=
  "Failed to register candidate after multiple retries due to concurrent updates.".

(** The world after the two writes of an accepted vote. *)
Definition voted (voteData : Obj) (votingId party : string) (credential : Json)
    (w : World) : World :=
  write USED_VOTING_IDS_PATH (items w USED_VOTING_IDS_PATH ++ [JStr votingId])
    (write VOTES_PATH
       (items w VOTES_PATH
        ++ [JObj (finalVoteRecord voteData votingId party credential
                    (toISOString w (clock w)))])
       w).

Definition vote_requests (voteData : Obj) (votingId party token : string)
    (credential : Json) (w : World) : list Event :=
  [EvHttp (GET VOTING_IDS_PATH token);
   EvHttp (GET USED_VOTING_IDS_PATH token);
   EvHttp (GET VOTES_PATH token);
   EvHttp (PUT VOTES_PATH
             (items w VOTES_PATH
              ++ [JObj (finalVoteRecord voteData votingId party credential
                          (toISOString w (clock w)))])
             (fd_sha (read w VOTES_PATH)) token
             ("Add vote for " +:+ party +:+ " by " +:+ votingId));
   EvHttp (PUT USED_VOTING_IDS_PATH
             (items w USED_VOTING_IDS_PATH ++ [JStr votingId])
             (fd_sha (read w USED_VOTING_IDS_PATH)) token
             ("Mark voting ID " +:+ votingId +:+ " as used"))].

(** ** Reading a response *)

(** The [used] property of a response, if its body is an object that has
    one. *)
Definition used_property (o : Outcome Response) : option Val :=
  match o with
  | Returned {| r_body := Object fields |} => fields !! "used"
  | _ => None
  end.

Definition success_property (o : Outcome Response) : option Val :=
  match o with
  | Returned {| r_body := Object fields |} => fields !! "success"
  | _ => None
  end.

(** ** The requests a program can send *)

(** Every request that the program sends, whatever the replies, satisfies [P]. *)
Inductive requests {A : Type} (P : HttpRequest → Prop) : Prog A → Prop :=
| requests_Ret a : requests P (Ret a)
| requests_Throw msg : requests P (Throw msg)
| requests_Http rq k : P rq → (∀ r, requests P (k r)) → requests P (Http rq k)
| requests_Sleep ms k : requests P k → requests P (Sleep ms k)
| requests_Now k : (∀ t, requests P (k t)) → requests P (Now k).

Definition is_read (rq : HttpRequest) : Prop :=
  match rq with
  | GET _ _ => True
  | PUT _ _ _ _ _ => False
  end.

(** [P] holds of every request of a trace. *)
Definition all_requests (P : HttpRequest → Prop) (t : list Event) : Prop :=
  Forall (λ e, match e with
               | EvHttp rq => P rq
               | EvSleep _ => True
               end) t.

(** A request that a registration of [newCandidate] may send: a read, or a
    write of the candidates that appends [newCandidate] to a list in which no
    party has its name up to letter case. *)
Definition admits (toLowerCase : string → string) (newCandidate : Obj)
    (partyName : string) (rq : HttpRequest) : Prop :=
  match rq with
  | GET _ _ => True
  | PUT filePath content _ _ _ =>
      filePath = CANDIDATES_PATH
      ∧ ∃ candidates : list Json,
          content = (candidates ++ [JObj newCandidate])%list
          ∧ Forall (λ c, ∀ name, prop c "partyName" = Some name →
                         toLowerCase name ≠ toLowerCase partyName) candidates
  end.

(** ** The attempts of a loop *)

(** The runs of the first [n] attempts of a loop when each is followed by
    the wait of its [catch]: attempt [i + 1] starts in the world that attempt
    [i] left, [100 * (i + 1)] ms later. *)
Fixpoint attempts {R : Type} (attempt : Prog (option R)) (n : nat) (i : Z)
    (w : World) : list (Run (option R)) :=
  match n with
  | O => []
  | S n' =>
      let x := run attempt w in
      x :: attempts attempt n' (i + 1) (advance (100 * (i + 1)) (final x))
  end.

(** The attempt ends in an error that the [catch] takes for a version
    conflict. *)
Definition conflicted {R : Type} (x : Run (option R)) : bool :=
  match outcome x with
  | Thrown e => includes e "sha mismatch"
  | Returned _ => false
  end.

(** The world after the last of [n] conflicted attempts and its wait. *)
Fixpoint after_attempts {R : Type} (attempt : Prog (option R)) (n : nat) (i : Z)
    (w : World) : World :=
  match n with
  | O => w
  | S n' =>
      after_attempts attempt n' (i + 1)
        (advance (100 * (i + 1)) (final (run attempt w)))
  end.

(** The request is one of the two that are retried; the unit of work it
    runs and the message it answers when the retries are used up. *)
Inductive serves (toLowerCase : string → string) (token : string) (request : Request)
    : Prog (option (Body * Z)) → string → Prop :=
| serves_registration newCandidate partyName :
    registers request newCandidate partyName →
    serves toLowerCase token request
      (register_attempt toLowerCase newCandidate token) registration_exhausted
| serves_vote voteData votingId party :
    submits request voteData votingId party →
    serves toLowerCase token request
      (vote_attempt voteData votingId party token) vote_exhausted.

(** ** Example data *)

Module Example.

Definition steve : Json :=
  JObj (record [("id", Some "ABC123"); ("playerName", Some "Steve");
                ("gameEdition", Some "Java")]).

Definition alex : Json :=
  JObj (record [("id", Some "XYZ789"); ("playerName", Some "Alex");
                ("gameEdition", Some "Bedrock")]).

Definition red_party : Json :=
  JObj (record [("partyName", Some "Red"); ("candidateName", Some "Rosa");
                ("password", Some "pw")]).

Definition file (content : list Json) (version : nat) : File :=
  {| f_content := content; f_version := version |}.

Definition world (files : gmap string File) (replies : list (option FetchResult))
    : World :=
  {| store := files; writes := 10; script := replies;
     clock := 1700000000000; toISOString := pretty |}.

(** Two credentials, nothing else written yet. *)
Definition fresh : World :=
  world {[ VOTING_IDS_PATH := file [steve; alex] 0 ]} [].

(** [ABC123] has voted. *)
Definition used : World :=
  world (<[USED_VOTING_IDS_PATH := file [JStr "ABC123"] 2]>
           {[ VOTING_IDS_PATH := file [steve; alex] 0 ]}) [].

(** One party is registered. *)
Definition with_party : World :=
  world {[ CANDIDATES_PATH := file [red_party] 1 ]} [].

Definition env : Env := {| GITHUB_TOKEN_VAR := Some "ghp" |}.

Definition post (endpoint : string) (fields : list (string * option string))
    : Request :=
  {| method := "POST"; pathname := "/api/" +:+ endpoint; searchParams := ∅;
     body := inr (record fields) |}.

Definition vote (votingId party : string) : Request :=
  post "submit-vote" [("votingId", Some votingId); ("party", Some party)].

Definition registration (partyName : string) : Request :=
  post "register-candidate"
    [("partyName", Some partyName); ("candidateName", Some "Rui");
     ("password", Some "secret")].

End Example.

Module Failure.

(** The host refuses a write with a 500 whose body is
    [{ message: 'Server Error' }]. *)
Definition server_error : FetchResult :=
  plain 500 "Internal Server Error" (no_data "Server Error").

(** The message of the error that [updateGitHubFile] throws on it. *)
Definition refused : string :=
  "Failed to update file on GitHub: Internal Server Error - {"
  +:+ quote +:+ "message" +:+ quote +:+ ":" +:+ quote +:+ "Server Error"
  +:+ quote +:+ "}".

(** The fifth request of a vote submission, the write of the mark, is the
    one that fails. *)
Definition mark_lost : World :=
  Example.world {[ VOTING_IDS_PATH := Example.file [Example.steve; Example.alex] 0 ]}
    [None; None; None; None; Some server_error].

(** The host refuses a write with a 500 whose message happens to contain
    the words the worker looks for: no version conflict, and no reason to
    expect another outcome from a second try. *)
Definition misleading : FetchResult :=
  plain 500 "Internal Server Error" (no_data "cache sha mismatch").

(** The write of the mark is refused so, once. *)
Definition mark_misled : World :=
  Example.world {[ VOTING_IDS_PATH := Example.file [Example.steve; Example.alex] 0 ]}
    [None; None; None; None; Some misleading].

End Failure.

Module Unavailable.

(** The host answers the first read with a 503 whose text happens to
    contain the words the worker looks for. *)
Definition busy : FetchResult :=
  Resolves {| status := 503; statusText := "Service Unavailable";
              text := "sha mismatch"; json := inl "Unexpected token" |}.

Definition once : World :=
  Example.world {[ CANDIDATES_PATH := Example.file [Example.red_party] 1 ]}
    [Some busy].

End Unavailable.

Module Race.

Definition voter (id name : string) : Json :=
  JObj (record [("id", Some id); ("playerName", Some name);
                ("gameEdition", Some "Java")]).

(** Four credentials; no vote has been cast. *)
Definition start : World :=
  Example.world
    {[ VOTING_IDS_PATH :=
         Example.file [Example.steve; Example.alex;
                       voter "DEF456" "Efe"; voter "GHI012" "Noor"] 0 ]} [].

Definition submit (votingId party : string) : Prog Response :=
  fetch lower (Example.vote votingId party) Example.env.

(** The same voting id is submitted twice at the same time. The first
    request reads the three files and writes its vote; the second then does
    the same, before the first has marked the id; the first marks the id; the
    second loses the write of the mark, waits, and finds the id used. *)
Definition twice : list (Prog Response) :=
  [submit "ABC123" "Red"; submit "ABC123" "Red"].

Definition twice_schedule : list nat :=
  [0; 0; 0; 0;  1; 1; 1; 1;  0;  1; 1; 1; 1]%nat.

(** One submission for [ABC123] meets another voter, whose whole submission
    lands between its read of the used ids and its read of the votes: it
    writes its vote, loses the write of the mark, waits, and its second
    attempt runs to the end. *)
Definition pair : list (Prog Response) :=
  [submit "ABC123" "Red"; submit "XYZ789" "Blue"].

Definition pair_schedule : list nat :=
  [0; 0]%nat ++ replicate 5 1%nat ++ replicate 4 0%nat ++ replicate 5 0%nat.

(** One submission for [ABC123] meets three other voters. In each of its
    attempts another voter's whole submission lands between its read of the
    used ids and its read of the votes: its write of the vote succeeds and
    its write of the mark is a version conflict. *)
Definition crowd : list (Prog Response) :=
  [submit "ABC123" "Red"; submit "XYZ789" "Blue";
   submit "DEF456" "Blue"; submit "GHI012" "Red"].

Definition overtaken_by (other : nat) : list nat :=
  [0; 0]%nat ++ replicate 5 other ++ replicate 4 0%nat.

Definition crowd_schedule : list nat :=
  overtaken_by 1 ++ overtaken_by 2 ++ overtaken_by 3.

End Race.

Module Contention.

(** Each write of a candidate registration loses its race: the reply to the
    second, fourth and sixth request is a version conflict. *)
Definition registration_lost : World :=
  Example.world {[ CANDIDATES_PATH := Example.file [Example.red_party] 1 ]}
    [None; Some conflict; None; Some conflict; None; Some conflict].

(** Each attempt of a vote submission writes its vote and loses the write of
    the mark. *)
Definition mark_lost : World :=
  Example.world {[ VOTING_IDS_PATH := Example.file [Example.steve; Example.alex] 0 ]}
    [None; None; None; None; Some conflict;
     None; None; None; None; Some conflict;
     None; None; None; None; Some conflict].

(** The first attempt of a vote submission writes its vote and loses the
    write of the mark; the store answers the second attempt. *)
Definition mark_lost_once : World :=
  Example.world {[ VOTING_IDS_PATH := Example.file [Example.steve; Example.alex] 0 ]}
    [None; None; None; None; Some conflict].

End Contention.

Module Unicode.

(** A party whose name has characters above U+00FF. *)
Definition party : string := "Łódź".

End Unicode.

(** ** What a request makes the worker do, in every world *)

(** Every value that the program returns, whatever the replies, satisfies
    [Q]. *)
Definition results {A : Type} (Q : A → Prop) (p : Prog A) : Prop :=
  ∀ w, match outcome (run p w) with
       | Returned a => Q a
       | Thrown _ => True
       end.

(** Whatever the replies, at most [n] events of the program are counted by
    [count]. *)
Definition at_most {A : Type} (count : Event → bool) (n : nat) (p : Prog A) : Prop :=
  ∀ w, (length (filter count (trace (run p w))) ≤ n)%nat.

Definition is_request (e : Event) : bool :=
  match e with
  | EvHttp _ => true
  | EvSleep _ => false
  end.

Definition is_wait (e : Event) : bool := negb (is_request e).

(** The waits of a trace, in order. *)
Definition waits (t : list Event) : list Z :=
  omap (λ e, match e with
             | EvSleep ms => Some ms
             | EvHttp _ => None
             end) t.

(** The status of a response agrees with its body: an object says
    [success: true] under status 200 and [success: false] under an error
    status, a list of items comes with 200, plain text with 404 or 500, and
    no body with 204. *)
Definition coherent (response : Response) : Prop :=
  match r_body response with
  | Object o =>
      (o !! "success" = Some (VBool true) ∧ r_status response = 200)
      ∨ (o !! "success" = Some (VBool false)
         ∧ r_status response ∈ [400; 401; 404; 405; 409; 500])
  | Items _ => r_status response = 200
  | Text _ => r_status response = 404 ∨ r_status response = 500
  | NoBody => r_status response = 204
  end.

Definition coherent_pair (x : Body * Z) : Prop :=
  coherent {| r_status := x.2; r_body := x.1 |}.

(** The file a request names and whether the request writes it. *)
Definition touches (rq : HttpRequest) : string * bool :=
  match rq with
  | GET filePath _ => (filePath, false)
  | PUT filePath _ _ _ _ => (filePath, true)
  end.

Definition token_of (rq : HttpRequest) : string :=
  match rq with
  | GET _ token => token
  | PUT _ _ _ token _ => token
  end.

(** The files of an endpoint: what it may read ([false]) and write ([true]). *)
Definition scope (endpoint : string) : list (string * bool) :=
  if String.eqb endpoint "candidates" then [(CANDIDATES_PATH, false)]
  else if String.eqb endpoint "votes" then [(VOTES_PATH, false)]
  else if String.eqb endpoint "voting-ids" then [(VOTING_IDS_PATH, false)]
  else if String.eqb endpoint "used-voting-ids" then [(USED_VOTING_IDS_PATH, false)]
  else if String.eqb endpoint "check-voting-id" then
    [(VOTING_IDS_PATH, false); (USED_VOTING_IDS_PATH, false)]
  else if String.eqb endpoint "register-candidate" then
    [(CANDIDATES_PATH, false); (CANDIDATES_PATH, true)]
  else if String.eqb endpoint "submit-vote" then
    [(VOTING_IDS_PATH, false); (USED_VOTING_IDS_PATH, false); (VOTES_PATH, false);
     (VOTES_PATH, true); (USED_VOTING_IDS_PATH, true)]
  else [].

(** A request that a submission of [votingId] for [party] may send: a read,
    a write of the votes that appends one record of that id and party, or a
    write of the used ids that appends the id to a list without it. *)
Definition casts (votingId party : string) (rq : HttpRequest) : Prop :=
  match rq with
  | GET _ _ => True
  | PUT filePath content _ _ _ =>
      (filePath = VOTES_PATH
       ∧ ∃ (votes : list Json) (vote : Obj),
           content = (votes ++ [JObj vote])%list
           ∧ vote !! "votingId" = Some votingId ∧ vote !! "party" = Some party)
      ∨ (filePath = USED_VOTING_IDS_PATH
         ∧ ∃ usedIds : list Json,
             content = (usedIds ++ [JStr votingId])%list
             ∧ JStr votingId ∉ usedIds)
  end.

(** The waits of a loop of [n] attempts that starts at iteration [i], when
    every attempt is taken for a version conflict. *)
Fixpoint backoff (n : nat) (i : Z) : list Z :=
  match n with
  | O => []
  | S n' => 100 * (i + 1) :: backoff n' (i + 1)
  end.

(** Whatever the replies, the waits of the program are the first ones of
    [l]. *)
Definition waits_within {A : Type} (l : list Z) (p : Prog A) : Prop :=
  ∀ w, waits (trace (run p w)) `prefix_of` l.

(** The requests that an endpoint serves by turning to the host: the method
    is the one of the endpoint and the fields it requires are truthy
    ([posted] reads a field of the JSON body, [undefined] when the body is no
    JSON object). *)
Definition endpoint_serves (request : Request) : bool :=
  let endpoint := substring_from 5 (pathname request) in
  let sent name := String.eqb (method request) name in
  let posted name :=
    match body request with
    | inr data => truthy (data !! name)
    | inl _ => false
    end in
  if String.eqb endpoint "candidates" || String.eqb endpoint "votes"
     || String.eqb endpoint "voting-ids" || String.eqb endpoint "used-voting-ids"
  then sent "GET"
  else if String.eqb endpoint "check-voting-id"
  then (if sent "POST" then posted "votingId"
        else sent "GET" && truthy (searchParams request !! "votingId"))
  else if String.eqb endpoint "register-candidate"
  then sent "POST" && posted "partyName" && posted "candidateName"
       && posted "password"
  else if String.eqb endpoint "submit-vote"
  then sent "POST" && posted "votingId" && posted "party"
  else false.

(** The requests for which the worker turns to the host: not a preflight,
    the token is configured, the path is under [/api/] and the endpoint
    serves the request. *)
Definition needs_host (request : Request) (env : Env) : bool :=
  negb (String.eqb (method request) "OPTIONS") && truthy (GITHUB_TOKEN_VAR env)
  && startsWith (pathname request) "/api/" && endpoint_serves request.

(** The program begins with a read, whatever the world. *)
Definition reads_first {A : Type} (p : Prog A) : Prop :=
  ∀ w, ∃ filePath token t, trace (run p w) = EvHttp (GET filePath token) :: t.

(** The program sends nothing and leaves the world as it is. *)
Definition idle {A : Type} (p : Prog A) : Prop :=
  ∀ w, trace (run p w) = [] ∧ final (run p w) = w.

(** Whether a program reads first or is idle, as a flag says. *)
Definition turns_to_host {A : Type} (flag : bool) (p : Prog A) : Prop :=
  if flag then reads_first p else idle p.

(** ** The read-only endpoints *)

(** The four collection endpoints and their files. *)
Definition collections : list (string * string) :=
  [("candidates", CANDIDATES_PATH); ("votes", VOTES_PATH);
   ("voting-ids", VOTING_IDS_PATH); ("used-voting-ids", USED_VOTING_IDS_PATH)].

(** A GET of a collection endpoint. *)
Definition lists (request : Request) (endpoint filePath : string) : Prop :=
  (endpoint, filePath) ∈ collections
  ∧ method request = "GET" ∧ pathname request = "/api/" +:+ endpoint.

(** A check of [votingId] in one of its two forms, with the message of the
    form for an accepted id and whether the form replaces it for a used id:
    the id is a field of the posted JSON object, or a query parameter. *)
Inductive checks (request : Request) (votingId : option string)
    : string → bool → Prop :=
| checks_post data :
    method request = "POST" → body request = inr data →
    data !! "votingId" = votingId →
    checks request votingId "Voting ID accepted." true
| checks_get :
    method request = "GET" → searchParams request !! "votingId" = votingId →
    checks request votingId "Voting ID status retrieved." false.

(** Two bodies that differ at most in the [message] of an object. *)
Definition same_but_message (b1 b2 : Body) : Prop :=
  match b1, b2 with
  | Object o1, Object o2 => ∀ k, k ≠ "message" → o1 !! k = o2 !! k
  | _, _ => b1 = b2
  end.

(** ** The candidates collection *)

(** The lower-cased party name of each candidate. *)
Definition party_keys (toLowerCase : string → string) (candidates : list Json)
    : list (option string) :=
  (λ c, toLowerCase <$> prop c "partyName") <$> candidates.

(** Every candidate has a party name, and no two have the same one up to
    letter case. *)
Definition distinct_parties (toLowerCase : string → string) (candidates : list Json)
    : Prop :=
  Forall (λ c, is_Some (prop c "partyName")) candidates
  ∧ NoDup (party_keys toLowerCase candidates).

(** ** Requests turned away *)

(** The endpoints that take a JSON object, each with the fields it requires
    and the message it gives when one is missing. *)
Definition required : list (string * (list string * string)) :=
  [("register-candidate",
    (["partyName"; "candidateName"; "password"],
     "Missing required candidate fields (partyName, candidateName, password)."));
   ("submit-vote",
    (["votingId"; "party"], "Missing voting ID or party for vote submission."))].

(** The endpoints and the methods each one serves, the preflight apart. *)
Definition allowed : list (string * list string) :=
  [("candidates", ["GET"]); ("votes", ["GET"]); ("voting-ids", ["GET"]);
   ("used-voting-ids", ["GET"]); ("check-voting-id", ["POST"; "GET"]);
   ("register-candidate", ["POST"]); ("submit-vote", ["POST"])].

(** A response that was given without turning to the host. *)
Definition turned_away (response : Response) (w : World) : Run Response :=
  {| outcome := Returned response; final := w; trace := [] |}.

(** * Properties *)

(** ** Running composed programs *)

Lemma after_after {A : Type} (t1 t2 : list Event) (x : Run A) :
  after t1 (after t2 x) = after (t1 ++ t2) x.
Proof. unfold after; simpl. by rewrite (assoc_L (++)). Qed.

Lemma after_nil {A : Type} (x : Run A) : after [] x = x.
Proof. by destruct x. Qed.

Lemma and_then_after {A B : Type} (t : list Event) (x : Run A) (f : A → World → Run B) :
  and_then (after t x) f = after t (and_then x f).
Proof.
  unfold and_then; simpl. destruct (outcome x); [by rewrite after_after|].
  unfold after; simpl. done.
Qed.

Lemma run_bind {A B : Type} (p : Prog A) (f : A → Prog B) (w : World) :
  run (p ≫= f) w = and_then (run p w) (λ a, run (f a)).
Proof.
  change (p ≫= f) with (bind p f).
  revert w; induction p as [a|msg|rq k IH|ms k IH|k IH]; intros w; simpl.
  - unfold and_then; simpl. by rewrite after_nil.
  - done.
  - by rewrite IH, and_then_after.
  - by rewrite IH, and_then_after.
  - apply IH.
Qed.

Lemma or_catch_after {A : Type} (t : list Event) (x : Run A) handler :
  or_catch (after t x) handler = after t (or_catch x handler).
Proof.
  unfold or_catch; simpl. destruct (outcome x); [done|]. by rewrite after_after.
Qed.

Lemma run_try_catch {A : Type} (p : Prog A) (handler : string → Prog A) (w : World) :
  run (try_catch p handler) w = or_catch (run p w) (λ msg, run (handler msg)).
Proof.
  revert w; induction p as [a|msg|rq k IH|ms k IH|k IH]; intros w; simpl.
  - done.
  - unfold or_catch; simpl. by rewrite after_nil.
  - by rewrite IH, or_catch_after.
  - by rewrite IH, or_catch_after.
  - apply IH.
Qed.

Lemma run_Now {A : Type} (k : string → Prog A) w :
  run (Now k) w = run (k (toISOString w (clock w))) w.
Proof. done. Qed.

Lemma run_Ret {A : Type} (a : A) w :
  run (Ret a) w = {| outcome := Returned a; final := w; trace := [] |}.
Proof. done. Qed.

(** A run is the iteration of [step]. *)
Lemma run_step {A : Type} (p p' : Prog A) (w w' : World) :
  step p w = Some (p', w') →
  outcome (run p w) = outcome (run p' w') ∧ final (run p w) = final (run p' w').
Proof.
  induction p as [a|msg|rq k IH|ms k IH|k IH]; simpl; intros H;
    try by simplify_eq.
  by apply IH.
Qed.

(** ** The host *)

Lemma script_host w rq : script (host w rq).2 = script w.
Proof.
  destruct rq; simpl; [done|]. by case_decide.
Qed.

Lemma quiet_http n w rq :
  quiet (S n) (script w) = true →
  http w rq = host (pop_script w) rq ∧ quiet n (script (http w rq).2) = true.
Proof.
  unfold http. destruct (script w) as [|[r|] rest] eqn:Hs; simpl; intros Hq; try done.
  - split; [done|]. rewrite script_host; simpl. rewrite Hs. by destruct n.
  - split; [done|]. rewrite script_host; simpl. by rewrite Hs.
Qed.

Lemma quiet_weaken n s : quiet (S n) s = true → quiet n s = true.
Proof.
  revert s; induction n as [|n IH]; intros s; [done|].
  destruct s as [|[r|] rest]; simpl; try done. apply IH.
Qed.

Lemma truthy_sha w filePath :
  (if truthy (fd_sha (read w filePath)) then fd_sha (read w filePath) else None)
  = fd_sha (read w filePath).
Proof. unfold read. by destruct (store w !! filePath). Qed.

Lemma fd_sha_read w filePath :
  fd_sha (read w filePath) = (sha_of ∘ f_version) <$> store w !! filePath.
Proof. unfold read. by destruct (store w !! filePath). Qed.

Lemma fd_content_read w filePath : fd_content (read w filePath) = items w filePath.
Proof. unfold read, items. by destruct (store w !! filePath). Qed.

(** A read that the host answers. *)
Lemma host_get w filePath token :
  fetched filePath (host w (GET filePath token)).1 = Ret (read w filePath)
  ∧ (host w (GET filePath token)).2 = w.
Proof.
  simpl. unfold read. by destruct (store w !! filePath).
Qed.

(** A write with the token of the current version, answered by the host. *)
Lemma host_put w filePath content token message :
  host w (PUT filePath content (fd_sha (read w filePath)) token message)
  = (written (if decide (store w !! filePath = None) then 201 else 200),
     write filePath content w).
Proof.
  simpl. rewrite fd_sha_read. by rewrite decide_True.
Qed.

Lemma updated_written st : st = 200 ∨ st = 201 → updated (written st) = Ret true.
Proof. by intros [-> | ->]. Qed.

Lemma quiet_tail n s : quiet (S n) s = true → quiet n (tail s) = true.
Proof. destruct s as [|[r|] rest]; simpl; try done. by destruct n. Qed.

Lemma http_host w rq :
  quiet 1 (script w) = true → http w rq = host (pop_script w) rq.
Proof. intros Hq. by apply (quiet_http 0). Qed.

Lemma run_fetchGitHubFile {B : Type} w filePath token (f : FileData → Prog B) :
  quiet 1 (script w) = true →
  run (fetchGitHubFile filePath token ≫= f) w
  = after [EvHttp (GET filePath token)] (run (f (read w filePath)) (pop_script w)).
Proof.
  intros Hq.
  destruct (host_get (pop_script w) filePath token) as [Hf Hw].
  change (fetchGitHubFile filePath token ≫= f)
    with (Http (GET filePath token) (λ r, bind (fetched filePath r) f)).
  simpl. rewrite (http_host _ _ Hq), Hf, Hw. done.
Qed.

(** [updateGitHubFile] for a content that [btoa] takes, and for one that it
    does not. *)
Lemma updateGitHubFile_sends filePath content sha token message :
  encodable content = true →
  updateGitHubFile filePath content sha token message
  = Http (PUT filePath content (if truthy sha then sha else None) token message)
      updated.
Proof. intros H. unfold updateGitHubFile. by rewrite H. Qed.

Lemma updateGitHubFile_throws filePath content sha token message :
  encodable content = false →
  updateGitHubFile filePath content sha token message
  = Throw InvalidCharacterError_btoa.
Proof. intros H. unfold updateGitHubFile. by rewrite H. Qed.

Lemma encodable_app (content more : list Json) :
  encodable (content ++ more) = encodable content && encodable more.
Proof. apply forallb_app. Qed.

Lemma run_updateGitHubFile {B : Type} w filePath content token message
    (f : bool → Prog B) :
  encodable content = true →
  quiet 1 (script w) = true →
  run (updateGitHubFile filePath content (fd_sha (read w filePath)) token message ≫= f) w
  = after [EvHttp (PUT filePath content (fd_sha (read w filePath)) token message)]
      (run (f true) (write filePath content (pop_script w))).
Proof.
  intros Henc Hq.
  pose proof (host_put (pop_script w) filePath content token message) as Hp.
  change (read (pop_script w) filePath) with (read w filePath) in Hp.
  rewrite updateGitHubFile_sends by done. rewrite truthy_sha.
  change (Http ?rq updated ≫= f) with (Http rq (λ r, bind (updated r) f)).
  simpl run. rewrite (http_host _ _ Hq), Hp. simpl fst; simpl snd.
  rewrite updated_written; [done|].
  destruct (decide _); auto.
Qed.

(** Reads and writes of different files do not interfere. *)
Lemma read_write_ne w p q content : p ≠ q → read (write p content w) q = read w q.
Proof. intros H. unfold read, write; simpl. by rewrite lookup_insert_ne. Qed.

Lemma items_write_ne w p q content : p ≠ q → items (write p content w) q = items w q.
Proof. intros H. unfold items, write; simpl. by rewrite lookup_insert_ne. Qed.

Lemma items_write w p content : items (write p content w) p = content.
Proof. unfold items, write; simpl. by rewrite lookup_insert_eq. Qed.

Lemma eqb_falsy s : s ≠ "" → String.eqb s "" = false.
Proof. intros H. by apply String.eqb_neq. Qed.

Lemma truthy_Some s : s ≠ "" → truthy (Some s) = true.
Proof. intros H. unfold truthy. by rewrite eqb_falsy. Qed.

Lemma startsWith_api endpoint : startsWith ("/api/" +:+ endpoint) "/api/" = true.
Proof. by destruct endpoint. Qed.

Lemma run_fetch_api toLowerCase request env token endpoint w :
  method request ≠ "OPTIONS" → configured env token →
  pathname request = "/api/" +:+ endpoint →
  run (fetch toLowerCase request env) w
  = respond (run (api toLowerCase endpoint request token) w).
Proof.
  intros Hm [Ht Hne] Hp. unfold fetch.
  apply String.eqb_neq in Hm. rewrite Hm, Ht, (truthy_Some _ Hne), Hp.
  cbv zeta. rewrite startsWith_api.
  change (substring_from 5 ("/api/" +:+ endpoint)) with endpoint.
  simpl negb. cbv iota. simpl default.
  rewrite run_bind, run_try_catch. unfold and_then, or_catch, respond.
  destruct (run (api toLowerCase endpoint request token) w) as [[[b s]|msg] w' t];
    simpl; unfold after; simpl; by rewrite ?List.app_nil_r.
Qed.

(** Every request is answered: [fetch] does not throw. *)
Lemma fetch_responds toLowerCase request env w :
  ∃ response, outcome (run (fetch toLowerCase request env) w) = Returned response.
Proof.
  unfold fetch. destruct (String.eqb _ _); [by eexists|].
  destruct (negb _); [by eexists|]. cbv zeta.
  destruct (startsWith _ _); [|by eexists].
  rewrite run_bind, run_try_catch. unfold and_then, or_catch.
  destruct (run (api _ _ _ _) w) as [[[b s]|msg] w' t]; simpl; by eexists.
Qed.

Lemma run_api_submit_vote toLowerCase request voteData votingId party token w :
  submits request voteData votingId party →
  run (api toLowerCase "submit-vote" request token) w
  = conclude vote_exhausted
      (run (retry (vote_attempt voteData votingId party token) MAX_RETRIES 0) w).
Proof.
  intros ((Hm & _ & Hb) & Hv & Hvne & Hp & Hpne).
  unfold api. simpl String.eqb. cbv iota. rewrite Hm. simpl String.eqb. cbv iota.
  unfold request_json. rewrite Hb.
  change (Ret voteData ≫= ?f) with (f voteData). cbv beta zeta.
  rewrite Hv, Hp, !truthy_Some by done. simpl negb. simpl orb. cbv iota.
  simpl default. rewrite run_bind. unfold and_then, conclude.
  destruct (run _ w) as [[[r|]|msg] w' t];
    simpl; unfold after; simpl; by rewrite ?List.app_nil_r.
Qed.

Lemma run_api_register_candidate toLowerCase request newCandidate partyName token w :
  registers request newCandidate partyName →
  run (api toLowerCase "register-candidate" request token) w
  = conclude registration_exhausted
      (run (retry (register_attempt toLowerCase newCandidate token) MAX_RETRIES 0) w).
Proof.
  intros ((Hm & _ & Hb) & Hp & Hpne & Hc & Hpw).
  unfold api. simpl String.eqb. cbv iota. rewrite Hm. simpl String.eqb. cbv iota.
  unfold request_json. rewrite Hb.
  change (Ret newCandidate ≫= ?f) with (f newCandidate). cbv beta zeta.
  rewrite Hp, Hc, Hpw, truthy_Some by done. simpl negb. simpl orb. cbv iota.
  rewrite run_bind. unfold and_then, conclude.
  destruct (run _ w) as [[[r|]|msg] w' t];
    simpl; unfold after; simpl; by rewrite ?List.app_nil_r.
Qed.

Lemma posts_not_options request endpoint data :
  posts request endpoint data → method request ≠ "OPTIONS".
Proof. intros (-> & _). done. Qed.

(** One iteration of the loop: the [try], the [catch], and on. *)
Lemma run_retry {R : Type} (attempt : Prog (option R)) n i w :
  run (retry attempt (S n) i) w
  = and_then
      (or_catch (run attempt w)
         (λ e, run (if negb (includes e "sha mismatch") then Throw e
                    else Sleep (100 * (i + 1)) (Ret None))))
      (λ r, run match r with
                | Some response => Ret (Some response)
                | None => retry attempt n (i + 1)
                end).
Proof. simpl retry. by rewrite run_bind, run_try_catch. Qed.

(** An iteration whose [try] leaves the loop. *)
Lemma run_retry_break {R : Type} (attempt : Prog (option R)) n i w response :
  outcome (run attempt w) = Returned (Some response) →
  run (retry attempt (S n) i) w
  = {| outcome := Returned (Some response);
       final := final (run attempt w); trace := trace (run attempt w) |}.
Proof.
  intros H. rewrite run_retry. unfold or_catch. rewrite H.
  unfold and_then. rewrite H. unfold after; simpl. by rewrite List.app_nil_r.
Qed.

(** ** One attempt of a vote submission, answered by the host *)

Ltac from_quiet Hq :=
  simpl script; repeat apply quiet_tail;
  do 8 try first [exact Hq | apply quiet_weaken].

Ltac host_reads Hq :=
  rewrite run_fetchGitHubFile by from_quiet Hq; cbv beta zeta.

Lemma paths_distinct :
  VOTES_PATH ≠ USED_VOTING_IDS_PATH ∧ VOTES_PATH ≠ VOTING_IDS_PATH
  ∧ USED_VOTING_IDS_PATH ≠ VOTING_IDS_PATH ∧ VOTES_PATH ≠ CANDIDATES_PATH
  ∧ USED_VOTING_IDS_PATH ≠ CANDIDATES_PATH.
Proof. by repeat split. Qed.

Lemma vote_attempt_unknown voteData votingId party token w :
  quiet 1 (script w) = true →
  find (has_id votingId) (items w VOTING_IDS_PATH) = None →
  run (vote_attempt voteData votingId party token) w
  = {| outcome := Returned (Some (reply false
                    "Invalid Voting ID provided for vote submission.", 401));
       final := pop_script w;
       trace := [EvHttp (GET VOTING_IDS_PATH token)] |}.
Proof.
  intros Hq Hfind. unfold vote_attempt.
  host_reads Hq. rewrite fd_content_read, Hfind. done.
Qed.

Lemma vote_attempt_used voteData votingId party token w credential :
  quiet 2 (script w) = true →
  find (has_id votingId) (items w VOTING_IDS_PATH) = Some credential →
  array_includes (items w USED_VOTING_IDS_PATH) votingId = true →
  run (vote_attempt voteData votingId party token) w
  = {| outcome := Returned (Some (reply true
                    "This Voting ID has already been used to vote.", 200));
       final := pop_script (pop_script w);
       trace := [EvHttp (GET VOTING_IDS_PATH token);
                 EvHttp (GET USED_VOTING_IDS_PATH token)] |}.
Proof.
  intros Hq Hfind Hused. unfold vote_attempt.
  host_reads Hq. rewrite fd_content_read, Hfind.
  host_reads Hq. rewrite fd_content_read.
  change (items (pop_script w) USED_VOTING_IDS_PATH)
    with (items w USED_VOTING_IDS_PATH).
  rewrite Hused. done.
Qed.

Lemma vote_attempt_fresh voteData votingId party token w credential :
  quiet 5 (script w) = true →
  find (has_id votingId) (items w VOTING_IDS_PATH) = Some credential →
  array_includes (items w USED_VOTING_IDS_PATH) votingId = false →
  encodable (items w VOTES_PATH
             ++ [JObj (finalVoteRecord voteData votingId party credential
                         (toISOString w (clock w)))]) = true →
  encodable (items w USED_VOTING_IDS_PATH ++ [JStr votingId]) = true →
  run (vote_attempt voteData votingId party token) w
  = {| outcome := Returned (Some (reply true "Vote submitted successfully.", 200));
       final := voted voteData votingId party credential (Nat.iter 5 pop_script w);
       trace := vote_requests voteData votingId party token credential w |}.
Proof.
  intros Hq Hfind Hused Hvote Hmark. unfold vote_attempt.
  destruct paths_distinct as (Hvu & _).
  host_reads Hq. rewrite fd_content_read, Hfind.
  host_reads Hq. rewrite fd_content_read.
  change (items (pop_script w) USED_VOTING_IDS_PATH)
    with (items w USED_VOTING_IDS_PATH).
  rewrite Hused.
  host_reads Hq. rewrite run_Now. cbv beta zeta.
  set (w3 := pop_script (pop_script (pop_script w))).
  change (read (pop_script (pop_script w)) VOTES_PATH) with (read w3 VOTES_PATH).
  rewrite run_updateGitHubFile;
    [|rewrite fd_content_read; exact Hvote|subst w3; from_quiet Hq].
  simpl negb. cbv iota.
  set (w4 := write VOTES_PATH _ (pop_script w3)).
  replace (read (pop_script w) USED_VOTING_IDS_PATH)
    with (read w4 USED_VOTING_IDS_PATH)
    by (subst w4; by rewrite read_write_ne).
  rewrite run_updateGitHubFile;
    [|exact Hmark
     |subst w4 w3; from_quiet Hq].
  simpl negb. cbv iota. rewrite run_Ret.
  unfold after; simpl.
  replace (read w4 USED_VOTING_IDS_PATH) with (read w USED_VOTING_IDS_PATH)
    by (subst w4; by rewrite read_write_ne).
  subst w4. rewrite fd_content_read. done.
Qed.

(** ** Lookups in the collections *)

Lemma find_has_id_None votingId (ids : list Json) :
  Forall (λ item, prop item "id" ≠ Some votingId) ids →
  find (has_id votingId) ids = None.
Proof.
  induction 1 as [|item ids Hne _ IH]; [done|]. simpl.
  unfold has_id at 1. destruct (prop item "id") as [s|] eqn:Hs; [|done].
  destruct (String.eqb_spec s votingId) as [->|]; [by destruct Hne|done].
Qed.

Lemma find_has_id_Some votingId (ids : list Json) credential :
  find (has_id votingId) ids = Some credential →
  credential ∈ ids ∧ prop credential "id" = Some votingId.
Proof.
  induction ids as [|item ids IH]; [done|]. simpl.
  destruct (has_id votingId item) eqn:Hid.
  - intros [= <-]. split; [left|]. unfold has_id in Hid.
    destruct (prop item "id") as [s|]; [|done].
    by apply String.eqb_eq in Hid as ->.
  - intros H. destruct (IH H). split; [by right|done].
Qed.

Lemma array_includes_true (usedIds : list Json) votingId :
  JStr votingId ∈ usedIds → array_includes usedIds votingId = true.
Proof.
  intros H. unfold array_includes. apply existsb_exists.
  exists (JStr votingId). split; [by apply list_elem_of_In|]. apply String.eqb_refl.
Qed.

Lemma array_includes_false (usedIds : list Json) votingId :
  JStr votingId ∉ usedIds → array_includes usedIds votingId = false.
Proof.
  intros H. apply not_true_is_false. intros Ht. apply H.
  unfold array_includes in Ht. apply existsb_exists in Ht as ([s|o] & Hin & Heq);
    [|done].
  apply String.eqb_eq in Heq as ->. by apply list_elem_of_In.
Qed.

(** ** Vote submission *)

(** C9. A vote submission whose voting id is the [id] of no item of the
    voting-ids collection is answered 401 with [success: false] and the
    message 'Invalid Voting ID provided for vote submission.'; the worker
    sends one request, the read of the voting ids, and the store is left as
    it was. *)
Theorem submit_vote_unknown_id toLowerCase request env token voteData votingId party w :
  submits request voteData votingId party →
  configured env token →
  quiet 1 (script w) = true →
  Forall (λ item, prop item "id" ≠ Some votingId) (items w VOTING_IDS_PATH) →
  let r := run (fetch toLowerCase request env) w in
  outcome r = Returned {| r_status := 401;
                          r_body := reply false
                            "Invalid Voting ID provided for vote submission." |}
  ∧ store (final r) = store w
  ∧ trace r = [EvHttp (GET VOTING_IDS_PATH token)].
Proof.
  intros Hs Hc Hq Hnone r. subst r.
  destruct Hs as (Hpost & Hrest).
  rewrite (run_fetch_api _ _ _ token "submit-vote");
    [|by eapply posts_not_options|done|by destruct Hpost as (_ & ? & _)].
  rewrite (run_api_submit_vote _ _ voteData votingId party) by done.
  unfold MAX_RETRIES.
  rewrite (run_retry_break _ _ _ _
             (reply false "Invalid Voting ID provided for vote submission.", 401));
    rewrite vote_attempt_unknown by (by try apply find_has_id_None); done.
Qed.

Lemma submit_vote_unknown_id_witness :
  let r := run (fetch lower (Example.vote "ZZZ" "Red") Example.env) Example.fresh in
  outcome r = Returned {| r_status := 401;
                          r_body := reply false
                            "Invalid Voting ID provided for vote submission." |}
  ∧ store (final r) = store Example.fresh
  ∧ trace r = [EvHttp (GET VOTING_IDS_PATH "ghp")].
Proof.
  apply (submit_vote_unknown_id lower (Example.vote "ZZZ" "Red") Example.env "ghp"
           (record [("votingId", Some "ZZZ"); ("party", Some "Red")]) "ZZZ" "Red").
  - by repeat split.
  - by split.
  - reflexivity.
  - repeat constructor; vm_compute; discriminate.
Defined.

Lemma run_fetch_submit_vote toLowerCase request env token voteData votingId party w :
  submits request voteData votingId party →
  configured env token →
  run (fetch toLowerCase request env) w
  = respond (conclude vote_exhausted
      (run (retry (vote_attempt voteData votingId party token) 3 0) w)).
Proof.
  intros Hs Hc. pose proof Hs as (Hpost & _).
  rewrite (run_fetch_api _ _ _ token "submit-vote");
    [|by eapply posts_not_options|done|by destruct Hpost as (_ & ? & _)].
  by rewrite (run_api_submit_vote _ _ voteData votingId party).
Qed.

(** C5, as amended. A vote submission whose voting id is that of a
    credential and is an item of the used-voting-ids collection is answered
    200 with exactly [success: true] and the message 'This Voting ID has
    already been used to vote.' (the body has no [used] property); the worker
    sends two reads and no write, and the store, so also the votes
    collection, is left as it was. The same holds for every repetition, since
    nothing has changed. *)
Theorem submit_vote_already_used toLowerCase request env token voteData votingId party
    credential w :
  submits request voteData votingId party →
  configured env token →
  quiet 2 (script w) = true →
  find (has_id votingId) (items w VOTING_IDS_PATH) = Some credential →
  JStr votingId ∈ items w USED_VOTING_IDS_PATH →
  let r := run (fetch toLowerCase request env) w in
  outcome r = Returned {| r_status := 200;
                          r_body := reply true
                            "This Voting ID has already been used to vote." |}
  ∧ store (final r) = store w
  ∧ trace r = [EvHttp (GET VOTING_IDS_PATH token);
               EvHttp (GET USED_VOTING_IDS_PATH token)].
Proof.
  intros Hs Hc Hq Hfind Hused r. subst r.
  rewrite (run_fetch_submit_vote _ _ _ token voteData votingId party) by done.
  rewrite (run_retry_break _ _ _ _
             (reply true "This Voting ID has already been used to vote.", 200));
    rewrite (vote_attempt_used _ _ _ _ _ credential)
      by (by try apply array_includes_true); done.
Qed.

Lemma submit_vote_already_used_witness :
  let r := run (fetch lower (Example.vote "ABC123" "Red") Example.env) Example.used in
  outcome r = Returned {| r_status := 200;
                          r_body := reply true
                            "This Voting ID has already been used to vote." |}
  ∧ store (final r) = store Example.used
  ∧ trace r = [EvHttp (GET VOTING_IDS_PATH "ghp");
               EvHttp (GET USED_VOTING_IDS_PATH "ghp")].
Proof.
  apply (submit_vote_already_used lower (Example.vote "ABC123" "Red") Example.env
           "ghp" (record [("votingId", Some "ABC123"); ("party", Some "Red")])
           "ABC123" "Red" Example.steve).
  - by repeat split.
  - by split.
  - reflexivity.
  - reflexivity.
  - vm_compute. left.
Defined.

(** C5, as stated, fails. The answer to a submission with a used voting id
    has no [used] property; and when the used id is that of no credential the
    answer is the 401 rejection, not a success. *)
Lemma submit_vote_already_used_counterexample :
  JStr "ABC123" ∈ items Example.used USED_VOTING_IDS_PATH
  ∧ used_property
      (outcome (run (fetch lower (Example.vote "ABC123" "Red") Example.env)
                  Example.used)) ≠ Some (VBool true)
  ∧ let orphan := Example.world {[ USED_VOTING_IDS_PATH := Example.file [JStr "OLD1"] 2 ]} [] in
    JStr "OLD1" ∈ items orphan USED_VOTING_IDS_PATH
    ∧ success_property
        (outcome (run (fetch lower (Example.vote "OLD1" "Red") Example.env) orphan))
      = Some (VBool false).
Proof.
  split; [vm_compute; left|]. split; [by vm_compute|].
  split; [vm_compute; left|]. by vm_compute.
Qed.

(** The fields of the vote record. *)
Lemma finalVoteRecord_fields voteData votingId party credential timestamp :
  let vote := finalVoteRecord voteData votingId party credential timestamp in
  vote !! "votingId" = Some votingId
  ∧ vote !! "party" = Some party
  ∧ vote !! "minecraftName" = prop credential "playerName"
  ∧ vote !! "gameEdition" = prop credential "gameEdition"
  ∧ vote !! "realName" = Some (or_else (voteData !! "realName") "")
  ∧ vote !! "discordInsta" = Some (or_else (voteData !! "discordInsta") "")
  ∧ vote !! "timestamp" = Some timestamp.
Proof.
  unfold finalVoteRecord.
  destruct (prop credential "playerName"), (prop credential "gameEdition");
    simpl; repeat split; by simplify_map_eq.
Qed.

(** C6, as amended. A vote submission whose voting id is that of a
    credential and is not marked used, when the store answers each of its
    five requests and the two contents to be written, the votes with the new
    record and the used ids with the voting id, have no character above
    U+00FF, is answered 200 with [success: true] and 'Vote submitted
    successfully.'. The votes collection gains exactly one record, at its
    end: it carries the submitted voting id and party, the credential's
    [playerName] and [gameEdition] as [minecraftName] and [gameEdition], the
    contact fields (empty when not given) and the time of the server. The
    used-voting-ids collection gains exactly the voting id, and no other file
    changes. *)
Theorem submit_vote_accepted toLowerCase request env token voteData votingId party
    credential w :
  submits request voteData votingId party →
  configured env token →
  quiet 5 (script w) = true →
  find (has_id votingId) (items w VOTING_IDS_PATH) = Some credential →
  JStr votingId ∉ items w USED_VOTING_IDS_PATH →
  encodable (items w VOTES_PATH
             ++ [JObj (finalVoteRecord voteData votingId party credential
                         (toISOString w (clock w)))]) = true →
  encodable (items w USED_VOTING_IDS_PATH ++ [JStr votingId]) = true →
  let r := run (fetch toLowerCase request env) w in
  outcome r = Returned {| r_status := 200;
                          r_body := reply true "Vote submitted successfully." |}
  ∧ (∃ vote : Obj,
       items (final r) VOTES_PATH = (items w VOTES_PATH ++ [JObj vote])%list
       ∧ vote !! "votingId" = Some votingId
       ∧ vote !! "party" = Some party
       ∧ vote !! "minecraftName" = prop credential "playerName"
       ∧ vote !! "gameEdition" = prop credential "gameEdition"
       ∧ vote !! "realName" = Some (or_else (voteData !! "realName") "")
       ∧ vote !! "discordInsta" = Some (or_else (voteData !! "discordInsta") "")
       ∧ vote !! "timestamp" = Some (toISOString w (clock w)))
  ∧ items (final r) USED_VOTING_IDS_PATH
    = (items w USED_VOTING_IDS_PATH ++ [JStr votingId])%list
  ∧ ∀ filePath, filePath ≠ VOTES_PATH → filePath ≠ USED_VOTING_IDS_PATH →
      store (final r) !! filePath = store w !! filePath.
Proof.
  intros Hs Hc Hq Hfind Hused Hvote Hmark r. subst r.
  destruct paths_distinct as (Hvu & _).
  rewrite (run_fetch_submit_vote _ _ _ token voteData votingId party) by done.
  rewrite (run_retry_break _ _ _ _ (reply true "Vote submitted successfully.", 200));
    rewrite (vote_attempt_fresh _ _ _ _ _ credential)
      by (by try apply array_includes_false); [|done].
  simpl outcome; simpl final. split; [done|].
  unfold voted. split; [|split].
  - eexists. split; [|apply finalVoteRecord_fields].
    rewrite items_write_ne, items_write by done. done.
  - by rewrite items_write.
  - intros filePath H1 H2. simpl. by rewrite !lookup_insert_ne.
Qed.

Lemma submit_vote_accepted_witness :
  let r := run (fetch lower (Example.vote "ABC123" "Red") Example.env) Example.fresh in
  outcome r = Returned {| r_status := 200;
                          r_body := reply true "Vote submitted successfully." |}
  ∧ items (final r) USED_VOTING_IDS_PATH = [JStr "ABC123"].
Proof.
  destruct (submit_vote_accepted lower (Example.vote "ABC123" "Red") Example.env
              "ghp" (record [("votingId", Some "ABC123"); ("party", Some "Red")])
              "ABC123" "Red" Example.steve Example.fresh) as (H1 & _ & H2 & _).
  - by repeat split.
  - by split.
  - reflexivity.
  - reflexivity.
  - vm_compute. inversion 1.
  - reflexivity.
  - reflexivity.
  - split; [exact H1 | exact H2].
Defined.

(** C6, as stated, fails. With a valid, unused voting id the answer need not
    be the success, and the success need not come with one record. When the
    write of the mark meets a version conflict once, the second attempt
    writes the vote again: the answer is the success and the votes hold two
    records of the id. When the party has a character above U+00FF, [btoa]
    throws before the votes are written: the answer is 500 and no record is
    appended. *)
Lemma submit_vote_accepted_counterexample :
  (let w := Contention.mark_lost_once in
   let r := run (fetch lower (Example.vote "ABC123" "Red") Example.env) w in
   find (has_id "ABC123") (items w VOTING_IDS_PATH) = Some Example.steve
   ∧ items w USED_VOTING_IDS_PATH = []
   ∧ items w VOTES_PATH = []
   ∧ outcome r = Returned {| r_status := 200;
                             r_body := reply true "Vote submitted successfully." |}
   ∧ length (votes_for "ABC123" (final r)) = 2%nat)
  ∧ (let w := Example.fresh in
     let r := run (fetch lower (Example.vote "ABC123" Unicode.party) Example.env) w in
     find (has_id "ABC123") (items w VOTING_IDS_PATH) = Some Example.steve
     ∧ items w USED_VOTING_IDS_PATH = []
     ∧ quiet 5 (script w) = true
     ∧ outcome r = Returned {| r_status := 500;
                               r_body := reply false
                                 ("Internal Server Error: "
                                  +:+ InvalidCharacterError_btoa) |}
     ∧ items (final r) VOTES_PATH = []
     ∧ items (final r) USED_VOTING_IDS_PATH = []).
Proof. by vm_compute. Qed.

(** ** The retry loop *)

(** An iteration whose [try] throws an error that the [catch] rethrows. *)
Lemma run_retry_abort {R : Type} (attempt : Prog (option R)) n i w e :
  outcome (run attempt w) = Thrown e →
  includes e "sha mismatch" = false →
  run (retry attempt (S n) i) w
  = {| outcome := Thrown e;
       final := final (run attempt w); trace := trace (run attempt w) |}.
Proof.
  intros H Hinc. rewrite run_retry. unfold or_catch. rewrite H, Hinc.
  unfold and_then, after; simpl. by rewrite List.app_nil_r.
Qed.

(** An iteration whose [try] throws an error that the [catch] keeps: the
    wait, then the rest of the loop. *)
Lemma run_retry_again {R : Type} (attempt : Prog (option R)) n i w e :
  outcome (run attempt w) = Thrown e →
  includes e "sha mismatch" = true →
  run (retry attempt (S n) i) w
  = after (trace (run attempt w) ++ [EvSleep (100 * (i + 1))])
      (run (retry attempt n (i + 1))
         (advance (100 * (i + 1)) (final (run attempt w)))).
Proof.
  intros H Hinc. rewrite run_retry. unfold or_catch. rewrite H, Hinc.
  unfold and_then, after; simpl. by rewrite ?List.app_nil_r.
Qed.

(** A write whose reply is scripted and makes [updateGitHubFile] throw. *)
Lemma run_updateGitHubFile_fails {B : Type} w filePath content sha token message
    (f : bool → Prog B) res rest e :
  encodable content = true →
  script w = Some res :: rest →
  updated res = Throw e →
  run (updateGitHubFile filePath content sha token message ≫= f) w
  = {| outcome := Thrown e; final := pop_script w;
       trace := [EvHttp (PUT filePath content (if truthy sha then sha else None)
                           token message)] |}.
Proof.
  intros Henc Hs He. rewrite updateGitHubFile_sends by done.
  change (Http ?rq updated ≫= f) with (Http rq (λ r, bind (updated r) f)).
  simpl run. unfold http. rewrite Hs. simpl fst; simpl snd. rewrite He. done.
Qed.

(** The attempt whose second write fails: the vote is written, the mark is
    not. *)
Lemma vote_attempt_second_write_fails voteData votingId party token w credential
    res rest e :
  script w = None :: None :: None :: None :: Some res :: rest →
  find (has_id votingId) (items w VOTING_IDS_PATH) = Some credential →
  array_includes (items w USED_VOTING_IDS_PATH) votingId = false →
  updated res = Throw e →
  encodable (items w VOTES_PATH
             ++ [JObj (finalVoteRecord voteData votingId party credential
                         (toISOString w (clock w)))]) = true →
  encodable (items w USED_VOTING_IDS_PATH ++ [JStr votingId]) = true →
  run (vote_attempt voteData votingId party token) w
  = {| outcome := Thrown e;
       final := write VOTES_PATH
                  (items w VOTES_PATH
                   ++ [JObj (finalVoteRecord voteData votingId party credential
                               (toISOString w (clock w)))])
                  (Nat.iter 5 pop_script w);
       trace := vote_requests voteData votingId party token credential w |}.
Proof.
  intros Hs Hfind Hused He Hvote Hmark. unfold vote_attempt.
  assert (Hq : quiet 4 (script w) = true) by (by rewrite Hs).
  host_reads Hq. rewrite fd_content_read, Hfind.
  host_reads Hq. rewrite fd_content_read.
  change (items (pop_script w) USED_VOTING_IDS_PATH)
    with (items w USED_VOTING_IDS_PATH).
  rewrite Hused.
  host_reads Hq. rewrite run_Now. cbv beta zeta.
  set (w3 := pop_script (pop_script (pop_script w))).
  change (read (pop_script (pop_script w)) VOTES_PATH) with (read w3 VOTES_PATH).
  rewrite run_updateGitHubFile;
    [|rewrite fd_content_read; exact Hvote|subst w3; from_quiet Hq].
  simpl negb. cbv iota.
  rewrite (run_updateGitHubFile_fails _ _ _ _ _ _ _ res rest e)
    by (done || (subst w3; simpl; by rewrite Hs)).
  unfold after; simpl. rewrite truthy_sha, fd_content_read. done.
Qed.

(** C2, as amended. When the write of the vote succeeds and the write of
    the mark is then sent and fails with an error whose message does not
    include 'sha mismatch', which is what the worker takes for an error not
    to retry, the answer is 500 with [success: false] and the error's
    message; the vote record is in the votes collection, the used-voting-ids
    file is as it was, so the voting id is not marked, and the worker sends
    nothing after the failed write. Both writes are sent when their contents
    have no character above U+00FF. *)
Theorem submit_vote_mark_fails toLowerCase request env token voteData votingId party
    credential w res rest e :
  submits request voteData votingId party →
  configured env token →
  script w = None :: None :: None :: None :: Some res :: rest →
  find (has_id votingId) (items w VOTING_IDS_PATH) = Some credential →
  JStr votingId ∉ items w USED_VOTING_IDS_PATH →
  updated res = Throw e →
  includes e "sha mismatch" = false →
  encodable (items w VOTES_PATH
             ++ [JObj (finalVoteRecord voteData votingId party credential
                         (toISOString w (clock w)))]) = true →
  encodable (items w USED_VOTING_IDS_PATH ++ [JStr votingId]) = true →
  let r := run (fetch toLowerCase request env) w in
  let vote := finalVoteRecord voteData votingId party credential
                (toISOString w (clock w)) in
  outcome r = Returned {| r_status := 500;
                          r_body := reply false ("Internal Server Error: "
                                      +:+ or_else (Some e) "Unknown error") |}
  ∧ items (final r) VOTES_PATH = (items w VOTES_PATH ++ [JObj vote])%list
  ∧ vote !! "votingId" = Some votingId
  ∧ store (final r) !! USED_VOTING_IDS_PATH = store w !! USED_VOTING_IDS_PATH
  ∧ (JStr votingId ∉ items (final r) USED_VOTING_IDS_PATH)
  ∧ trace r = vote_requests voteData votingId party token credential w.
Proof.
  intros Hs Hc Hscript Hfind Hused He Hinc Hvote Hmark r vote. subst r.
  destruct paths_distinct as (Hvu & _).
  rewrite (run_fetch_submit_vote _ _ _ token voteData votingId party) by done.
  rewrite (run_retry_abort _ _ _ _ e); [| |done];
    rewrite (vote_attempt_second_write_fails _ _ _ _ _ credential res rest e)
      by (by try apply array_includes_false); [|done].
  simpl outcome; simpl final.
  split; [done|]. split; [by rewrite items_write|].
  split; [apply finalVoteRecord_fields|].
  split; [simpl; by rewrite lookup_insert_ne|]. split; [|done].
  rewrite items_write_ne by done. exact Hused.
Qed.

Lemma submit_vote_mark_fails_witness :
  let r := run (fetch lower (Example.vote "ABC123" "Red") Example.env)
             Failure.mark_lost in
  outcome r
  = Returned {| r_status := 500;
                r_body := reply false ("Internal Server Error: " +:+ Failure.refused) |}
  ∧ length (items (final r) VOTES_PATH) = 1%nat
  ∧ (JStr "ABC123" ∉ items (final r) USED_VOTING_IDS_PATH).
Proof.
  destruct (submit_vote_mark_fails lower (Example.vote "ABC123" "Red") Example.env
              "ghp" (record [("votingId", Some "ABC123"); ("party", Some "Red")])
              "ABC123" "Red" Example.steve Failure.mark_lost Failure.server_error []
              Failure.refused)
    as (H1 & H2 & _ & _ & H3 & _).
  - by repeat split.
  - by split.
  - reflexivity.
  - reflexivity.
  - vm_compute. inversion 1.
  - reflexivity.
  - reflexivity.
  - reflexivity.
  - reflexivity.
  - split; [exact H1|]. split; [by rewrite H2|exact H3].
Defined.

(** C2, as stated, fails. The write of the vote succeeds and the write of
    the mark is refused with a 500, which is no version conflict, but the
    message of the refusal contains 'sha mismatch': the worker takes it for
    a conflict, waits and runs a second attempt, which writes the vote again
    and marks the id. The answer is the success, not a 500, the id is marked,
    and the votes hold two records of it. *)
Lemma submit_vote_mark_fails_counterexample :
  let r := run (fetch lower (Example.vote "ABC123" "Red") Example.env)
             Failure.mark_misled in
  status <$> (match Failure.misleading with
              | Resolves response => Some response
              | Rejects _ => None
              end) = Some 500
  ∧ version_conflict Failure.misleading = false
  ∧ (∃ e, updated Failure.misleading = Throw e)
  ∧ outcome r = Returned {| r_status := 200;
                            r_body := reply true "Vote submitted successfully." |}
  ∧ length (votes_for "ABC123" (final r)) = 2%nat
  ∧ items (final r) USED_VOTING_IDS_PATH = [JStr "ABC123"].
Proof. vm_compute. repeat split. by eexists. Qed.

(** ** A collection that was never written *)

Lemma fetched_404 filePath response :
  status response = 404 →
  fetched filePath (Resolves response) = Ret {| fd_content := []; fd_sha := None |}.
Proof. intros H. unfold fetched. by rewrite H. Qed.

Lemma run_fetchGitHubFile_host w filePath token :
  quiet 1 (script w) = true →
  run (fetchGitHubFile filePath token) w
  = {| outcome := Returned (read w filePath); final := pop_script w;
       trace := [EvHttp (GET filePath token)] |}.
Proof.
  intros Hq. destruct (host_get (pop_script w) filePath token) as [Hf Hw].
  unfold fetchGitHubFile. simpl run. rewrite (http_host _ _ Hq), Hf, Hw. done.
Qed.

Lemma run_updateGitHubFile_host w filePath content token message :
  encodable content = true →
  quiet 1 (script w) = true →
  run (updateGitHubFile filePath content (fd_sha (read w filePath)) token message) w
  = {| outcome := Returned true; final := write filePath content (pop_script w);
       trace := [EvHttp (PUT filePath content (fd_sha (read w filePath))
                           token message)] |}.
Proof.
  intros Henc Hq.
  pose proof (host_put (pop_script w) filePath content token message) as Hp.
  change (read (pop_script w) filePath) with (read w filePath) in Hp.
  rewrite updateGitHubFile_sends by done. rewrite truthy_sha.
  simpl run. rewrite (http_host _ _ Hq), Hp. simpl fst; simpl snd.
  rewrite updated_written; [done|]. destruct (decide _); auto.
Qed.

(** C8. Reading a file that the store does not have is not an error: every
    reply with status 404 makes [fetchGitHubFile] yield no items and the
    [null] sha, and so does the read of a file that was never written. What
    follows treats the collection as empty: the list a write appends to is
    the empty one, and the write of an item without a character above
    U+00FF, which is the write that is sent, carries no sha and creates the
    file with the appended item alone. *)
Theorem never_written_reads_empty filePath token w :
  store w !! filePath = None →
  quiet 1 (script w) = true →
  let r := run (fetchGitHubFile filePath token) w in
  (∀ response, status response = 404 →
     fetched filePath (Resolves response)
     = Ret {| fd_content := []; fd_sha := None |})
  ∧ outcome r = Returned {| fd_content := []; fd_sha := None |}
  ∧ store (final r) = store w
  ∧ ∀ file item message,
      outcome r = Returned file →
      quiet 1 (script (final r)) = true →
      encodable [item] = true →
      let r' := run (updateGitHubFile filePath (fd_content file ++ [item])
                       (fd_sha file) token message) (final r) in
      outcome r' = Returned true
      ∧ trace r' = [EvHttp (PUT filePath [item] None token message)]
      ∧ items (final r') filePath = [item].
Proof.
  intros Hnone Hq r. subst r. rewrite run_fetchGitHubFile_host by done.
  assert (Hread : read w filePath = {| fd_content := []; fd_sha := None |})
    by (unfold read; by rewrite Hnone).
  cbn [outcome final]. rewrite Hread.
  split; [intros; by apply fetched_404|]. split; [done|]. split; [done|].
  intros file item message [= <-] Hq' Henc. cbv zeta. rewrite <- Hread.
  change (read w filePath) with (read (pop_script w) filePath).
  rewrite run_updateGitHubFile_host;
    [|change (read (pop_script w) filePath) with (read w filePath);
      by rewrite Hread|done].
  change (read (pop_script w) filePath) with (read w filePath). rewrite Hread.
  cbn [outcome final trace].
  split; [done|]. split; [done|]. by rewrite items_write.
Qed.

Lemma never_written_reads_empty_witness :
  outcome (run (fetchGitHubFile VOTES_PATH "ghp") Example.fresh)
  = Returned {| fd_content := []; fd_sha := None |}.
Proof.
  apply (never_written_reads_empty VOTES_PATH "ghp" Example.fresh); reflexivity.
Defined.

(** ** Programs that only read *)

Lemma requests_bind {A B : Type} P (p : Prog A) (f : A → Prog B) :
  requests P p → (∀ a, requests P (f a)) → requests P (p ≫= f).
Proof.
  intros Hp Hf. change (p ≫= f) with (bind p f).
  induction Hp; simpl; try (constructor; auto). apply Hf.
Qed.

Lemma requests_try_catch {A : Type} P (p : Prog A) handler :
  requests P p → (∀ e, requests P (handler e)) → requests P (try_catch p handler).
Proof.
  intros Hp Hh. induction Hp; simpl; try (constructor; auto). apply Hh.
Qed.

Lemma requests_fetched P filePath res : requests P (fetched filePath res).
Proof.
  unfold fetched. destruct res as [msg|response]; [constructor|].
  destruct (Z.eqb _ _); [constructor|]. destruct (negb _); [constructor|].
  destruct (json response) as [msg|data]; [constructor|].
  destruct (j_content data); constructor.
Qed.

Lemma requests_fetchGitHubFile P filePath token :
  P (GET filePath token) → requests P (fetchGitHubFile filePath token).
Proof. intros H. constructor; [done|]. intros r. apply requests_fetched. Qed.

Lemma requests_updated P res : requests P (updated res).
Proof.
  unfold updated. destruct res as [msg|response]; [constructor|].
  destruct (negb _); [|constructor].
  destruct (json response) as [msg|data]; [constructor|].
  destruct (Z.eqb _ _); [|constructor].
  destruct (j_message data); [|constructor]. destruct (includes _ _); constructor.
Qed.

Lemma requests_updateGitHubFile P filePath content sha token message :
  P (PUT filePath content (if truthy sha then sha else None) token message) →
  requests P (updateGitHubFile filePath content sha token message).
Proof.
  intros H. unfold updateGitHubFile. destruct (negb _); [constructor|].
  constructor; [done|]. intros r. apply requests_updated.
Qed.

Lemma requests_run {A : Type} P (p : Prog A) w :
  requests P p → all_requests P (trace (run p w)).
Proof.
  intros Hp. revert w. unfold all_requests.
  induction Hp as [| |rq k HP _ IH|ms k _ IH|k _ IH]; intros w; simpl; auto.
Qed.

Lemma store_http_read w filePath token :
  store (http w (GET filePath token)).2 = store w.
Proof. unfold http. by destruct (script w) as [|[r|] rest]. Qed.

Lemma reads_keep_store {A : Type} (p : Prog A) w :
  requests is_read p → store (final (run p w)) = store w.
Proof.
  intros Hp. revert w.
  induction Hp as [| |rq k HP _ IH|ms k _ IH|k _ IH]; intros w; simpl; auto.
  - rewrite IH. destruct rq; [apply store_http_read|done].
  - by rewrite IH.
Qed.

Lemma reads_never_put (t : list Event) :
  all_requests is_read t → Forall (λ e, is_put e = false) t.
Proof.
  intros H. eapply Forall_impl; [exact H|]. intros [[]|]; simpl; done.
Qed.

Lemma check_voting_id_reads votingId token accepted overwrite :
  requests is_read (check_voting_id votingId token accepted overwrite).
Proof.
  unfold check_voting_id. destruct (negb _); [constructor|].
  apply requests_bind; [by apply requests_fetchGitHubFile|]. intros validIds.
  apply requests_bind; [by apply requests_fetchGitHubFile|]. intros used.
  cbv zeta. destruct (find _ _); constructor.
Qed.

(** The endpoint 'check-voting-id' sends reads only. *)
Lemma api_check_voting_id_reads toLowerCase request token :
  requests is_read (api toLowerCase "check-voting-id" request token).
Proof.
  unfold api. simpl String.eqb. cbv iota.
  destruct (String.eqb (method request) "POST").
  - apply requests_bind; [|intros; apply check_voting_id_reads].
    unfold request_json. destruct (body request); constructor.
  - destruct (String.eqb (method request) "GET");
      [apply check_voting_id_reads|constructor].
Qed.

(** C10. Whatever the method, the input and the outcome, a request to
    'check-voting-id' sends no write to the document host and leaves every
    stored file as it was. *)
Theorem check_voting_id_read_only toLowerCase request env w :
  pathname request = "/api/check-voting-id" →
  let r := run (fetch toLowerCase request env) w in
  store (final r) = store w ∧ Forall (λ e, is_put e = false) (trace r).
Proof.
  intros Hpath r. subst r.
  assert (Hreads : requests is_read (fetch toLowerCase request env)).
  { unfold fetch. destruct (String.eqb _ "OPTIONS"); [constructor|].
    destruct (negb _); [constructor|]. rewrite Hpath. cbv zeta.
    change "/api/check-voting-id" with ("/api/" +:+ "check-voting-id").
    rewrite startsWith_api.
    change (substring_from 5 ("/api/" +:+ "check-voting-id")) with "check-voting-id".
    apply requests_bind.
    - apply requests_try_catch; [apply api_check_voting_id_reads|constructor].
    - intros [b s]. constructor. }
  split; [by apply reads_keep_store|].
  by apply reads_never_put, requests_run.
Qed.

Lemma check_voting_id_read_only_witness :
  let request := {| method := "GET"; pathname := "/api/check-voting-id";
                    searchParams := {[ "votingId" := "ABC123" ]};
                    body := inl "Unexpected end of JSON input" |} in
  let r := run (fetch lower request Example.env) Example.used in
  store (final r) = store Example.used ∧ Forall (λ e, is_put e = false) (trace r).
Proof.
  intros request.
  exact (check_voting_id_read_only lower request Example.env Example.used eq_refl).
Defined.

(** ** Candidate registration *)

Section Registration.

Variable toLowerCase : string → string.

Lemma some_same_party_true (candidates : list Json) existing existingName partyName :
  Forall (λ c, is_Some (prop c "partyName")) candidates →
  existing ∈ candidates →
  prop existing "partyName" = Some existingName →
  toLowerCase existingName = toLowerCase partyName →
  some_same_party toLowerCase candidates (Some partyName) = inr true.
Proof.
  intros Hall Hin Hname Hsame.
  induction Hall as [|c rest [p Hp] _ IH]; [by apply elem_of_nil in Hin|].
  simpl. rewrite Hp.
  destruct (String.eqb_spec (toLowerCase p) (toLowerCase partyName)); [done|].
  apply elem_of_cons in Hin as [->|Hin]; [|by apply IH].
  rewrite Hname in Hp. by simplify_eq.
Qed.

Lemma some_same_party_false (candidates : list Json) partyName :
  some_same_party toLowerCase candidates (Some partyName) = inr false →
  Forall (λ c, ∀ name, prop c "partyName" = Some name →
               toLowerCase name ≠ toLowerCase partyName) candidates.
Proof.
  induction candidates as [|c rest IH]; [constructor|]. simpl.
  destruct (prop c "partyName") as [p|] eqn:Hp; [|done].
  destruct (String.eqb_spec (toLowerCase p) (toLowerCase partyName)); [done|].
  intros H. constructor; [|by apply IH]. intros name Hname. by simplify_eq.
Qed.

Lemma register_attempt_duplicate newCandidate partyName token w existing existingName :
  newCandidate !! "partyName" = Some partyName →
  quiet 1 (script w) = true →
  Forall (λ c, is_Some (prop c "partyName")) (items w CANDIDATES_PATH) →
  existing ∈ items w CANDIDATES_PATH →
  prop existing "partyName" = Some existingName →
  toLowerCase existingName = toLowerCase partyName →
  run (register_attempt toLowerCase newCandidate token) w
  = {| outcome := Returned (Some (reply false
                    "A party with this name already exists.", 409));
       final := pop_script w;
       trace := [EvHttp (GET CANDIDATES_PATH token)] |}.
Proof.
  intros Hp Hq Hall Hin Hname Hsame. unfold register_attempt.
  host_reads Hq. rewrite fd_content_read, Hp.
  by rewrite (some_same_party_true _ existing existingName).
Qed.

Lemma register_attempt_admits newCandidate partyName token :
  newCandidate !! "partyName" = Some partyName →
  requests (admits toLowerCase newCandidate partyName)
    (register_attempt toLowerCase newCandidate token).
Proof.
  intros Hp. unfold register_attempt.
  apply requests_bind; [by apply requests_fetchGitHubFile|]. intros file.
  cbv zeta. rewrite Hp.
  destruct (some_same_party _ _ _) as [e|[|]] eqn:Hsome; try constructor.
  apply requests_bind; [|intros [|]; constructor].
  apply requests_updateGitHubFile.
  split; [done|]. eexists. split; [done|]. by apply some_same_party_false.
Qed.

End Registration.

Lemma requests_retry {R : Type} P (attempt : Prog (option R)) n i :
  requests P attempt → requests P (retry attempt n i).
Proof.
  intros Ha. revert i. induction n as [|n IH]; intros i; simpl; [constructor|].
  apply requests_bind.
  - apply requests_try_catch; [done|]. intros e.
    destruct (negb _); repeat constructor.
  - intros [r|]; [constructor|apply IH].
Qed.

Lemma run_fetch_register toLowerCase request env token newCandidate partyName w :
  registers request newCandidate partyName →
  configured env token →
  run (fetch toLowerCase request env) w
  = respond (conclude registration_exhausted
      (run (retry (register_attempt toLowerCase newCandidate token) 3 0) w)).
Proof.
  intros Hr Hc. pose proof Hr as (Hpost & _).
  rewrite (run_fetch_api _ _ _ token "register-candidate");
    [|by eapply posts_not_options|done|by destruct Hpost as (_ & ? & _)].
  by rewrite (run_api_register_candidate _ _ newCandidate partyName).
Qed.

Lemma run_fetch_serves toLowerCase request env token attempt exhausted w :
  serves toLowerCase token request attempt exhausted →
  configured env token →
  run (fetch toLowerCase request env) w
  = respond (conclude exhausted (run (retry attempt MAX_RETRIES 0) w)).
Proof.
  intros [newCandidate partyName Hr|voteData votingId party Hs] Hc.
  - by eapply run_fetch_register.
  - by eapply run_fetch_submit_vote.
Qed.

(** C7. A registration whose party name equals, up to letter case, that of
    a candidate of the candidates collection is answered 409 with
    [success: false] and 'A party with this name already exists.'; the worker
    sends the one read, no write and no second attempt, and the store is left
    as it was. And in every world, whatever the replies, a write that a
    registration sends appends the new candidate to a list in which no party
    has its name up to letter case. *)
Theorem register_duplicate_party toLowerCase request env token newCandidate partyName
    existing existingName w :
  registers request newCandidate partyName →
  configured env token →
  quiet 1 (script w) = true →
  Forall (λ c, is_Some (prop c "partyName")) (items w CANDIDATES_PATH) →
  existing ∈ items w CANDIDATES_PATH →
  prop existing "partyName" = Some existingName →
  toLowerCase existingName = toLowerCase partyName →
  let r := run (fetch toLowerCase request env) w in
  outcome r = Returned {| r_status := 409;
                          r_body := reply false
                            "A party with this name already exists." |}
  ∧ store (final r) = store w
  ∧ trace r = [EvHttp (GET CANDIDATES_PATH token)]
  ∧ ∀ w', all_requests (admits toLowerCase newCandidate partyName)
            (trace (run (fetch toLowerCase request env) w')).
Proof.
  intros Hr Hc Hq Hall Hin Hname Hsame r. subst r.
  pose proof Hr as (_ & Hp & _).
  split; [|split; [|split]];
    try (rewrite (run_fetch_register _ _ _ token newCandidate partyName) by done;
         rewrite (run_retry_break _ _ _ _
                    (reply false "A party with this name already exists.", 409));
         rewrite (register_attempt_duplicate _ _ partyName _ _ existing existingName)
           by done; done).
  intros w'.
  rewrite (run_fetch_register _ _ _ token newCandidate partyName) by done.
  unfold respond, conclude. cbn [trace].
  by apply requests_run, requests_retry, register_attempt_admits.
Qed.

Lemma register_duplicate_party_witness :
  let r := run (fetch lower (Example.registration "RED") Example.env)
             Example.with_party in
  outcome r = Returned {| r_status := 409;
                          r_body := reply false
                            "A party with this name already exists." |}
  ∧ store (final r) = store Example.with_party
  ∧ trace r = [EvHttp (GET CANDIDATES_PATH "ghp")].
Proof.
  destruct (register_duplicate_party lower (Example.registration "RED") Example.env
              "ghp"
              (record [("partyName", Some "RED"); ("candidateName", Some "Rui");
                       ("password", Some "secret")])
              "RED" Example.red_party "Red" Example.with_party)
    as (H1 & H2 & H3 & _).
  - by repeat split.
  - by split.
  - reflexivity.
  - vm_compute. repeat constructor. by eexists.
  - vm_compute. left.
  - reflexivity.
  - reflexivity.
  - by repeat split.
Defined.

(** ** Which failures are retried *)

Lemma trace_run_Http {A : Type} rq (k : FetchResult → Prog A) w :
  trace (run (Http rq k) w) = EvHttp rq :: trace (run (k (http w rq).1) (http w rq).2).
Proof. done. Qed.

Lemma serves_reads_first toLowerCase token request attempt exhausted :
  serves toLowerCase token request attempt exhausted →
  ∃ filePath, ∀ w, ∃ t, trace (run attempt w) = EvHttp (GET filePath token) :: t.
Proof.
  intros [newCandidate partyName _|voteData votingId party _].
  - exists CANDIDATES_PATH. intros w. unfold register_attempt.
    change (fetchGitHubFile ?p ?t ≫= ?f) with (Http (GET p t) (λ r, bind (fetched p r) f)).
    rewrite trace_run_Http. eauto.
  - exists VOTING_IDS_PATH. intros w. unfold vote_attempt.
    change (fetchGitHubFile ?p ?t ≫= ?f) with (Http (GET p t) (λ r, bind (fetched p r) f)).
    rewrite trace_run_Http. eauto.
Qed.

Lemma version_conflict_thrown res :
  version_conflict res = true → updated res = Throw sha_mismatch_error.
Proof.
  unfold version_conflict, updated. destruct res as [msg|response]; [done|].
  destruct (negb (ok response)); [|done]. simpl.
  destruct (Z.eqb (status response) 409); [|done]. simpl.
  destruct (json response) as [msg|data]; [done|].
  destruct (j_message data) as [m|]; [|done]. by intros ->.
Qed.

(** C4, as amended. In both retried requests the [catch] looks at the
    message of the error only. A version conflict on a write throws an error
    whose message includes 'sha mismatch'. When an attempt throws an error
    with such a message the worker waits 100 ms times the attempt number
    ([i + 1]) and goes on with the rest of the loop, whose every attempt
    begins with a read of a collection; when the message does not include
    'sha mismatch' the loop ends at once with that error, and a request whose
    first attempt fails so is answered the 500 that carries the message,
    having sent nothing after the failure. *)
Theorem retry_by_message toLowerCase request env token attempt exhausted n i w e :
  serves toLowerCase token request attempt exhausted →
  configured env token →
  outcome (run attempt w) = Thrown e →
  let x := run attempt w in
  (∀ res, version_conflict res = true →
     updated res = Throw sha_mismatch_error
     ∧ includes sha_mismatch_error "sha mismatch" = true)
  ∧ run (retry attempt (S n) i) w
    = (if includes e "sha mismatch"
       then after (trace x ++ [EvSleep (100 * (i + 1))])
              (run (retry attempt n (i + 1)) (advance (100 * (i + 1)) (final x)))
       else {| outcome := Thrown e; final := final x; trace := trace x |})
  ∧ (∃ filePath, ∀ w', ∃ t,
       trace (run attempt w') = EvHttp (GET filePath token) :: t)
  ∧ (includes e "sha mismatch" = false →
     let r := run (fetch toLowerCase request env) w in
     outcome r = Returned {| r_status := 500;
                             r_body := reply false ("Internal Server Error: "
                                         +:+ or_else (Some e) "Unknown error") |}
     ∧ trace r = trace x
     ∧ final r = final x).
Proof.
  intros Hserves Hc He x. subst x.
  split; [intros res Hres; split; [by apply version_conflict_thrown|done]|].
  split; [|split].
  - destruct (includes e "sha mismatch") eqn:Hinc.
    + by apply (run_retry_again _ _ _ _ e).
    + by apply (run_retry_abort _ _ _ _ e).
  - by eapply serves_reads_first.
  - intros Hinc r. subst r.
    rewrite (run_fetch_serves _ _ _ token attempt exhausted) by done.
    unfold MAX_RETRIES. rewrite (run_retry_abort _ _ _ _ e) by done. done.
Qed.

Lemma retry_by_message_witness :
  let newCandidate := record [("partyName", Some "Blue"); ("candidateName", Some "Rui");
                              ("password", Some "secret")] in
  run (retry (register_attempt lower newCandidate "ghp") 3 0) Unavailable.once
  = after [EvHttp (GET CANDIDATES_PATH "ghp"); EvSleep 100]
      (run (retry (register_attempt lower newCandidate "ghp") 2 1)
           (advance 100 (pop_script Unavailable.once))).
Proof.
  intros newCandidate.
  destruct (retry_by_message lower (Example.registration "Blue") Example.env "ghp"
              _ registration_exhausted 2 0 Unavailable.once
              "Failed to fetch file from GitHub: Service Unavailable - sha mismatch"
              (serves_registration lower "ghp" (Example.registration "Blue")
                 newCandidate "Blue" ltac:(by repeat split)))
    as (_ & H & _).
  - by split.
  - reflexivity.
  - exact H.
Defined.

(** C4, as stated, fails. The first read of a registration is answered 503,
    which is no version conflict; the error that [fetchGitHubFile] throws
    carries the text of the reply, which contains 'sha mismatch', and the
    worker does not abort: it waits 100 ms, reads again and registers the
    candidate. *)
Lemma retry_by_message_counterexample :
  let r := run (fetch lower (Example.registration "Blue") Example.env)
             Unavailable.once in
  version_conflict Unavailable.busy = false
  ∧ outcome (run (fetchGitHubFile CANDIDATES_PATH "ghp") Unavailable.once)
    = Thrown "Failed to fetch file from GitHub: Service Unavailable - sha mismatch"
  ∧ outcome r = Returned {| r_status := 200;
                            r_body := reply true "Candidate registered successfully." |}
  ∧ (EvHttp <$> [GET CANDIDATES_PATH "ghp"], [EvSleep 100],
     EvHttp <$> [GET CANDIDATES_PATH "ghp"])
    = (take 1 (trace r), take 1 (drop 1 (trace r)), take 1 (drop 2 (trace r)))
  ∧ length (items (final r) CANDIDATES_PATH) = 2%nat.
Proof. by vm_compute. Qed.

(** ** Races between requests *)

(** C1 at its failing inputs. Two submissions of the same voting id
    interleave over the compare-and-swap store: both run to their end, the
    first is told that its vote is submitted and the second that the id has
    been used, the id is marked once, and the votes collection, empty at the
    start, holds two records for it. The same happens to a single submission
    that loses the write of the mark to another voter and is retried. *)
Theorem same_id_twice_two_votes :
  items Race.start VOTES_PATH = []
  ∧ (let '(pool, w) := interleave Race.twice_schedule Race.twice Race.start in
     pool = [Ret {| r_status := 200;
                    r_body := reply true "Vote submitted successfully." |};
             Ret {| r_status := 200;
                    r_body := reply true
                      "This Voting ID has already been used to vote." |}]
     ∧ length (votes_for "ABC123" w) = 2%nat
     ∧ marks_of "ABC123" w = [JStr "ABC123"])
  ∧ (let '(pool, w) := interleave Race.pair_schedule Race.pair Race.start in
     pool = [Ret {| r_status := 200;
                    r_body := reply true "Vote submitted successfully." |};
             Ret {| r_status := 200;
                    r_body := reply true "Vote submitted successfully." |}]
     ∧ length (votes_for "ABC123" w) = 2%nat
     ∧ length (votes_for "XYZ789" w) = 1%nat
     ∧ marks_of "ABC123" w = [JStr "ABC123"]).
Proof. by vm_compute. Qed.


(** ** Used-up retries *)

Lemma fetched_pure filePath res :
  (∃ file, fetched filePath res = Ret file) ∨ (∃ e, fetched filePath res = Throw e).
Proof.
  unfold fetched. destruct res as [msg|response]; [eauto|].
  destruct (Z.eqb _ _); [eauto|]. destruct (negb _); [eauto|].
  destruct (json response) as [msg|data]; [eauto|]. destruct (j_content data); eauto.
Qed.

Lemma updated_pure res : updated res = Ret true ∨ (∃ e, updated res = Throw e).
Proof.
  unfold updated. destruct res as [msg|response]; [eauto|].
  destruct (negb _); [|eauto].
  destruct (json response) as [msg|data]; [eauto|].
  destruct (Z.eqb _ _); [|eauto].
  destruct (j_message data); [|eauto]. destruct (includes _ _); eauto.
Qed.

Lemma store_fetchGitHubFile filePath token w :
  store (final (run (fetchGitHubFile filePath token) w)) = store w.
Proof.
  unfold fetchGitHubFile. simpl.
  destruct (fetched_pure filePath (http w (GET filePath token)).1) as [[f ->]|[e ->]];
    simpl; apply store_http_read.
Qed.

(** A write that makes [updateGitHubFile] throw has changed nothing. *)
Lemma store_http_thrown w rq e :
  updated (http w rq).1 = Throw e → store (http w rq).2 = store w.
Proof.
  unfold http. destruct (script w) as [|[r|] rest]; simpl; try done;
    (destruct rq as [p t|p c s t m]; simpl; [done|]);
    (destruct (decide _); [|done]); simpl;
    destruct (decide _); done.
Qed.

(** A write changes the file it names only. *)
Lemma store_http_other w rq filePath :
  match rq with
  | GET _ _ => True
  | PUT p _ _ _ _ => p ≠ filePath
  end →
  store (http w rq).2 !! filePath = store w !! filePath.
Proof.
  unfold http. destruct (script w) as [|[r|] rest]; simpl; try done;
    (destruct rq as [p t|p c s t m]; simpl; [done|]); intros Hne;
    (destruct (decide _); [|done]); simpl; by rewrite lookup_insert_ne.
Qed.

Lemma run_updateGitHubFile_any filePath content sha token message w :
  let x := run (updateGitHubFile filePath content sha token message) w in
  (outcome x = Returned true ∨ ∃ e, outcome x = Thrown e ∧ store (final x) = store w)
  ∧ ∀ other, filePath ≠ other → store (final x) !! other = store w !! other.
Proof.
  unfold updateGitHubFile. destruct (negb _); [simpl; by eauto|]. simpl.
  set (rq := PUT filePath content _ token message). split.
  - destruct (updated_pure (http w rq).1) as [H|[e H]]; rewrite H; simpl; [by left|].
    right. exists e. split; [done|]. by eapply store_http_thrown.
  - intros other Hne.
    destruct (updated_pure (http w rq).1) as [H|[e H]]; rewrite H; simpl;
      by apply store_http_other.
Qed.

Lemma final_and_then {A B : Type} (x : Run A) (f : A → World → Run B) :
  final (and_then x f)
  = match outcome x with
    | Returned a => final (f a (final x))
    | Thrown _ => final x
    end.
Proof. unfold and_then. by destruct (outcome x). Qed.

Lemma outcome_and_then {A B : Type} (x : Run A) (f : A → World → Run B) :
  outcome (and_then x f)
  = match outcome x with
    | Returned a => outcome (f a (final x))
    | Thrown e => Thrown e
    end.
Proof. unfold and_then. by destruct (outcome x). Qed.

(** A registration attempt that throws has written nothing. *)
Lemma register_attempt_thrown toLowerCase newCandidate token w e :
  outcome (run (register_attempt toLowerCase newCandidate token) w) = Thrown e →
  store (final (run (register_attempt toLowerCase newCandidate token) w)) = store w.
Proof.
  unfold register_attempt. rewrite run_bind, outcome_and_then, final_and_then.
  pose proof (store_fetchGitHubFile CANDIDATES_PATH token w) as Hread.
  destruct (outcome (run (fetchGitHubFile _ _) w)) as [file|e1]; [|done].
  cbv zeta. destruct (some_same_party _ _ _) as [e1|[|]]; try done.
  rewrite run_bind, outcome_and_then, final_and_then.
  destruct (run_updateGitHubFile_any CANDIDATES_PATH
              (fd_content file ++ [JObj newCandidate]) (fd_sha file) token
              ("Add new candidate: "
               +:+ default "undefined" (newCandidate !! "candidateName"))
              (final (run (fetchGitHubFile CANDIDATES_PATH token) w)))
    as [[H|(e1 & H & Hs)] _]; rewrite H; [done|].
  intros _. by rewrite Hs.
Qed.

(** A vote attempt that throws has not changed the used ids, nor any file
    but the votes. *)
Lemma vote_attempt_thrown voteData votingId party token w e filePath :
  outcome (run (vote_attempt voteData votingId party token) w) = Thrown e →
  filePath ≠ VOTES_PATH →
  store (final (run (vote_attempt voteData votingId party token) w)) !! filePath
  = store w !! filePath.
Proof.
  intros Hthrown Hne. revert Hthrown. unfold vote_attempt.
  rewrite run_bind, outcome_and_then, final_and_then.
  pose proof (store_fetchGitHubFile VOTING_IDS_PATH token w) as Hids.
  set (w1 := final (run (fetchGitHubFile VOTING_IDS_PATH token) w)) in *.
  destruct (outcome (run (fetchGitHubFile _ _) w)) as [validIds|e1];
    [|by rewrite Hids].
  cbv zeta. destruct (find _ _) as [foundIdObject|]; [|done].
  rewrite run_bind, outcome_and_then, final_and_then.
  pose proof (store_fetchGitHubFile USED_VOTING_IDS_PATH token w1) as Hused.
  set (w2 := final (run (fetchGitHubFile USED_VOTING_IDS_PATH token) w1)) in *.
  destruct (outcome (run (fetchGitHubFile _ _) w1)) as [usedIdsData|e1];
    [|by rewrite Hused, Hids].
  destruct (array_includes _ _); [done|].
  rewrite run_bind, outcome_and_then, final_and_then.
  pose proof (store_fetchGitHubFile VOTES_PATH token w2) as Hvotes.
  set (w3 := final (run (fetchGitHubFile VOTES_PATH token) w2)) in *.
  destruct (outcome (run (fetchGitHubFile _ _) w2)) as [votesFile|e1];
    [|by rewrite Hvotes, Hused, Hids].
  rewrite run_Now. cbv zeta.
  rewrite run_bind, outcome_and_then, final_and_then.
  match goal with
  | |- context [run (updateGitHubFile ?p ?c ?s ?t ?m) w3] =>
      destruct (run_updateGitHubFile_any p c s t m w3) as [Hput1 Hother1];
      set (x4 := run (updateGitHubFile p c s t m) w3) in *
  end.
  destruct Hput1 as [H|(e1 & H & Hs)]; rewrite H;
    [|by rewrite Hs, Hvotes, Hused, Hids].
  simpl negb. cbv iota.
  rewrite run_bind, outcome_and_then, final_and_then.
  match goal with
  | |- context [run (updateGitHubFile ?p ?c ?s ?t ?m) (final x4)] =>
      destruct (run_updateGitHubFile_any p c s t m (final x4)) as [Hput2 _]
  end.
  destruct Hput2 as [H2|(e1 & H2 & Hs)]; rewrite H2; [done|].
  intros _. rewrite Hs, Hother1 by done. by rewrite Hvotes, Hused, Hids.
Qed.

Lemma conflicted_thrown {R : Type} (x : Run (option R)) :
  conflicted x = true → ∃ e, outcome x = Thrown e ∧ includes e "sha mismatch" = true.
Proof. unfold conflicted. destruct (outcome x) as [|e]; [done|]. eauto. Qed.

(** A loop all of whose attempts are taken for version conflicts ends
    without a response, in the world after the last wait. *)
Lemma run_retry_conflicted {R : Type} (attempt : Prog (option R)) n i w :
  forallb conflicted (attempts attempt n i w) = true →
  outcome (run (retry attempt n i) w) = Returned None
  ∧ final (run (retry attempt n i) w) = after_attempts attempt n i w.
Proof.
  revert i w. induction n as [|n IH]; intros i w; [done|].
  simpl attempts. simpl forallb. intros [Hx Hrest]%andb_prop.
  apply conflicted_thrown in Hx as (e & He & Hinc).
  rewrite (run_retry_again _ _ _ _ e) by done.
  unfold after. cbn [outcome final]. by apply IH.
Qed.

Lemma after_attempts_keeps {R : Type} (attempt : Prog (option R)) (keeps : string → Prop)
    n i w :
  (∀ w e filePath, outcome (run attempt w) = Thrown e → keeps filePath →
     store (final (run attempt w)) !! filePath = store w !! filePath) →
  forallb conflicted (attempts attempt n i w) = true →
  ∀ filePath, keeps filePath →
    store (after_attempts attempt n i w) !! filePath = store w !! filePath.
Proof.
  intros Hkeeps. revert i w. induction n as [|n IH]; intros i w; [done|].
  simpl attempts. simpl forallb. intros [Hx Hrest]%andb_prop filePath Hk.
  apply conflicted_thrown in Hx as (e & He & _).
  simpl after_attempts. rewrite IH by done. simpl. by eapply Hkeeps.
Qed.

(** C3, as amended. When each of the three attempts of a retried request
    ends in an error that the worker takes for a version conflict, the
    request is answered 500 with [success: false] and the message of the
    used-up retries; it does not throw. No file other than the votes has
    changed, so a vote submission has not marked the id, and a candidate
    registration has changed no file at all. *)
Theorem retries_used_up toLowerCase request env token attempt exhausted w :
  serves toLowerCase token request attempt exhausted →
  configured env token →
  forallb conflicted (attempts attempt MAX_RETRIES 0 w) = true →
  let r := run (fetch toLowerCase request env) w in
  outcome r = Returned {| r_status := 500; r_body := reply false exhausted |}
  ∧ (∀ filePath, filePath ≠ VOTES_PATH →
       store (final r) !! filePath = store w !! filePath)
  ∧ (exhausted = registration_exhausted → store (final r) = store w).
Proof.
  intros Hserves Hc Hall r. subst r.
  rewrite (run_fetch_serves _ _ _ token attempt exhausted) by done.
  destruct (run_retry_conflicted _ _ _ _ Hall) as [Hout Hfinal].
  unfold respond, conclude. cbn [outcome final]. rewrite Hout, Hfinal.
  split; [done|].
  destruct Hserves as [newCandidate partyName Hr|voteData votingId party Hs].
  - assert (Hstore : ∀ filePath,
              store (after_attempts (register_attempt toLowerCase newCandidate token)
                       MAX_RETRIES 0 w) !! filePath = store w !! filePath).
    { intros filePath.
      apply (after_attempts_keeps _ (λ _, True)); [|done..].
      intros w' e p He _. by rewrite (register_attempt_thrown _ _ _ _ e). }
    split; [intros; apply Hstore|]. intros _. by apply map_eq.
  - split; [|done]. intros filePath Hne.
    apply (after_attempts_keeps _ (λ p, p ≠ VOTES_PATH)); [|done..].
    intros w' e p He Hp. by apply (vote_attempt_thrown _ _ _ _ _ e).
Qed.

Lemma retries_used_up_witness :
  let r := run (fetch lower (Example.registration "Blue") Example.env)
             Contention.registration_lost in
  outcome r = Returned {| r_status := 500;
                          r_body := reply false registration_exhausted |}
  ∧ store (final r) = store Contention.registration_lost.
Proof.
  destruct (retries_used_up lower (Example.registration "Blue") Example.env "ghp"
              _ registration_exhausted Contention.registration_lost
              (serves_registration lower "ghp" (Example.registration "Blue")
                 (record [("partyName", Some "Blue"); ("candidateName", Some "Rui");
                          ("password", Some "secret")]) "Blue"
                 ltac:(by repeat split)))
    as (H1 & _ & H2).
  - by split.
  - by vm_compute.
  - split; [exact H1|by apply H2].
Defined.

(** C3, as stated, fails. Each attempt of a vote submission ends in a
    version conflict, on the write of the mark: the answer is the 500 of the
    used-up retries, and the votes collection has gained a record with every
    attempt, both when real submissions of other voters win the races and
    when the conflicts are scripted. *)
Lemma retries_used_up_counterexample :
  (let '(pool, w) := interleave Race.crowd_schedule Race.crowd Race.start in
   pool !! 0%nat = Some (Ret {| r_status := 500;
                                r_body := reply false vote_exhausted |})
   ∧ items Race.start VOTES_PATH = []
   ∧ length (votes_for "ABC123" w) = 3%nat)
  ∧ (let attempt := vote_attempt
                      (record [("votingId", Some "ABC123"); ("party", Some "Red")])
                      "ABC123" "Red" "ghp" in
     let r := run (fetch lower (Example.vote "ABC123" "Red") Example.env)
                Contention.mark_lost in
     forallb conflicted (attempts attempt MAX_RETRIES 0 Contention.mark_lost) = true
     ∧ outcome r = Returned {| r_status := 500;
                               r_body := reply false vote_exhausted |}
     ∧ items Contention.mark_lost VOTES_PATH = []
     ∧ length (items (final r) VOTES_PATH) = 3%nat
     ∧ length (filter is_put (trace r)) = 6%nat).
Proof. by vm_compute. Qed.

(** * Further properties of the worker *)

(** ** The two helpers, whatever the reply *)

(** [fetchGitHubFile] sends one read and no write. It resolves exactly when
    the reply has status 404, to no items and the [null] sha whatever the
    body says, or has a 2xx status and a body whose content decodes, to that
    content and the sha of the body; every other reply makes it throw. *)
Theorem fetchGitHubFile_outcomes filePath token w :
  let res := (http w (GET filePath token)).1 in
  let x := run (fetchGitHubFile filePath token) w in
  trace x = [EvHttp (GET filePath token)]
  ∧ store (final x) = store w
  ∧ ∀ file,
      outcome x = Returned file ↔
      ∃ response,
        res = Resolves response
        ∧ ((status response = 404 ∧ file = {| fd_content := []; fd_sha := None |})
           ∨ (status response ≠ 404 ∧ ok response = true
              ∧ ∃ data content,
                  json response = inr data ∧ j_content data = inr content
                  ∧ file = {| fd_content := content; fd_sha := j_sha data |})).
Proof.
  intros res x. subst res x. unfold fetchGitHubFile. simpl run.
  set (res := (http w (GET filePath token)).1).
  assert (Htrace : ∀ p : Prog FileData, (∃ f, p = Ret f) ∨ (∃ e, p = Throw e) →
            trace (after [EvHttp (GET filePath token)]
                     (run p (http w (GET filePath token)).2))
            = [EvHttp (GET filePath token)]).
  { intros p [[f ->]|[e ->]]; done. }
  split; [apply Htrace, fetched_pure|].
  split.
  { destruct (fetched_pure filePath res) as [[f ->]|[e ->]]; simpl;
      apply store_http_read. }
  intros file. unfold fetched. destruct res as [msg|response].
  { simpl. split; [done|]. by intros (response & ? & _). }
  destruct (Z.eqb_spec (status response) 404) as [H404|H404].
  { simpl. split.
    - intros [= <-]. exists response. split; [done|]. by left.
    - intros (r & [= <-] & [[_ ->]|[? _]]); done. }
  destruct (ok response) eqn:Hok; simpl.
  2:{ split; [done|]. intros (r & [= <-] & [[? _]|(_ & ? & _)]); congruence. }
  destruct (json response) as [msg|data] eqn:Hjson; simpl.
  { split; [done|].
    intros (r & [= <-] & [[? _]|(_ & _ & d & c & ? & _)]); congruence. }
  destruct (j_content data) as [e|content] eqn:Hcontent; simpl.
  { split; [done|].
    intros (r & [= <-] & [[? _]|(_ & _ & d & c & ? & ? & _)]); congruence. }
  split.
  - intros [= <-]. exists response. split; [done|]. right.
    split; [done|]. split; [done|]. by exists data, content.
  - intros (r & [= <-] & [[? _]|(_ & _ & d & c & Hd & Hc & ->)]); [done|].
    rewrite Hjson in Hd. simplify_eq. rewrite Hcontent in Hc. by simplify_eq.
Qed.

(** [updateGitHubFile] encodes the content before it sends anything: for a
    content with a character above U+00FF it throws the error of [btoa],
    sends nothing and leaves the world as it is. For any other content it
    sends one write, which carries the sha only when it is truthy, resolves
    to [true] exactly when the reply has a 2xx status, whatever its body, and
    throws otherwise, with the sha-mismatch error when the reply is a version
    conflict. It never resolves to [false] and leaves every other file as it
    was. *)
Theorem updateGitHubFile_outcomes filePath content sha token message w :
  let rq := PUT filePath content (if truthy sha then sha else None) token message in
  let x := run (updateGitHubFile filePath content sha token message) w in
  (encodable content = false →
     x = {| outcome := Thrown InvalidCharacterError_btoa; final := w; trace := [] |})
  ∧ (encodable content = true →
       trace x = [EvHttp rq]
       ∧ (outcome x = Returned true ↔
          ∃ response, (http w rq).1 = Resolves response ∧ ok response = true)
       ∧ (version_conflict (http w rq).1 = true →
          outcome x = Thrown sha_mismatch_error))
  ∧ outcome x ≠ Returned false
  ∧ ∀ other, other ≠ filePath → store (final x) !! other = store w !! other.
Proof.
  intros rq x. subst x.
  destruct (encodable content) eqn:Henc.
  2:{ rewrite updateGitHubFile_throws by done. by repeat split. }
  rewrite updateGitHubFile_sends by done. fold rq. simpl run.
  split; [done|]. split.
  { intros _. split.
    { destruct (updated_pure (http w rq).1) as [->|[e ->]]; done. }
    split.
    - unfold updated. destruct (http w rq).1 as [msg|response]; simpl.
      { split; [done|]. by intros (r & ? & _). }
      destruct (ok response) eqn:Hok; simpl.
      { split; [|done]. intros _. by exists response. }
      split; [|intros (r & [= <-] & ?); congruence].
      destruct (json response) as [msg|data]; [done|].
      destruct (Z.eqb _ _); [|done].
      destruct (j_message data); [|done]. by destruct (includes _ _).
    - intros Hc. by rewrite (version_conflict_thrown _ Hc). }
  split.
  { destruct (updated_pure (http w rq).1) as [->|[e ->]]; done. }
  intros other Hne.
  destruct (updated_pure (http w rq).1) as [H|[e H]]; rewrite H; simpl;
    by apply store_http_other.
Qed.

(** ** Properties of programs that hold in every world *)

Lemma run_bind_cases {A B : Type} (p : Prog A) (f : A → Prog B) w :
  (∃ a, outcome (run p w) = Returned a
        ∧ run (p ≫= f) w = after (trace (run p w)) (run (f a) (final (run p w))))
  ∨ (∃ e, outcome (run p w) = Thrown e
          ∧ run (p ≫= f) w
            = {| outcome := Thrown e; final := final (run p w);
                 trace := trace (run p w) |}).
Proof.
  rewrite run_bind. unfold and_then.
  destruct (outcome (run p w)) as [a|e]; [left|right]; by eexists.
Qed.

Lemma run_try_catch_cases {A : Type} (p : Prog A) handler w :
  (∃ a, outcome (run p w) = Returned a ∧ run (try_catch p handler) w = run p w)
  ∨ (∃ e, outcome (run p w) = Thrown e
          ∧ run (try_catch p handler) w
            = after (trace (run p w)) (run (handler e) (final (run p w)))).
Proof.
  rewrite run_try_catch. unfold or_catch.
  destruct (outcome (run p w)) as [a|e]; [left|right]; by eexists.
Qed.

Lemma results_bind {A B : Type} (Q1 : A → Prop) (Q2 : B → Prop) p (f : A → Prog B) :
  results Q1 p → (∀ a, Q1 a → results Q2 (f a)) → results Q2 (p ≫= f).
Proof.
  intros Hp Hf w. specialize (Hp w).
  destruct (run_bind_cases p f w) as [(a & Ha & ->)|(e & He & ->)]; [|done].
  rewrite Ha in Hp. apply (Hf a Hp).
Qed.

Lemma results_try_catch {A : Type} (Q : A → Prop) p handler :
  results Q p → (∀ e, results Q (handler e)) → results Q (try_catch p handler).
Proof.
  intros Hp Hh w. specialize (Hp w).
  destruct (run_try_catch_cases p handler w) as [(a & Ha & ->)|(e & He & ->)];
    [done|]. apply Hh.
Qed.

Lemma results_Ret {A : Type} (Q : A → Prop) a : Q a → results Q (Ret a).
Proof. by intros H w. Qed.

Lemma results_Throw {A : Type} (Q : A → Prop) e : results Q (Throw e).
Proof. by intros w. Qed.

Lemma results_True {A : Type} (p : Prog A) : results (λ _, True) p.
Proof. intros w. by destruct (outcome _). Qed.

Lemma results_Now {A : Type} (Q : A → Prop) (k : string → Prog A) :
  (∀ timestamp, results Q (k timestamp)) → results Q (Now k).
Proof. intros H w. rewrite run_Now. apply H. Qed.

Lemma results_retry {R : Type} (Q : R → Prop) (attempt : Prog (option R)) n i :
  results (λ r, ∀ x, r = Some x → Q x) attempt →
  results (λ r, ∀ x, r = Some x → Q x) (retry attempt n i).
Proof.
  intros Ha. revert i. induction n as [|n IH]; intros i; simpl.
  { by apply results_Ret. }
  eapply results_bind.
  - apply results_try_catch; [exact Ha|]. intros e.
    destruct (negb _); [apply results_Throw|]. by intros w.
  - intros [x|] Hx; [by apply results_Ret|apply IH].
Qed.

Lemma at_most_le {A : Type} count n m (p : Prog A) :
  at_most count n p → (n ≤ m)%nat → at_most count m p.
Proof. intros Hp Hle w. specialize (Hp w). lia. Qed.

Lemma at_most_bind {A B : Type} count n m (p : Prog A) (f : A → Prog B) :
  at_most count n p → (∀ a, at_most count m (f a)) → at_most count (n + m) (p ≫= f).
Proof.
  intros Hp Hf w. specialize (Hp w).
  destruct (run_bind_cases p f w) as [(a & Ha & ->)|(e & He & ->)]; simpl; [|lia].
  rewrite filter_app, length_app. specialize (Hf a (final (run p w))). lia.
Qed.

Lemma at_most_try_catch {A : Type} count n m (p : Prog A) handler :
  at_most count n p → (∀ e, at_most count m (handler e)) →
  at_most count (n + m) (try_catch p handler).
Proof.
  intros Hp Hh w. specialize (Hp w).
  destruct (run_try_catch_cases p handler w) as [(a & Ha & ->)|(e & He & ->)];
    simpl; [lia|].
  rewrite filter_app, length_app. specialize (Hh e (final (run p w))). lia.
Qed.

Lemma at_most_pure {A : Type} count n (p : Prog A) :
  (∃ a, p = Ret a) ∨ (∃ e, p = Throw e) → at_most count n p.
Proof. intros [[a ->]|[e ->]] w; simpl; lia. Qed.

Lemma at_most_Http {A : Type} count n rq (k : FetchResult → Prog A) :
  (∀ r, at_most count n (k r)) → at_most count (S n) (Http rq k).
Proof.
  intros Hk w. simpl. unfold after. cbn [trace].
  change ([EvHttp rq] ++ ?t)%list with (EvHttp rq :: t).
  specialize (Hk (http w rq).1 (http w rq).2).
  rewrite filter_cons. destruct (decide _); simpl; lia.
Qed.

Lemma at_most_Http_skip {A : Type} count n rq (k : FetchResult → Prog A) :
  count (EvHttp rq) = false →
  (∀ r, at_most count n (k r)) → at_most count n (Http rq k).
Proof.
  intros Hc Hk w. simpl. unfold after. cbn [trace].
  change ([EvHttp rq] ++ ?t)%list with (EvHttp rq :: t).
  specialize (Hk (http w rq).1 (http w rq).2).
  rewrite filter_cons_False; [done|]. rewrite Hc. exact id.
Qed.

Lemma at_most_fetchGitHubFile count filePath token :
  at_most count 1 (fetchGitHubFile filePath token).
Proof.
  apply at_most_Http. intros r. apply at_most_pure, fetched_pure.
Qed.

Lemma at_most_fetchGitHubFile_skip count filePath token :
  count (EvHttp (GET filePath token)) = false →
  at_most count 0 (fetchGitHubFile filePath token).
Proof.
  intros H. apply at_most_Http_skip; [done|]. intros r.
  apply at_most_pure, fetched_pure.
Qed.

Lemma at_most_updateGitHubFile count filePath content sha token message :
  at_most count 1 (updateGitHubFile filePath content sha token message).
Proof.
  unfold updateGitHubFile. destruct (negb _); [apply at_most_pure; eauto|].
  apply at_most_Http. intros r. apply at_most_pure.
  destruct (updated_pure r) as [->|[e ->]]; eauto.
Qed.

Lemma at_most_updateGitHubFile_skip count filePath content sha token message :
  (∀ rq, count (EvHttp rq) = false) →
  at_most count 0 (updateGitHubFile filePath content sha token message).
Proof.
  intros H. unfold updateGitHubFile. destruct (negb _); [apply at_most_pure; eauto|].
  apply at_most_Http_skip; [done|]. intros r. apply at_most_pure.
  destruct (updated_pure r) as [->|[e ->]]; eauto.
Qed.

(** ** Status and body agree *)

Lemma coherent_reply_true message :
  coherent {| r_status := 200; r_body := reply true message |}.
Proof. left. split; [|done]. unfold reply. cbn. apply lookup_insert_eq. Qed.

Lemma coherent_reply_false status message :
  status ∈ [400; 401; 404; 405; 409; 500] →
  coherent {| r_status := status; r_body := reply false message |}.
Proof. intros H. right. split; [|done]. unfold reply. cbn. apply lookup_insert_eq. Qed.

Ltac error_status := cbn; set_solver.

Lemma results_check_voting_id votingId token accepted overwrite :
  results coherent_pair (check_voting_id votingId token accepted overwrite).
Proof.
  unfold check_voting_id. destruct (negb _).
  { apply results_Ret, coherent_reply_false. error_status. }
  eapply results_bind; [apply results_True|]. intros validIds _.
  eapply results_bind; [apply results_True|]. intros used _. cbv zeta.
  destruct (find _ _).
  - apply results_Ret. left. split; [|done]. cbn. apply lookup_insert_eq.
  - apply results_Ret, coherent_reply_false. error_status.
Qed.

Lemma results_get_collection request filePath token :
  results coherent_pair (get_collection request filePath token).
Proof.
  unfold get_collection. destruct (String.eqb _ _).
  - eapply results_bind; [apply results_True|]. intros file _. by apply results_Ret.
  - apply results_Ret, coherent_reply_false. error_status.
Qed.

Lemma results_register_attempt toLowerCase newCandidate token :
  results (λ r, ∀ x, r = Some x → coherent_pair x)
    (register_attempt toLowerCase newCandidate token).
Proof.
  unfold register_attempt.
  eapply results_bind; [apply results_True|]. intros file _. cbv zeta.
  destruct (some_same_party _ _ _) as [e|[|]].
  - apply results_Throw.
  - apply results_Ret. intros x [= <-]. apply coherent_reply_false. error_status.
  - eapply results_bind; [apply results_True|]. intros [|] _; apply results_Ret.
    + intros x [= <-]. apply coherent_reply_true.
    + done.
Qed.

Lemma results_vote_attempt voteData votingId party token :
  results (λ r, ∀ x, r = Some x → coherent_pair x)
    (vote_attempt voteData votingId party token).
Proof.
  unfold vote_attempt.
  eapply results_bind; [apply results_True|]. intros validIds _. cbv zeta.
  destruct (find _ _).
  2:{ apply results_Ret. intros x [= <-]. apply coherent_reply_false. error_status. }
  eapply results_bind; [apply results_True|]. intros used _.
  destruct (array_includes _ _).
  { apply results_Ret. intros x [= <-]. apply coherent_reply_true. }
  eapply results_bind; [apply results_True|]. intros votes _.
  apply results_Now. intros timestamp. cbv zeta.
  eapply results_bind; [apply results_True|]. intros [|] _; simpl negb; cbv iota.
  2:{ apply results_Throw. }
  eapply results_bind; [apply results_True|]. intros [|] _; simpl negb; cbv iota.
  2:{ apply results_Throw. }
  apply results_Ret. intros x [= <-]. apply coherent_reply_true.
Qed.

Lemma results_concluded (exhausted : string) (p : Prog (option (Body * Z))) :
  results (λ r, ∀ x, r = Some x → coherent_pair x) p →
  results coherent_pair
    (r ← p;
     match r with
     | Some response => Ret response
     | None => Ret (reply false exhausted, 500)
     end).
Proof.
  intros Hp. eapply results_bind; [exact Hp|]. intros [x|] Hx; apply results_Ret.
  - by apply Hx.
  - apply coherent_reply_false. error_status.
Qed.

Lemma results_api toLowerCase endpoint request token :
  results coherent_pair (api toLowerCase endpoint request token).
Proof.
  unfold api.
  repeat (destruct (String.eqb endpoint _); [apply results_get_collection|]).
  destruct (String.eqb endpoint _).
  { destruct (String.eqb (method request) "POST").
    - eapply results_bind; [apply results_True|]. intros data _.
      apply results_check_voting_id.
    - destruct (String.eqb (method request) "GET");
        [apply results_check_voting_id|].
      apply results_Ret, coherent_reply_false. error_status. }
  destruct (String.eqb endpoint _).
  { destruct (String.eqb (method request) "POST").
    2:{ apply results_Ret, coherent_reply_false. error_status. }
    eapply results_bind; [apply results_True|]. intros newCandidate _.
    destruct (_ || _).
    { apply results_Ret, coherent_reply_false. error_status. }
    apply results_concluded, results_retry, results_register_attempt. }
  destruct (String.eqb endpoint _).
  { destruct (String.eqb (method request) "POST").
    2:{ apply results_Ret, coherent_reply_false. error_status. }
    eapply results_bind; [apply results_True|]. intros voteData _. cbv zeta.
    destruct (_ || _).
    { apply results_Ret, coherent_reply_false. error_status. }
    apply results_concluded, results_retry, results_vote_attempt. }
  apply results_Ret, coherent_reply_false. error_status.
Qed.

(** Every request is answered, and the status of the answer agrees with its
    body: [success: true] comes with status 200 and only with it,
    [success: false] with one of 400, 401, 404, 405, 409 and 500, a list of
    items with 200, plain text with 404 or 500, and the empty body with 204. *)
Theorem status_agrees_with_body toLowerCase request env w :
  ∃ response,
    outcome (run (fetch toLowerCase request env) w) = Returned response
    ∧ coherent response.
Proof.
  assert (Hres : results coherent (fetch toLowerCase request env)).
  { unfold fetch. destruct (String.eqb _ _); [by apply results_Ret|].
    destruct (negb _); [apply results_Ret; by right|]. cbv zeta.
    destruct (startsWith _ _); [|apply results_Ret; by left].
    eapply results_bind.
    - apply results_try_catch; [apply results_api|]. intros e.
      apply results_Ret, coherent_reply_false. error_status.
    - intros [b s] H. by apply results_Ret. }
  destruct (fetch_responds toLowerCase request env w) as [response H].
  exists response. split; [done|]. specialize (Hres w). by rewrite H in Hres.
Qed.

(** ** The files an endpoint touches *)

Lemma requests_impl {A : Type} (P Q : HttpRequest → Prop) (p : Prog A) :
  (∀ rq, P rq → Q rq) → requests P p → requests Q p.
Proof. intros HPQ Hp. induction Hp; constructor; auto. Qed.

Lemma array_includes_not_in (usedIds : list Json) votingId :
  array_includes usedIds votingId = false → JStr votingId ∉ usedIds.
Proof.
  intros H Hin. apply array_includes_true in Hin. congruence.
Qed.

Lemma requests_get_collection P request filePath token :
  P (GET filePath token) → requests P (get_collection request filePath token).
Proof.
  intros H. unfold get_collection. destruct (String.eqb _ _); [|constructor].
  apply requests_bind; [by apply requests_fetchGitHubFile|]. intros; constructor.
Qed.

Lemma requests_check_voting_id P votingId token accepted overwrite :
  P (GET VOTING_IDS_PATH token) → P (GET USED_VOTING_IDS_PATH token) →
  requests P (check_voting_id votingId token accepted overwrite).
Proof.
  intros H1 H2. unfold check_voting_id. destruct (negb _); [constructor|].
  apply requests_bind; [by apply requests_fetchGitHubFile|]. intros validIds.
  apply requests_bind; [by apply requests_fetchGitHubFile|]. intros used.
  cbv zeta. destruct (find _ _); constructor.
Qed.

Lemma requests_register_attempt P toLowerCase newCandidate token :
  P (GET CANDIDATES_PATH token) →
  (∀ content sha message, P (PUT CANDIDATES_PATH content sha token message)) →
  requests P (register_attempt toLowerCase newCandidate token).
Proof.
  intros Hget Hput. unfold register_attempt.
  apply requests_bind; [by apply requests_fetchGitHubFile|]. intros file. cbv zeta.
  destruct (some_same_party _ _ _) as [e|[|]]; [constructor|constructor|].
  apply requests_bind; [by apply requests_updateGitHubFile|].
  intros [|]; constructor.
Qed.

(** The requests of one attempt of a vote submission: three reads, then a
    write of the votes read with one record added, then a write of the used
    ids read, which do not contain the id, with the id added. *)
Lemma requests_vote_attempt P voteData votingId party token :
  P (GET VOTING_IDS_PATH token) → P (GET USED_VOTING_IDS_PATH token) →
  P (GET VOTES_PATH token) →
  (∀ (votes : list Json) (vote : Obj) sha message,
     vote !! "votingId" = Some votingId → vote !! "party" = Some party →
     P (PUT VOTES_PATH (votes ++ [JObj vote]) sha token message)) →
  (∀ (usedIds : list Json) sha message,
     JStr votingId ∉ usedIds →
     P (PUT USED_VOTING_IDS_PATH (usedIds ++ [JStr votingId]) sha token message)) →
  requests P (vote_attempt voteData votingId party token).
Proof.
  intros Hids Hused Hvotes Hput1 Hput2. unfold vote_attempt.
  apply requests_bind; [by apply requests_fetchGitHubFile|]. intros validIds.
  cbv zeta. destruct (find _ _) as [foundIdObject|]; [|constructor].
  apply requests_bind; [by apply requests_fetchGitHubFile|]. intros used.
  destruct (array_includes _ _) eqn:Hinc; [constructor|].
  apply requests_bind; [by apply requests_fetchGitHubFile|]. intros votes.
  constructor. intros timestamp. cbv zeta.
  apply requests_bind.
  { apply requests_updateGitHubFile, Hput1; apply finalVoteRecord_fields. }
  intros [|]; simpl negb; cbv iota; [|constructor].
  apply requests_bind.
  { by apply requests_updateGitHubFile, Hput2, array_includes_not_in. }
  intros [|]; constructor.
Qed.

Lemma requests_concluded {R : Type} P (p : Prog (option R)) (f : option R → Prog R) :
  requests P p → (∀ r, (∃ a, f r = Ret a)) → requests P (p ≫= f).
Proof.
  intros Hp Hf. apply requests_bind; [done|]. intros r.
  destruct (Hf r) as [a ->]. constructor.
Qed.

Lemma requests_api_scope toLowerCase endpoint request token :
  requests (λ rq, touches rq ∈ scope endpoint ∧ token_of rq = token)
    (api toLowerCase endpoint request token).
Proof.
  unfold api.
  destruct (String.eqb_spec endpoint "candidates") as [->|_].
  { apply requests_get_collection. split; [cbn; set_solver|done]. }
  destruct (String.eqb_spec endpoint "votes") as [->|_].
  { apply requests_get_collection. split; [cbn; set_solver|done]. }
  destruct (String.eqb_spec endpoint "voting-ids") as [->|_].
  { apply requests_get_collection. split; [cbn; set_solver|done]. }
  destruct (String.eqb_spec endpoint "used-voting-ids") as [->|_].
  { apply requests_get_collection. split; [cbn; set_solver|done]. }
  destruct (String.eqb_spec endpoint "check-voting-id") as [->|_].
  { assert (requests (λ rq, touches rq ∈ scope "check-voting-id" ∧ token_of rq = token)
              (request_json request))
      by (unfold request_json; destruct (body request); constructor).
    destruct (String.eqb _ "POST").
    - apply requests_bind; [done|]. intros data.
      apply requests_check_voting_id; (split; [cbn; set_solver|done]).
    - destruct (String.eqb _ "GET"); [|constructor].
      apply requests_check_voting_id; (split; [cbn; set_solver|done]). }
  destruct (String.eqb_spec endpoint "register-candidate") as [->|_].
  { destruct (String.eqb _ "POST"); [|constructor].
    apply requests_bind.
    { unfold request_json; destruct (body request); constructor. }
    intros newCandidate. destruct (_ || _); [constructor|].
    apply requests_concluded; [|intros [r|]; by eexists].
    apply requests_retry, requests_register_attempt;
      intros; (split; [cbn; set_solver|done]). }
  destruct (String.eqb_spec endpoint "submit-vote") as [->|_]; [|constructor].
  destruct (String.eqb _ "POST"); [|constructor].
  apply requests_bind.
  { unfold request_json; destruct (body request); constructor. }
  intros voteData. cbv zeta. destruct (_ || _); [constructor|].
  apply requests_concluded; [|intros [r|]; by eexists].
  apply requests_retry, requests_vote_attempt;
    intros; (split; [cbn; set_solver|done]).
Qed.

Lemma requests_fetch_scope toLowerCase request env :
  requests
    (λ rq, touches rq ∈ scope (substring_from 5 (pathname request))
           ∧ Some (token_of rq) = GITHUB_TOKEN_VAR env)
    (fetch toLowerCase request env).
Proof.
  unfold fetch.
  destruct (String.eqb _ _); [constructor|].
  destruct (GITHUB_TOKEN_VAR env) as [token|]; [|constructor].
  destruct (negb _); [constructor|]. cbv zeta.
  destruct (startsWith _ _); [|constructor].
  apply requests_bind.
  - apply requests_try_catch; [|constructor]. simpl default.
    eapply requests_impl; [|apply requests_api_scope].
    intros rq [H1 H2]. split; [done|]. by rewrite H2.
  - intros [b s]. constructor.
Qed.

(** In every world, whatever the request and its outcome, the worker sends
    to the host only requests for the files of the endpoint named by the
    path: a collection endpoint and the id check only read, a registration
    reads and writes the candidates only, and a vote submission reads the
    voting ids, which it never writes, and reads and writes the used ids and
    the votes, never the candidates. Every request carries the configured
    token. *)
Theorem requests_stay_in_scope toLowerCase request env w :
  all_requests
    (λ rq, touches rq ∈ scope (substring_from 5 (pathname request))
           ∧ Some (token_of rq) = GITHUB_TOKEN_VAR env)
    (trace (run (fetch toLowerCase request env) w)).
Proof. apply requests_run, requests_fetch_scope. Qed.

(** In every world, each write that a vote submission sends either appends
    to a list of votes one record with the submitted voting id and party, or
    appends the voting id to a list of used ids that does not contain it. *)
Theorem submission_writes toLowerCase request env voteData votingId party w :
  submits request voteData votingId party →
  all_requests (casts votingId party) (trace (run (fetch toLowerCase request env) w)).
Proof.
  intros ((Hm & Hp & Hb) & Hv & Hvne & Hparty & Hpne).
  apply requests_run. unfold fetch. rewrite Hm. simpl String.eqb. cbv iota.
  destruct (negb _); [constructor|]. cbv zeta. rewrite Hp, startsWith_api.
  change (substring_from 5 ("/api/" +:+ "submit-vote")) with "submit-vote".
  apply requests_bind; [|intros [b s]; constructor].
  apply requests_try_catch; [|constructor].
  unfold api. simpl String.eqb. cbv iota. rewrite Hm. simpl String.eqb. cbv iota.
  unfold request_json. rewrite Hb.
  change (Ret voteData ≫= ?f) with (f voteData). cbv beta zeta.
  rewrite Hv, Hparty, !truthy_Some by done. simpl negb. simpl orb. cbv iota.
  simpl default.
  apply requests_concluded; [|intros [r|]; by eexists].
  apply requests_retry, requests_vote_attempt; try done.
  - intros votes vote sha message H1 H2. left. split; [done|]. by exists votes, vote.
  - intros usedIds sha message H. right. split; [done|]. by exists usedIds.
Qed.

Lemma submission_writes_witness :
  all_requests (casts "ABC123" "Red")
    (trace (run (fetch lower (Example.vote "ABC123" "Red") Example.env)
              Contention.mark_lost)).
Proof.
  apply (submission_writes lower (Example.vote "ABC123" "Red") Example.env
           (record [("votingId", Some "ABC123"); ("party", Some "Red")])).
  by repeat split.
Defined.

(** ** How much a request can send *)

Lemma at_most_Now {A : Type} count n (k : string → Prog A) :
  (∀ timestamp, at_most count n (k timestamp)) → at_most count n (Now k).
Proof. intros H w. rewrite run_Now. apply H. Qed.

Lemma at_most_Sleep_skip {A : Type} count n ms (k : Prog A) :
  count (EvSleep ms) = false → at_most count n k → at_most count n (Sleep ms k).
Proof.
  intros Hc Hk w. simpl. unfold after. cbn [trace].
  change ([EvSleep ms] ++ ?t)%list with (EvSleep ms :: t).
  rewrite filter_cons_False; [apply Hk|]. rewrite Hc. exact id.
Qed.

Lemma at_most_Ret {A : Type} count n (a : A) : at_most count n (Ret a).
Proof. apply at_most_pure. eauto. Qed.

Lemma at_most_Throw {A : Type} count n e : at_most count n (@Throw A e).
Proof. apply at_most_pure. eauto. Qed.

Lemma at_most_retry {R : Type} count a (attempt : Prog (option R)) n i :
  (∀ ms, count (EvSleep ms) = false) →
  at_most count a attempt → at_most count (n * a) (retry attempt n i).
Proof.
  intros Hsleep Ha. revert i. induction n as [|n IH]; intros i; simpl retry.
  { apply at_most_Ret. }
  change (S n * a)%nat with (a + n * a)%nat.
  apply at_most_bind.
  - apply (at_most_le _ (a + 0)); [|lia].
    apply at_most_try_catch; [done|]. intros e.
    destruct (negb _); [apply at_most_Throw|].
    apply at_most_Sleep_skip; [done|]. apply at_most_Ret.
  - intros [r|]; [apply at_most_Ret|apply IH].
Qed.

Lemma at_most_request_json count n request : at_most count n (request_json request).
Proof.
  unfold request_json. destruct (body request); [apply at_most_Throw|apply at_most_Ret].
Qed.

Lemma at_most_get_collection count request filePath token :
  at_most count 1 (get_collection request filePath token).
Proof.
  unfold get_collection. destruct (String.eqb _ _); [|apply at_most_Ret].
  apply (at_most_bind _ 1 0); [apply at_most_fetchGitHubFile|].
  intros; apply at_most_Ret.
Qed.

Lemma at_most_check_voting_id count votingId token accepted overwrite :
  at_most count 2 (check_voting_id votingId token accepted overwrite).
Proof.
  unfold check_voting_id. destruct (negb _); [apply at_most_Ret|].
  apply (at_most_bind _ 1 1); [apply at_most_fetchGitHubFile|]. intros validIds.
  apply (at_most_bind _ 1 0); [apply at_most_fetchGitHubFile|]. intros used.
  cbv zeta. destruct (find _ _); apply at_most_Ret.
Qed.

Lemma at_most_register_attempt count toLowerCase newCandidate token :
  at_most count 2 (register_attempt toLowerCase newCandidate token).
Proof.
  unfold register_attempt.
  apply (at_most_bind _ 1 1); [apply at_most_fetchGitHubFile|]. intros file.
  cbv zeta. destruct (some_same_party _ _ _) as [e|[|]];
    [apply at_most_Throw|apply at_most_Ret|].
  apply (at_most_bind _ 1 0); [apply at_most_updateGitHubFile|].
  intros [|]; apply at_most_Ret.
Qed.

Lemma at_most_vote_attempt count voteData votingId party token :
  at_most count 5 (vote_attempt voteData votingId party token).
Proof.
  unfold vote_attempt.
  apply (at_most_bind _ 1 4); [apply at_most_fetchGitHubFile|]. intros validIds.
  cbv zeta. destruct (find _ _); [|apply at_most_Ret].
  apply (at_most_bind _ 1 3); [apply at_most_fetchGitHubFile|]. intros used.
  destruct (array_includes _ _); [apply at_most_Ret|].
  apply (at_most_bind _ 1 2); [apply at_most_fetchGitHubFile|]. intros votes.
  apply at_most_Now. intros timestamp. cbv zeta.
  apply (at_most_bind _ 1 1); [apply at_most_updateGitHubFile|].
  intros [|]; simpl negb; cbv iota; [|apply at_most_Throw].
  apply (at_most_bind _ 1 0); [apply at_most_updateGitHubFile|].
  intros [|]; simpl negb; cbv iota; [apply at_most_Ret|apply at_most_Throw].
Qed.

Lemma at_most_register_attempt_put toLowerCase newCandidate token :
  at_most is_put 1 (register_attempt toLowerCase newCandidate token).
Proof.
  unfold register_attempt.
  apply (at_most_bind _ 0 1); [by apply at_most_fetchGitHubFile_skip|]. intros file.
  cbv zeta. destruct (some_same_party _ _ _) as [e|[|]];
    [apply at_most_Throw|apply at_most_Ret|].
  apply (at_most_bind _ 1 0); [apply at_most_updateGitHubFile|].
  intros [|]; apply at_most_Ret.
Qed.

Lemma at_most_vote_attempt_put voteData votingId party token :
  at_most is_put 2 (vote_attempt voteData votingId party token).
Proof.
  unfold vote_attempt.
  apply (at_most_bind _ 0 2); [by apply at_most_fetchGitHubFile_skip|].
  intros validIds. cbv zeta. destruct (find _ _); [|apply at_most_Ret].
  apply (at_most_bind _ 0 2); [by apply at_most_fetchGitHubFile_skip|]. intros used.
  destruct (array_includes _ _); [apply at_most_Ret|].
  apply (at_most_bind _ 0 2); [by apply at_most_fetchGitHubFile_skip|]. intros votes.
  apply at_most_Now. intros timestamp. cbv zeta.
  apply (at_most_bind _ 1 1); [apply at_most_updateGitHubFile|].
  intros [|]; simpl negb; cbv iota; [|apply at_most_Throw].
  apply (at_most_bind _ 1 0); [apply at_most_updateGitHubFile|].
  intros [|]; simpl negb; cbv iota; [apply at_most_Ret|apply at_most_Throw].
Qed.

Lemma at_most_concluded {R : Type} count n (p : Prog (option R))
    (f : option R → Prog R) :
  at_most count n p → (∀ r, ∃ a, f r = Ret a) → at_most count n (p ≫= f).
Proof.
  intros Hp Hf. apply (at_most_le _ (n + 0)); [|lia].
  apply at_most_bind; [done|]. intros r. destruct (Hf r) as [a ->].
  apply at_most_Ret.
Qed.

(** The bounds of an endpoint, given those of the two attempts: [a] events
    per registration attempt, [b] per vote attempt, [c] per read-only
    endpoint. *)
Lemma at_most_api count a b c n toLowerCase endpoint request token :
  (∀ ms, count (EvSleep ms) = false) →
  (∀ newCandidate, at_most count a (register_attempt toLowerCase newCandidate token)) →
  (∀ voteData votingId party,
     at_most count b (vote_attempt voteData votingId party token)) →
  (∀ votingId accepted overwrite,
     at_most count c (check_voting_id votingId token accepted overwrite)) →
  (∀ filePath, at_most count c (get_collection request filePath token)) →
  (3 * a ≤ n)%nat → (3 * b ≤ n)%nat → (c ≤ n)%nat →
  at_most count n (api toLowerCase endpoint request token).
Proof.
  intros Hsleep Ha Hb Hc Hg Han Hbn Hcn. unfold api.
  repeat (destruct (String.eqb endpoint _); [by eapply at_most_le|]).
  destruct (String.eqb endpoint _).
  { destruct (String.eqb (method request) "POST").
    - apply (at_most_le _ (0 + c)); [|lia].
      apply at_most_bind; [apply at_most_request_json|]. intros data. apply Hc.
    - destruct (String.eqb (method request) "GET"); [by eapply at_most_le|].
      apply at_most_Ret. }
  destruct (String.eqb endpoint _).
  { destruct (String.eqb (method request) "POST"); [|apply at_most_Ret].
    apply (at_most_le _ (0 + 3 * a)); [|lia].
    apply at_most_bind; [apply at_most_request_json|]. intros newCandidate.
    destruct (_ || _); [apply at_most_Ret|].
    apply at_most_concluded; [|intros [r|]; by eexists].
    by apply (at_most_retry _ a _ 3). }
  destruct (String.eqb endpoint _); [|apply at_most_Ret].
  destruct (String.eqb (method request) "POST"); [|apply at_most_Ret].
  apply (at_most_le _ (0 + 3 * b)); [|lia].
  apply at_most_bind; [apply at_most_request_json|]. intros voteData. cbv zeta.
  destruct (_ || _); [apply at_most_Ret|].
  apply at_most_concluded; [|intros [r|]; by eexists].
  by apply (at_most_retry _ b _ 3).
Qed.

Lemma at_most_fetch count n toLowerCase request env :
  (∀ endpoint token, at_most count n (api toLowerCase endpoint request token)) →
  at_most count n (fetch toLowerCase request env).
Proof.
  intros Hapi. unfold fetch. destruct (String.eqb _ _); [apply at_most_Ret|].
  destruct (negb _); [apply at_most_Ret|]. cbv zeta.
  destruct (startsWith _ _); [|apply at_most_Ret].
  apply (at_most_le _ (n + 0 + 0)); [|lia].
  apply at_most_bind.
  - apply at_most_try_catch; [apply Hapi|]. intros e. apply at_most_Ret.
  - intros [b s]. apply at_most_Ret.
Qed.

(** In every world a request makes the worker send at most 15 requests to
    the host, of which at most 6 are writes: three attempts of at most five
    requests, two of them writes. *)
Theorem requests_are_bounded toLowerCase request env w :
  let t := trace (run (fetch toLowerCase request env) w) in
  (length (filter is_request t) ≤ 15)%nat ∧ (length (filter is_put t) ≤ 6)%nat.
Proof.
  intros t. subst t. split.
  - apply at_most_fetch. intros endpoint token.
    apply (at_most_api _ 2 5 2); try done; try lia; intros.
    + apply at_most_register_attempt.
    + apply at_most_vote_attempt.
    + apply at_most_check_voting_id.
    + apply (at_most_le _ 1); [apply at_most_get_collection|lia].
  - apply at_most_fetch. intros endpoint token.
    apply (at_most_api _ 1 2 0); try done; try lia; intros.
    + apply at_most_register_attempt_put.
    + apply at_most_vote_attempt_put.
    + unfold check_voting_id. destruct (negb _); [apply at_most_Ret|].
      apply (at_most_bind _ 0 0); [by apply at_most_fetchGitHubFile_skip|].
      intros validIds.
      apply (at_most_bind _ 0 0); [by apply at_most_fetchGitHubFile_skip|].
      intros used. cbv zeta. destruct (find _ _); apply at_most_Ret.
    + unfold get_collection. destruct (String.eqb _ _); [|apply at_most_Ret].
      apply (at_most_bind _ 0 0); [by apply at_most_fetchGitHubFile_skip|].
      intros; apply at_most_Ret.
Qed.

(** ** The waits of a request *)

Lemma waits_app (t1 t2 : list Event) : waits (t1 ++ t2) = (waits t1 ++ waits t2)%list.
Proof. apply omap_app. Qed.

Lemma no_waits (t : list Event) :
  (length (filter is_wait t) ≤ 0)%nat → waits t = [].
Proof.
  induction t as [|[rq|ms] t IH]; [done| |].
  - rewrite filter_cons_False by exact id. exact IH.
  - rewrite filter_cons_True by exact I. simpl. lia.
Qed.

Lemma silent_waits {A : Type} (p : Prog A) w :
  at_most is_wait 0 p → waits (trace (run p w)) = [].
Proof. intros H. apply no_waits, H. Qed.

Lemma waits_within_silent {A : Type} l (p : Prog A) :
  at_most is_wait 0 p → waits_within l p.
Proof. intros H w. rewrite (silent_waits _ _ H). apply prefix_nil. Qed.

Lemma waits_within_bind_l {A B : Type} l (p : Prog A) (f : A → Prog B) :
  at_most is_wait 0 p → (∀ a, waits_within l (f a)) → waits_within l (p ≫= f).
Proof.
  intros Hp Hf w. pose proof (silent_waits _ w Hp) as Hs.
  destruct (run_bind_cases p f w) as [(a & Ha & ->)|(e & He & ->)]; simpl.
  - rewrite waits_app, Hs. apply Hf.
  - rewrite Hs. apply prefix_nil.
Qed.

Lemma waits_within_bind_r {A B : Type} l (p : Prog A) (f : A → Prog B) :
  waits_within l p → (∀ a, at_most is_wait 0 (f a)) → waits_within l (p ≫= f).
Proof.
  intros Hp Hf w. specialize (Hp w).
  destruct (run_bind_cases p f w) as [(a & Ha & ->)|(e & He & ->)]; simpl; [|done].
  by rewrite waits_app, (silent_waits _ _ (Hf a)), (right_id_L [] (++)).
Qed.

Lemma waits_within_try_catch {A : Type} l (p : Prog A) handler :
  waits_within l p → (∀ e, at_most is_wait 0 (handler e)) →
  waits_within l (try_catch p handler).
Proof.
  intros Hp Hh w. specialize (Hp w).
  destruct (run_try_catch_cases p handler w) as [(a & Ha & ->)|(e & He & ->)];
    simpl; [done|].
  by rewrite waits_app, (silent_waits _ _ (Hh e)), (right_id_L [] (++)).
Qed.

Lemma results_updateGitHubFile filePath content sha token message :
  results (λ b, b = true) (updateGitHubFile filePath content sha token message).
Proof.
  intros w. unfold updateGitHubFile. destruct (negb _); [done|]. simpl.
  by destruct (updated_pure (http w (PUT filePath content
                 (if truthy sha then sha else None) token message)).1)
    as [->|[e ->]].
Qed.

(** An attempt of a registration ends in a response or in an error: it
    never falls through to the next iteration. *)
Lemma register_attempt_ends toLowerCase newCandidate token :
  results is_Some (register_attempt toLowerCase newCandidate token).
Proof.
  unfold register_attempt.
  eapply results_bind; [apply results_True|]. intros file _. cbv zeta.
  destruct (some_same_party _ _ _) as [e|[|]];
    [apply results_Throw|by apply results_Ret|].
  eapply results_bind; [apply results_updateGitHubFile|].
  intros b ->. by apply results_Ret.
Qed.

Lemma vote_attempt_ends voteData votingId party token :
  results is_Some (vote_attempt voteData votingId party token).
Proof.
  unfold vote_attempt.
  eapply results_bind; [apply results_True|]. intros validIds _. cbv zeta.
  destruct (find _ _); [|by apply results_Ret].
  eapply results_bind; [apply results_True|]. intros used _.
  destruct (array_includes _ _); [by apply results_Ret|].
  eapply results_bind; [apply results_True|]. intros votes _.
  apply results_Now. intros timestamp. cbv zeta.
  eapply results_bind; [apply results_updateGitHubFile|]. intros b ->.
  simpl negb. cbv iota.
  eapply results_bind; [apply results_updateGitHubFile|]. intros b ->.
  by apply results_Ret.
Qed.

Lemma silent_get_collection count request filePath token :
  (∀ rq, count (EvHttp rq) = false) →
  at_most count 0 (get_collection request filePath token).
Proof.
  intros H. unfold get_collection. destruct (String.eqb _ _); [|apply at_most_Ret].
  apply (at_most_bind _ 0 0); [by apply at_most_fetchGitHubFile_skip|].
  intros; apply at_most_Ret.
Qed.

Lemma silent_check_voting_id count votingId token accepted overwrite :
  (∀ rq, count (EvHttp rq) = false) →
  at_most count 0 (check_voting_id votingId token accepted overwrite).
Proof.
  intros H. unfold check_voting_id. destruct (negb _); [apply at_most_Ret|].
  apply (at_most_bind _ 0 0); [by apply at_most_fetchGitHubFile_skip|].
  intros validIds.
  apply (at_most_bind _ 0 0); [by apply at_most_fetchGitHubFile_skip|].
  intros used. cbv zeta. destruct (find _ _); apply at_most_Ret.
Qed.

Lemma silent_register_attempt count toLowerCase newCandidate token :
  (∀ rq, count (EvHttp rq) = false) →
  at_most count 0 (register_attempt toLowerCase newCandidate token).
Proof.
  intros H. unfold register_attempt.
  apply (at_most_bind _ 0 0); [by apply at_most_fetchGitHubFile_skip|]. intros file.
  cbv zeta. destruct (some_same_party _ _ _) as [e|[|]];
    [apply at_most_Throw|apply at_most_Ret|].
  apply (at_most_bind _ 0 0); [by apply at_most_updateGitHubFile_skip|].
  intros [|]; apply at_most_Ret.
Qed.

Lemma silent_vote_attempt count voteData votingId party token :
  (∀ rq, count (EvHttp rq) = false) →
  at_most count 0 (vote_attempt voteData votingId party token).
Proof.
  intros H. unfold vote_attempt.
  apply (at_most_bind _ 0 0); [by apply at_most_fetchGitHubFile_skip|].
  intros validIds. cbv zeta. destruct (find _ _); [|apply at_most_Ret].
  apply (at_most_bind _ 0 0); [by apply at_most_fetchGitHubFile_skip|]. intros used.
  destruct (array_includes _ _); [apply at_most_Ret|].
  apply (at_most_bind _ 0 0); [by apply at_most_fetchGitHubFile_skip|]. intros votes.
  apply at_most_Now. intros timestamp. cbv zeta.
  apply (at_most_bind _ 0 0); [by apply at_most_updateGitHubFile_skip|].
  intros [|]; simpl negb; cbv iota; [|apply at_most_Throw].
  apply (at_most_bind _ 0 0); [by apply at_most_updateGitHubFile_skip|].
  intros [|]; simpl negb; cbv iota; [apply at_most_Ret|apply at_most_Throw].
Qed.

(** The waits of a loop whose attempts do not wait and do not fall through:
    the first waits of the backoff, one after each attempt that was taken
    for a version conflict. *)
Lemma waits_retry {R : Type} (attempt : Prog (option R)) n i :
  at_most is_wait 0 attempt → results is_Some attempt →
  waits_within (backoff n i) (retry attempt n i).
Proof.
  intros Hsilent Hends. revert i. induction n as [|n IH]; intros i w.
  { apply prefix_nil. }
  pose proof (silent_waits _ w Hsilent) as Hs. specialize (Hends w).
  destruct (outcome (run attempt w)) as [[x|]|e] eqn:Hout.
  - rewrite (run_retry_break _ _ _ _ x) by done. cbn [trace]. rewrite Hs.
    apply prefix_nil.
  - by destruct Hends.
  - destruct (includes e "sha mismatch") eqn:Hinc.
    + rewrite (run_retry_again _ _ _ _ e) by done. unfold after. cbn [trace].
      rewrite !waits_app, Hs. simpl. apply prefix_cons, IH.
    + rewrite (run_retry_abort _ _ _ _ e) by done. cbn [trace]. rewrite Hs.
      apply prefix_nil.
Qed.

Lemma waits_api toLowerCase endpoint request token :
  waits_within [100; 200; 300] (api toLowerCase endpoint request token).
Proof.
  unfold api.
  repeat (destruct (String.eqb endpoint _);
          [by apply waits_within_silent, silent_get_collection|]).
  destruct (String.eqb endpoint _).
  { apply waits_within_silent.
    destruct (String.eqb (method request) "POST").
    - apply (at_most_bind _ 0 0); [apply at_most_request_json|]. intros data.
      by apply silent_check_voting_id.
    - destruct (String.eqb (method request) "GET");
        [by apply silent_check_voting_id|apply at_most_Ret]. }
  destruct (String.eqb endpoint _).
  { destruct (String.eqb (method request) "POST");
      [|apply waits_within_silent, at_most_Ret].
    apply waits_within_bind_l; [apply at_most_request_json|]. intros newCandidate.
    destruct (_ || _); [apply waits_within_silent, at_most_Ret|].
    apply waits_within_bind_r; [|intros [r|]; apply at_most_Ret].
    apply (waits_retry _ 3 0);
      [by apply silent_register_attempt|apply register_attempt_ends]. }
  destruct (String.eqb endpoint _); [|apply waits_within_silent, at_most_Ret].
  destruct (String.eqb (method request) "POST");
    [|apply waits_within_silent, at_most_Ret].
  apply waits_within_bind_l; [apply at_most_request_json|]. intros voteData.
  cbv zeta. destruct (_ || _); [apply waits_within_silent, at_most_Ret|].
  apply waits_within_bind_r; [|intros [r|]; apply at_most_Ret].
  apply (waits_retry _ 3 0); [by apply silent_vote_attempt|apply vote_attempt_ends].
Qed.

(** In every world the waits of a request are, in order, the first ones of
    100, 200 and 300 ms: the worker waits only after an attempt that it takes
    for a version conflict, each time 100 ms longer, and never a fourth
    time. *)
Theorem waits_grow toLowerCase request env w :
  waits (trace (run (fetch toLowerCase request env) w)) `prefix_of` [100; 200; 300].
Proof.
  revert w. change (waits_within [100; 200; 300] (fetch toLowerCase request env)).
  unfold fetch. destruct (String.eqb _ _); [apply waits_within_silent, at_most_Ret|].
  destruct (negb _); [apply waits_within_silent, at_most_Ret|]. cbv zeta.
  destruct (startsWith _ _); [|apply waits_within_silent, at_most_Ret].
  apply waits_within_bind_r; [|intros [b s]; apply at_most_Ret].
  apply waits_within_try_catch; [apply waits_api|]. intros e. apply at_most_Ret.
Qed.

(** ** When the host is contacted *)

Lemma reads_first_bind {A B : Type} (p : Prog A) (f : A → Prog B) :
  reads_first p → reads_first (p ≫= f).
Proof.
  intros Hp w. destruct (Hp w) as (filePath & token & t & Ht).
  destruct (run_bind_cases p f w) as [(a & Ha & ->)|(e & He & ->)]; simpl;
    rewrite Ht; simpl; eauto.
Qed.

Lemma reads_first_try_catch {A : Type} (p : Prog A) handler :
  reads_first p → reads_first (try_catch p handler).
Proof.
  intros Hp w. destruct (Hp w) as (filePath & token & t & Ht).
  destruct (run_try_catch_cases p handler w) as [(a & Ha & ->)|(e & He & ->)];
    simpl; rewrite Ht; simpl; eauto.
Qed.

Lemma reads_first_fetchGitHubFile filePath token :
  reads_first (fetchGitHubFile filePath token).
Proof. intros w. unfold fetchGitHubFile. rewrite trace_run_Http. eauto. Qed.

Lemma reads_first_retry {R : Type} (attempt : Prog (option R)) n i :
  reads_first attempt → reads_first (retry attempt (S n) i).
Proof.
  intros Ha. simpl retry. by apply reads_first_bind, reads_first_try_catch.
Qed.

Lemma idle_Ret {A : Type} (a : A) : idle (Ret a).
Proof. by intros w. Qed.

Lemma idle_Throw {A : Type} e : idle (@Throw A e).
Proof. by intros w. Qed.

Lemma idle_bind {A B : Type} (p : Prog A) (f : A → Prog B) :
  idle p → (∀ a, idle (f a)) → idle (p ≫= f).
Proof.
  intros Hp Hf w. destruct (Hp w) as [Ht Hw].
  destruct (run_bind_cases p f w) as [(a & Ha & ->)|(e & He & ->)]; simpl.
  - rewrite Ht, Hw. apply Hf.
  - by rewrite Ht, Hw.
Qed.

Lemma idle_try_catch {A : Type} (p : Prog A) handler :
  idle p → (∀ e, idle (handler e)) → idle (try_catch p handler).
Proof.
  intros Hp Hh w. destruct (Hp w) as [Ht Hw].
  destruct (run_try_catch_cases p handler w) as [(a & Ha & ->)|(e & He & ->)];
    simpl.
  - by rewrite Ht, Hw.
  - rewrite Ht, Hw. apply Hh.
Qed.

Lemma turns_get_collection request filePath token :
  turns_to_host (String.eqb (method request) "GET")
    (get_collection request filePath token).
Proof.
  unfold get_collection, turns_to_host. destruct (String.eqb _ _); [|apply idle_Ret].
  apply reads_first_bind, reads_first_fetchGitHubFile.
Qed.

Lemma turns_check_voting_id votingId token accepted overwrite :
  turns_to_host (truthy votingId)
    (check_voting_id votingId token accepted overwrite).
Proof.
  unfold check_voting_id, turns_to_host.
  destruct (truthy votingId); simpl negb; cbv iota; [|apply idle_Ret].
  apply reads_first_bind, reads_first_fetchGitHubFile.
Qed.

Lemma turns_api toLowerCase request token :
  turns_to_host (endpoint_serves request)
    (try_catch (api toLowerCase (substring_from 5 (pathname request)) request token)
       (λ message,
          Ret (reply false ("Internal Server Error: "
                            +:+ or_else (Some message) "Unknown error"), 500))).
Proof.
  unfold endpoint_serves. cbv zeta.
  set (endpoint := substring_from 5 (pathname request)). unfold api.
  assert (Hcatch : ∀ flag (p : Prog (Body * Z)) h,
            (∀ e, idle (h e)) → turns_to_host flag p →
            turns_to_host flag (try_catch p h)).
  { intros [|] p h Hh Hp; unfold turns_to_host in *;
      [by apply reads_first_try_catch|by apply idle_try_catch]. }
  apply Hcatch; [intros; apply idle_Ret|].
  destruct (String.eqb endpoint "candidates"); [apply turns_get_collection|].
  destruct (String.eqb endpoint "votes"); [apply turns_get_collection|].
  destruct (String.eqb endpoint "voting-ids"); [apply turns_get_collection|].
  destruct (String.eqb endpoint "used-voting-ids"); [apply turns_get_collection|].
  simpl orb. cbv iota.
  destruct (String.eqb endpoint "check-voting-id").
  { destruct (String.eqb (method request) "POST").
    - unfold request_json. destruct (body request) as [msg|data]; [apply idle_Throw|].
      change (Ret data ≫= ?f) with (f data). apply turns_check_voting_id.
    - destruct (String.eqb (method request) "GET"); simpl andb;
        [apply turns_check_voting_id|apply idle_Ret]. }
  destruct (String.eqb endpoint "register-candidate").
  { destruct (String.eqb (method request) "POST"); simpl andb; [|apply idle_Ret].
    unfold request_json. destruct (body request) as [msg|data]; [apply idle_Throw|].
    change (Ret data ≫= ?f) with (f data). cbv beta.
    destruct (truthy (data !! "partyName")); [|apply idle_Ret].
    destruct (truthy (data !! "candidateName")); [|apply idle_Ret].
    destruct (truthy (data !! "password")); [|apply idle_Ret].
    simpl negb. simpl orb. cbv iota. simpl andb. unfold turns_to_host, MAX_RETRIES.
    apply reads_first_bind, reads_first_retry, reads_first_bind.
    apply reads_first_fetchGitHubFile. }
  destruct (String.eqb endpoint "submit-vote"); [|apply idle_Ret].
  destruct (String.eqb (method request) "POST"); simpl andb; [|apply idle_Ret].
  unfold request_json. destruct (body request) as [msg|data]; [apply idle_Throw|].
  change (Ret data ≫= ?f) with (f data). cbv beta zeta.
  destruct (truthy (data !! "votingId")); [|apply idle_Ret].
  destruct (truthy (data !! "party")); [|apply idle_Ret].
  simpl negb. simpl orb. cbv iota. simpl andb. unfold turns_to_host, MAX_RETRIES.
  apply reads_first_bind, reads_first_retry, reads_first_bind.
  apply reads_first_fetchGitHubFile.
Qed.

(** The worker turns to the host exactly for the requests that an endpoint
    serves: then the first thing it sends is a read. For every other
    request, a preflight, a missing token, a path or a method that no
    endpoint serves, a body that is no JSON object or lacks a required
    field, it sends nothing and leaves the world as it is. *)
Theorem host_contacted_iff toLowerCase request env w :
  let r := run (fetch toLowerCase request env) w in
  if needs_host request env
  then ∃ filePath token t, trace r = EvHttp (GET filePath token) :: t
  else trace r = [] ∧ final r = w.
Proof.
  intros r. subst r.
  cut (turns_to_host (needs_host request env) (fetch toLowerCase request env)).
  { unfold turns_to_host. intros H. destruct (needs_host request env); apply H. }
  unfold needs_host, fetch. cbv zeta.
  destruct (String.eqb (method request) "OPTIONS") eqn:Hopt; simpl negb; simpl andb.
  { apply idle_Ret. }
  destruct (truthy (GITHUB_TOKEN_VAR env)); simpl negb; simpl andb; cbv iota.
  2:{ apply idle_Ret. }
  destruct (startsWith (pathname request) "/api/"); simpl andb; cbv iota.
  2:{ apply idle_Ret. }
  pose proof (turns_api toLowerCase request (default "" (GITHUB_TOKEN_VAR env)))
    as Hapi.
  destruct (endpoint_serves request); unfold turns_to_host in *.
  - by apply reads_first_bind.
  - apply idle_bind; [done|]. intros [b s]. apply idle_Ret.
Qed.

(** ** The collection endpoints *)

Lemma run_fetch_collection toLowerCase request env token endpoint filePath w :
  lists request endpoint filePath →
  configured env token →
  run (fetch toLowerCase request env) w
  = respond (run (file ← fetchGitHubFile filePath token;
                  Ret (Items (fd_content file), 200)) w).
Proof.
  intros (Hin & Hm & Hp) Hc.
  rewrite (run_fetch_api _ _ _ token endpoint); [|by rewrite Hm|done..].
  f_equal. f_equal. unfold collections in Hin.
  repeat (apply elem_of_cons in Hin as [[= -> ->]|Hin];
          [unfold api, get_collection; simpl String.eqb; cbv iota;
           by rewrite Hm|]).
  by apply elem_of_nil in Hin.
Qed.

(** A GET of a collection endpoint that the store answers is answered 200
    with the items of the file, none for a file that was never written; the
    worker sends the one read and the store is left as it was. *)
Theorem collection_listed toLowerCase request env token endpoint filePath w :
  lists request endpoint filePath →
  configured env token →
  quiet 1 (script w) = true →
  let r := run (fetch toLowerCase request env) w in
  outcome r = Returned {| r_status := 200; r_body := Items (items w filePath) |}
  ∧ store (final r) = store w
  ∧ trace r = [EvHttp (GET filePath token)].
Proof.
  intros Hl Hc Hq r. subst r.
  rewrite (run_fetch_collection _ _ _ token endpoint filePath) by done.
  host_reads Hq. rewrite fd_content_read. done.
Qed.

Lemma collection_listed_witness :
  let request := {| method := "GET"; pathname := "/api/votes";
                    searchParams := ∅; body := inl "Unexpected end of JSON input" |} in
  outcome (run (fetch lower request Example.env) Example.fresh)
  = Returned {| r_status := 200; r_body := Items [] |}.
Proof.
  intros request.
  apply (collection_listed lower request Example.env "ghp" "votes" VOTES_PATH
           Example.fresh).
  - split; [|done]. unfold collections. set_solver.
  - by split.
  - reflexivity.
Defined.

(** A GET of a collection endpoint whose read the host answers with an
    error status, neither 404 nor 2xx, is answered 500 with
    [success: false] and a message that quotes the status text and the body
    of the host's reply; nothing else is sent. *)
Theorem collection_read_fails toLowerCase request env token endpoint filePath w
    response rest :
  lists request endpoint filePath →
  configured env token →
  script w = Some (Resolves response) :: rest →
  status response ≠ 404 → ok response = false →
  let r := run (fetch toLowerCase request env) w in
  outcome r
  = Returned {| r_status := 500;
                r_body := reply false
                  ("Internal Server Error: Failed to fetch file from GitHub: "
                   +:+ statusText response +:+ " - " +:+ text response) |}
  ∧ store (final r) = store w
  ∧ trace r = [EvHttp (GET filePath token)].
Proof.
  intros Hl Hc Hs H404 Hok r. subst r.
  rewrite (run_fetch_collection _ _ _ token endpoint filePath) by done.
  change (fetchGitHubFile filePath token ≫= ?f)
    with (Http (GET filePath token) (λ r, bind (fetched filePath r) f)).
  simpl run. unfold http. rewrite Hs. cbn [fst snd]. unfold fetched.
  apply Z.eqb_neq in H404. rewrite H404, Hok. done.
Qed.

Lemma collection_read_fails_witness :
  let request := {| method := "GET"; pathname := "/api/candidates";
                    searchParams := ∅; body := inl "Unexpected end of JSON input" |} in
  outcome (run (fetch lower request Example.env) Unavailable.once)
  = Returned {| r_status := 500;
                r_body := reply false
                  "Internal Server Error: Failed to fetch file from GitHub: Service Unavailable - sha mismatch" |}.
Proof.
  intros request.
  apply (collection_read_fails lower request Example.env "ghp" "candidates"
           CANDIDATES_PATH Unavailable.once
           {| status := 503; statusText := "Service Unavailable";
              text := "sha mismatch"; json := inl "Unexpected token" |} []).
  - split; [|done]. unfold collections. set_solver.
  - by split.
  - reflexivity.
  - done.
  - reflexivity.
Defined.

(** In every world a request to an endpoint that has no file to write, a
    collection endpoint, the id check or a path that names no endpoint,
    leaves every stored file as it was, whatever its method and outcome. *)
Theorem no_write_outside_scope toLowerCase request env w :
  forallb (λ x, negb x.2) (scope (substring_from 5 (pathname request))) = true →
  let r := run (fetch toLowerCase request env) w in
  store (final r) = store w ∧ Forall (λ e, is_put e = false) (trace r).
Proof.
  intros Hscope r. subst r.
  assert (Hreads : requests is_read (fetch toLowerCase request env)).
  { eapply requests_impl; [|apply requests_fetch_scope].
    intros [p t|p c s t m] [Hin _]; [done|]. simpl in Hin.
    rewrite forallb_forall in Hscope. apply list_elem_of_In, Hscope in Hin.
    done. }
  split; [by apply reads_keep_store|]. by apply reads_never_put, requests_run.
Qed.

Lemma no_write_outside_scope_witness :
  let request := {| method := "DELETE"; pathname := "/api/used-voting-ids";
                    searchParams := ∅; body := inl "Unexpected end of JSON input" |} in
  store (final (run (fetch lower request Example.env) Example.used))
  = store Example.used.
Proof.
  intros request.
  apply (no_write_outside_scope lower request Example.env Example.used).
  reflexivity.
Defined.

(** ** The id check *)

Lemma run_fetch_check toLowerCase request env token votingId accepted overwrite w :
  checks request votingId accepted overwrite →
  pathname request = "/api/check-voting-id" →
  configured env token →
  run (fetch toLowerCase request env) w
  = respond (run (check_voting_id votingId token accepted overwrite) w).
Proof.
  intros Hchecks Hp Hc.
  rewrite (run_fetch_api _ _ _ token "check-voting-id"); [|by destruct Hchecks as [d ->| ->]|done..].
  f_equal. f_equal. unfold api. simpl String.eqb. cbv iota.
  destruct Hchecks as [data Hm Hb <-|Hm <-]; rewrite Hm; simpl String.eqb; cbv iota.
  - unfold request_json. by rewrite Hb.
  - done.
Qed.

Lemma array_includes_decide (usedIds : list Json) votingId :
  array_includes usedIds votingId = bool_decide (JStr votingId ∈ usedIds).
Proof.
  destruct (decide (JStr votingId ∈ usedIds)) as [H|H].
  - by rewrite bool_decide_eq_true_2, array_includes_true.
  - by rewrite bool_decide_eq_false_2, array_includes_false.
Qed.

(** The id check, answered by the store: two reads, then the verdict. *)
Lemma run_check_voting_id votingId token accepted overwrite w :
  votingId ≠ "" →
  quiet 2 (script w) = true →
  run (check_voting_id (Some votingId) token accepted overwrite) w
  = {| outcome :=
         Returned
           match find (has_id votingId) (items w VOTING_IDS_PATH) with
           | None => (reply false "Invalid Voting ID.", 401)
           | Some foundIdObject =>
               let isUsed := bool_decide (JStr votingId ∈ items w USED_VOTING_IDS_PATH) in
               (Object (literal
                  [("success", Some (VBool true));
                   ("valid", Some (VBool true));
                   ("used", Some (VBool isUsed));
                   ("message", Some (VStr (if overwrite && isUsed
                                           then "Voting ID has already been used."
                                           else accepted)));
                   ("playerName", VStr <$> prop foundIdObject "playerName");
                   ("gameEdition", VStr <$> prop foundIdObject "gameEdition")]),
                200)
           end;
       final := pop_script (pop_script w);
       trace := [EvHttp (GET VOTING_IDS_PATH token);
                 EvHttp (GET USED_VOTING_IDS_PATH token)] |}.
Proof.
  intros Hne Hq. unfold check_voting_id. rewrite truthy_Some by done.
  simpl negb. cbv iota. simpl default.
  host_reads Hq. host_reads Hq. rewrite !fd_content_read.
  change (items (pop_script w) USED_VOTING_IDS_PATH)
    with (items w USED_VOTING_IDS_PATH).
  rewrite array_includes_decide.
  by destruct (find _ _).
Qed.

(** Either form of the id check, for the id of a credential and answered by
    the store: the answer is 200 with [success] and [valid] true, [used]
    telling whether the id is an item of the used ids, and the credential's
    [playerName] and [gameEdition]. The message is that of the form, except
    that the POST form, not the GET form, says 'Voting ID has already been
    used.' for a used id. The store is left as it was. *)
Theorem check_valid_id toLowerCase request env token votingId accepted overwrite
    credential w :
  checks request (Some votingId) accepted overwrite →
  pathname request = "/api/check-voting-id" →
  configured env token →
  votingId ≠ "" →
  quiet 2 (script w) = true →
  find (has_id votingId) (items w VOTING_IDS_PATH) = Some credential →
  let r := run (fetch toLowerCase request env) w in
  let isUsed := bool_decide (JStr votingId ∈ items w USED_VOTING_IDS_PATH) in
  (∃ o, outcome r = Returned {| r_status := 200; r_body := Object o |}
        ∧ o !! "success" = Some (VBool true)
        ∧ o !! "valid" = Some (VBool true)
        ∧ o !! "used" = Some (VBool isUsed)
        ∧ o !! "message" = Some (VStr (if overwrite && isUsed
                                       then "Voting ID has already been used."
                                       else accepted))
        ∧ o !! "playerName" = VStr <$> prop credential "playerName"
        ∧ o !! "gameEdition" = VStr <$> prop credential "gameEdition")
  ∧ store (final r) = store w.
Proof.
  intros Hchecks Hp Hc Hne Hq Hfind r isUsed. subst r.
  rewrite (run_fetch_check _ _ _ token (Some votingId) accepted overwrite) by done.
  rewrite run_check_voting_id by done. rewrite Hfind. cbv zeta. fold isUsed.
  split; [|done]. eexists. split; [done|].
  destruct (prop credential "playerName"), (prop credential "gameEdition");
    simpl; repeat split; by simplify_map_eq.
Qed.

Lemma check_valid_id_witness :
  let request := {| method := "POST"; pathname := "/api/check-voting-id";
                    searchParams := ∅;
                    body := inr (record [("votingId", Some "ABC123")]) |} in
  store (final (run (fetch lower request Example.env) Example.used))
  = store Example.used.
Proof.
  intros request.
  apply (check_valid_id lower request Example.env "ghp" "ABC123"
           "Voting ID accepted." true Example.steve Example.used).
  - by apply (checks_post _ _ (record [("votingId", Some "ABC123")])).
  - done.
  - by split.
  - done.
  - reflexivity.
  - reflexivity.
Defined.

(** Either form of the id check, for an id that no credential has and
    answered by the store: the answer is 401 with 'Invalid Voting ID.',
    whether or not the id is among the used ids, which the worker has read
    all the same. The store is left as it was. *)
Theorem check_unknown_id toLowerCase request env token votingId accepted overwrite w :
  checks request (Some votingId) accepted overwrite →
  pathname request = "/api/check-voting-id" →
  configured env token →
  votingId ≠ "" →
  quiet 2 (script w) = true →
  Forall (λ item, prop item "id" ≠ Some votingId) (items w VOTING_IDS_PATH) →
  let r := run (fetch toLowerCase request env) w in
  outcome r = Returned {| r_status := 401; r_body := reply false "Invalid Voting ID." |}
  ∧ store (final r) = store w
  ∧ trace r = [EvHttp (GET VOTING_IDS_PATH token);
               EvHttp (GET USED_VOTING_IDS_PATH token)].
Proof.
  intros Hchecks Hp Hc Hne Hq Hnone r. subst r.
  rewrite (run_fetch_check _ _ _ token (Some votingId) accepted overwrite) by done.
  rewrite run_check_voting_id by done. by rewrite find_has_id_None.
Qed.

Lemma check_unknown_id_witness :
  let request := {| method := "GET"; pathname := "/api/check-voting-id";
                    searchParams := {[ "votingId" := "ZZZ" ]};
                    body := inl "Unexpected end of JSON input" |} in
  outcome (run (fetch lower request Example.env) Example.used)
  = Returned {| r_status := 401; r_body := reply false "Invalid Voting ID." |}.
Proof.
  intros request.
  apply (check_unknown_id lower request Example.env "ghp" "ZZZ"
           "Voting ID status retrieved." false Example.used).
  - by apply checks_get.
  - done.
  - by split.
  - done.
  - reflexivity.
  - repeat constructor; vm_compute; discriminate.
Defined.

Lemma literal_but_message (pre post : list (string * option Val)) m1 m2 k :
  k ≠ "message" →
  literal (pre ++ ("message", Some m1) :: post) !! k
  = literal (pre ++ ("message", Some m2) :: post) !! k.
Proof.
  intros Hk. induction pre as [|[k' [v|]] pre IH]; simpl.
  - by rewrite !lookup_insert_ne.
  - destruct (decide (k' = k)) as [->|].
    + by rewrite !lookup_insert_eq.
    + by rewrite !lookup_insert_ne.
  - done.
Qed.

Lemma same_but_message_refl b : same_but_message b b.
Proof. by destruct b. Qed.

(** The two forms of the id check do the same, up to the message. *)
Lemma check_voting_id_forms votingId token accepted1 overwrite1 accepted2 overwrite2 w :
  let x1 := run (check_voting_id votingId token accepted1 overwrite1) w in
  let x2 := run (check_voting_id votingId token accepted2 overwrite2) w in
  trace x1 = trace x2 ∧ final x1 = final x2
  ∧ match outcome x1, outcome x2 with
    | Returned (b1, s1), Returned (b2, s2) => s1 = s2 ∧ same_but_message b1 b2
    | Thrown e1, Thrown e2 => e1 = e2
    | _, _ => False
    end.
Proof.
  intros x1 x2. subst x1 x2. unfold check_voting_id.
  destruct (negb _); [by repeat split|].
  rewrite !run_bind. unfold and_then.
  destruct (run (fetchGitHubFile VOTING_IDS_PATH token) w) as [[validIds|e] w1 t1];
    cbn [outcome final trace]; [|done].
  rewrite !run_bind. unfold and_then.
  destruct (run (fetchGitHubFile USED_VOTING_IDS_PATH token) w1) as [[used|e] w2 t2];
    cbn [outcome final trace]; [|done].
  cbv zeta. destruct (find _ _) as [foundIdObject|]; rewrite !run_Ret;
    cbn [outcome final trace]; [|by repeat split].
  repeat split. unfold same_but_message. intros k Hk.
  apply (literal_but_message [_; _; _] [_; _]). done.
Qed.

(** In every world the POST form and the GET form of the id check, asked
    about the same id, send the same requests, leave the same world and give
    answers with the same status and the same body up to the [message]. *)
Theorem check_forms_agree toLowerCase env w data query params ignored :
  data !! "votingId" = query !! "votingId" →
  let post := {| method := "POST"; pathname := "/api/check-voting-id";
                 searchParams := params; body := inr data |} in
  let get := {| method := "GET"; pathname := "/api/check-voting-id";
                searchParams := query; body := ignored |} in
  let r1 := run (fetch toLowerCase post env) w in
  let r2 := run (fetch toLowerCase get env) w in
  trace r1 = trace r2 ∧ final r1 = final r2
  ∧ ∃ response1 response2,
      outcome r1 = Returned response1 ∧ outcome r2 = Returned response2
      ∧ r_status response1 = r_status response2
      ∧ same_but_message (r_body response1) (r_body response2).
Proof.
  intros Hid post get r1 r2. subst r1 r2.
  destruct (truthy (GITHUB_TOKEN_VAR env)) eqn:Htoken.
  2:{ unfold fetch. simpl String.eqb. cbv iota. rewrite Htoken. simpl.
      repeat split. by eexists _, _. }
  destruct (GITHUB_TOKEN_VAR env) as [token|] eqn:Henv; [|done].
  assert (Hc : configured env token).
  { split; [done|]. intros ->. done. }
  rewrite (run_fetch_check _ post _ token (data !! "votingId")
             "Voting ID accepted." true);
    [|by apply (checks_post _ _ data)|done..].
  rewrite (run_fetch_check _ get _ token (data !! "votingId")
             "Voting ID status retrieved." false);
    [|by apply checks_get|done..].
  destruct (check_voting_id_forms (data !! "votingId") token
              "Voting ID accepted." true "Voting ID status retrieved." false w)
    as (Ht & Hw & Ho).
  unfold respond. cbn [outcome final trace].
  split; [done|]. split; [done|]. eexists _, _. split; [done|]. split; [done|].
  destruct (outcome (run (check_voting_id _ _ "Voting ID accepted." _) w))
    as [[b1 s1]|e1],
    (outcome (run (check_voting_id _ _ "Voting ID status retrieved." _) w))
    as [[b2 s2]|e2]; cbn [r_status r_body]; try done.
  subst e2. split; [done|]. apply same_but_message_refl.
Qed.

Lemma check_forms_agree_witness :
  let post := {| method := "POST"; pathname := "/api/check-voting-id";
                 searchParams := ∅;
                 body := inr (record [("votingId", Some "ABC123")]) |} in
  let get := {| method := "GET"; pathname := "/api/check-voting-id";
                searchParams := {[ "votingId" := "ABC123" ]};
                body := inl "Unexpected end of JSON input" |} in
  trace (run (fetch lower post Example.env) Example.used)
  = trace (run (fetch lower get Example.env) Example.used).
Proof.
  intros post get.
  apply (check_forms_agree lower Example.env Example.used
           (record [("votingId", Some "ABC123")]) {[ "votingId" := "ABC123" ]}
           ∅ (inl "Unexpected end of JSON input")).
  reflexivity.
Defined.

(** ** Candidate registration, answered by the store *)

Section Registered.

Variable toLowerCase : string → string.

Lemma some_same_party_spec (candidates : list Json) partyName :
  Forall (λ c, is_Some (prop c "partyName")) candidates →
  some_same_party toLowerCase candidates (Some partyName)
  = inr (bool_decide (Some (toLowerCase partyName) ∈ party_keys toLowerCase candidates)).
Proof.
  induction 1 as [|c rest [p Hp] _ IH]; [done|]. simpl. rewrite Hp. simpl.
  destruct (String.eqb_spec (toLowerCase p) (toLowerCase partyName)) as [Heq|Hne].
  - rewrite bool_decide_eq_true_2; [done|]. rewrite Heq. left.
  - rewrite IH. f_equal. apply bool_decide_ext. rewrite elem_of_cons.
    split; [by right|]. intros [[= H]|H]; [by destruct Hne|done].
Qed.

Lemma some_same_party_new (candidates : list Json) partyName :
  Forall (λ c, ∃ name, prop c "partyName" = Some name
                       ∧ toLowerCase name ≠ toLowerCase partyName) candidates →
  some_same_party toLowerCase candidates (Some partyName) = inr false.
Proof.
  induction 1 as [|c rest (name & Hname & Hne) _ IH]; [done|]. simpl.
  rewrite Hname. by destruct (String.eqb_spec (toLowerCase name) (toLowerCase partyName)).
Qed.

Lemma some_same_party_undefined (before rest : list Json) c partyName :
  Forall (λ c, ∃ name, prop c "partyName" = Some name
                       ∧ toLowerCase name ≠ toLowerCase partyName) before →
  prop c "partyName" = None →
  some_same_party toLowerCase (before ++ c :: rest) (Some partyName)
  = inl TypeError_toLowerCase.
Proof.
  intros Hbefore Hc. induction Hbefore as [|b before (name & Hname & Hne) _ IH];
    simpl; [by rewrite Hc|].
  rewrite Hname. by destruct (String.eqb_spec (toLowerCase name) (toLowerCase partyName)).
Qed.

(** One attempt of a registration, answered by the store. *)
Lemma run_register_attempt newCandidate token w :
  quiet 2 (script w) = true →
  run (register_attempt toLowerCase newCandidate token) w
  = match some_same_party toLowerCase (items w CANDIDATES_PATH)
            (newCandidate !! "partyName") with
    | inl e =>
        {| outcome := Thrown e; final := pop_script w;
           trace := [EvHttp (GET CANDIDATES_PATH token)] |}
    | inr true =>
        {| outcome := Returned (Some (reply false
                        "A party with this name already exists.", 409));
           final := pop_script w;
           trace := [EvHttp (GET CANDIDATES_PATH token)] |}
    | inr false =>
        if encodable (items w CANDIDATES_PATH ++ [JObj newCandidate]) then
          {| outcome := Returned (Some (reply true
                          "Candidate registered successfully.", 200));
             final := write CANDIDATES_PATH
                        (items w CANDIDATES_PATH ++ [JObj newCandidate])
                        (pop_script (pop_script w));
             trace := [EvHttp (GET CANDIDATES_PATH token);
                       EvHttp (PUT CANDIDATES_PATH
                                 (items w CANDIDATES_PATH ++ [JObj newCandidate])
                                 (fd_sha (read w CANDIDATES_PATH)) token
                                 ("Add new candidate: "
                                  +:+ default "undefined"
                                        (newCandidate !! "candidateName")))] |}
        else
          {| outcome := Thrown InvalidCharacterError_btoa; final := pop_script w;
             trace := [EvHttp (GET CANDIDATES_PATH token)] |}
    end.
Proof.
  intros Hq. unfold register_attempt. host_reads Hq. rewrite fd_content_read.
  destruct (some_same_party _ _ _) as [e|[|]]; [done|done|].
  destruct (encodable _) eqn:Henc.
  - change (read w CANDIDATES_PATH) with (read (pop_script w) CANDIDATES_PATH).
    rewrite run_updateGitHubFile; [done|done|from_quiet Hq].
  - rewrite updateGitHubFile_throws by done. done.
Qed.

End Registered.

(** The run of a registration of a party whose name no candidate has. *)
Lemma run_fetch_register_new toLowerCase request env token newCandidate partyName w :
  registers request newCandidate partyName →
  configured env token →
  quiet 2 (script w) = true →
  Forall (λ c, ∃ name, prop c "partyName" = Some name
                       ∧ toLowerCase name ≠ toLowerCase partyName)
    (items w CANDIDATES_PATH) →
  encodable (items w CANDIDATES_PATH ++ [JObj newCandidate]) = true →
  run (fetch toLowerCase request env) w
  = {| outcome := Returned {| r_status := 200;
                              r_body := reply true "Candidate registered successfully." |};
       final := write CANDIDATES_PATH
                  (items w CANDIDATES_PATH ++ [JObj newCandidate])
                  (pop_script (pop_script w));
       trace := [EvHttp (GET CANDIDATES_PATH token);
                 EvHttp (PUT CANDIDATES_PATH
                           (items w CANDIDATES_PATH ++ [JObj newCandidate])
                           (fd_sha (read w CANDIDATES_PATH)) token
                           ("Add new candidate: "
                            +:+ default "undefined"
                                  (newCandidate !! "candidateName")))] |}.
Proof.
  intros Hr Hc Hq Hnew Henc.
  pose proof Hr as (_ & Hp & _).
  rewrite (run_fetch_register _ _ _ token newCandidate partyName) by done.
  pose proof (run_register_attempt toLowerCase newCandidate token w Hq) as Hrun.
  rewrite Hp, (some_same_party_new _ _ _ Hnew), Henc in Hrun.
  rewrite (run_retry_break _ _ _ _ (reply true "Candidate registered successfully.", 200))
    by (by rewrite Hrun).
  by rewrite Hrun.
Qed.

(** A registration of a party whose name no candidate has, up to letter
    case, answered by the store, when the candidates with the posted object
    have no character above U+00FF: the answer is 200 with 'Candidate
    registered successfully.', the candidates collection gains the posted
    object as it is, with all its fields, at its end, no other file changes,
    and the worker sends one read and one write, whose commit message names
    the candidate. *)
Theorem register_new_party toLowerCase request env token newCandidate partyName w :
  registers request newCandidate partyName →
  configured env token →
  quiet 2 (script w) = true →
  Forall (λ c, ∃ name, prop c "partyName" = Some name
                       ∧ toLowerCase name ≠ toLowerCase partyName)
    (items w CANDIDATES_PATH) →
  encodable (items w CANDIDATES_PATH ++ [JObj newCandidate]) = true →
  let r := run (fetch toLowerCase request env) w in
  outcome r = Returned {| r_status := 200;
                          r_body := reply true "Candidate registered successfully." |}
  ∧ items (final r) CANDIDATES_PATH
    = (items w CANDIDATES_PATH ++ [JObj newCandidate])%list
  ∧ (∀ filePath, filePath ≠ CANDIDATES_PATH →
       store (final r) !! filePath = store w !! filePath)
  ∧ ∃ candidateName,
      newCandidate !! "candidateName" = Some candidateName
      ∧ trace r = [EvHttp (GET CANDIDATES_PATH token);
                   EvHttp (PUT CANDIDATES_PATH
                             (items w CANDIDATES_PATH ++ [JObj newCandidate])
                             (fd_sha (read w CANDIDATES_PATH)) token
                             ("Add new candidate: " +:+ candidateName))].
Proof.
  intros Hr Hc Hq Hnew Henc r. subst r.
  pose proof Hr as (_ & Hp & _ & Hname & _).
  rewrite (run_fetch_register_new _ _ _ token newCandidate partyName) by done.
  cbn [outcome final trace].
  split; [done|]. split; [by rewrite items_write|].
  split; [intros filePath Hne; simpl; by rewrite lookup_insert_ne|].
  destruct (newCandidate !! "candidateName") as [candidateName|]; [|done].
  by exists candidateName.
Qed.

Lemma register_new_party_witness :
  let r := run (fetch lower (Example.registration "Blue") Example.env)
             Example.with_party in
  outcome r = Returned {| r_status := 200;
                          r_body := reply true "Candidate registered successfully." |}
  ∧ length (items (final r) CANDIDATES_PATH) = 2%nat.
Proof.
  destruct (register_new_party lower (Example.registration "Blue") Example.env "ghp"
              (record [("partyName", Some "Blue"); ("candidateName", Some "Rui");
                       ("password", Some "secret")])
              "Blue" Example.with_party) as (H1 & H2 & _).
  - by repeat split.
  - by split.
  - reflexivity.
  - vm_compute. repeat constructor. exists "Red". by split.
  - reflexivity.
  - split; [exact H1|by rewrite H2].
Defined.

(** For stored candidates and posted objects whose property values are
    strings, a registration answered by the store keeps the candidates well
    formed: if every candidate has a party name and no two have the same one
    up to letter case, this still holds afterwards, whether the registration
    was accepted, rejected as a duplicate, or given up because the content has
    a character above U+00FF. A posted party name that is not a string is
    outside this statement. *)
Theorem register_keeps_parties_distinct toLowerCase request env token newCandidate
    partyName w :
  registers request newCandidate partyName →
  configured env token →
  quiet 2 (script w) = true →
  distinct_parties toLowerCase (items w CANDIDATES_PATH) →
  let r := run (fetch toLowerCase request env) w in
  distinct_parties toLowerCase (items (final r) CANDIDATES_PATH).
Proof.
  intros Hr Hc Hq [Hall Hnodup] r. subst r.
  pose proof Hr as (_ & Hp & _).
  rewrite (run_fetch_register _ _ _ token newCandidate partyName) by done.
  pose proof (run_register_attempt toLowerCase newCandidate token w Hq) as Hrun.
  rewrite Hp, some_same_party_spec in Hrun by done.
  destruct (decide (Some (toLowerCase partyName)
                    ∈ party_keys toLowerCase (items w CANDIDATES_PATH))) as [Hin|Hin].
  - rewrite bool_decide_eq_true_2 in Hrun by done.
    rewrite (run_retry_break _ _ _ _
               (reply false "A party with this name already exists.", 409))
      by (by rewrite Hrun).
    rewrite Hrun. by split.
  - rewrite bool_decide_eq_false_2 in Hrun by done.
    destruct (encodable _).
    2:{ rewrite (run_retry_abort _ _ _ _ InvalidCharacterError_btoa)
          by (by rewrite ?Hrun).
        rewrite Hrun. by split. }
    rewrite (run_retry_break _ _ _ _
               (reply true "Candidate registered successfully.", 200))
      by (by rewrite Hrun).
    rewrite Hrun. cbn [respond conclude final]. rewrite items_write. split.
    + apply Forall_app. split; [done|]. constructor; [|done]. simpl. by rewrite Hp.
    + unfold party_keys. rewrite fmap_app. apply NoDup_app.
      split; [done|]. split; [|apply NoDup_singleton].
      intros k Hk. simpl. rewrite Hp. simpl. intros Hs. apply elem_of_cons in Hs as [->|Hs]; [done|by apply elem_of_nil in Hs].
Qed.

Lemma register_keeps_parties_distinct_witness :
  distinct_parties lower
    (items (final (run (fetch lower (Example.registration "RED") Example.env)
                     Example.with_party)) CANDIDATES_PATH).
Proof.
  apply (register_keeps_parties_distinct lower (Example.registration "RED")
           Example.env "ghp"
           (record [("partyName", Some "RED"); ("candidateName", Some "Rui");
                    ("password", Some "secret")])
           "RED" Example.with_party).
  - by repeat split.
  - by split.
  - reflexivity.
  - split.
    + vm_compute. repeat constructor. by eexists.
    + vm_compute. apply NoDup_singleton.
Defined.

(** A stored candidate that has no party name, met before any candidate of
    the new party's name, makes a registration end in the 500 of the outer
    [catch], with the message of the error thrown by reading [toLowerCase]
    of [undefined]; the worker has sent the one read and written nothing. *)
Theorem register_meets_nameless toLowerCase request env token newCandidate partyName
    before nameless rest w :
  registers request newCandidate partyName →
  configured env token →
  quiet 1 (script w) = true →
  items w CANDIDATES_PATH = (before ++ nameless :: rest)%list →
  Forall (λ c, ∃ name, prop c "partyName" = Some name
                       ∧ toLowerCase name ≠ toLowerCase partyName) before →
  prop nameless "partyName" = None →
  let r := run (fetch toLowerCase request env) w in
  outcome r = Returned {| r_status := 500;
                          r_body := reply false ("Internal Server Error: "
                                      +:+ TypeError_toLowerCase) |}
  ∧ store (final r) = store w
  ∧ trace r = [EvHttp (GET CANDIDATES_PATH token)].
Proof.
  intros Hr Hc Hq Hitems Hbefore Hnameless r. subst r.
  pose proof Hr as (_ & Hp & _).
  rewrite (run_fetch_register _ _ _ token newCandidate partyName) by done.
  assert (Hrun : run (register_attempt toLowerCase newCandidate token) w
                 = {| outcome := Thrown TypeError_toLowerCase; final := pop_script w;
                      trace := [EvHttp (GET CANDIDATES_PATH token)] |}).
  { unfold register_attempt. host_reads Hq.
    rewrite fd_content_read, Hitems, Hp.
    by rewrite (some_same_party_undefined _ _ _ _ _ Hbefore Hnameless). }
  rewrite (run_retry_abort _ _ _ _ TypeError_toLowerCase) by (by rewrite ?Hrun).
  rewrite Hrun. done.
Qed.

Lemma register_meets_nameless_witness :
  let w := Example.world
             {[ CANDIDATES_PATH := Example.file [Example.red_party; JStr "Green"] 1 ]}
             [] in
  let r := run (fetch lower (Example.registration "Blue") Example.env) w in
  r_status <$> (match outcome r with Returned x => Some x | Thrown _ => None end)
  = Some 500
  ∧ store (final r) = store w.
Proof.
  intros w.
  destruct (register_meets_nameless lower (Example.registration "Blue") Example.env
              "ghp"
              (record [("partyName", Some "Blue"); ("candidateName", Some "Rui");
                       ("password", Some "secret")])
              "Blue" [Example.red_party] (JStr "Green") [] w) as (H1 & H2 & _).
  - by repeat split.
  - by split.
  - reflexivity.
  - reflexivity.
  - vm_compute. repeat constructor. exists "Red". by split.
  - reflexivity.
  - split; [by rewrite H1|exact H2].
Defined.

(** ** Requests one after the other *)

Ltac listed := repeat (apply elem_of_cons; first [by left | right]).

Ltac not_listed :=
  repeat (apply not_elem_of_cons; split; [done|]); apply not_elem_of_nil.

(** A registration of a new party followed by a GET of [/api/candidates],
    both answered by the store, when the candidates with the posted object
    have no character above U+00FF: the listing is answered 200 with the
    earlier candidates followed by the posted object as it is, with every
    field that was posted. *)
Theorem registered_candidate_listed toLowerCase request listing env token newCandidate
    partyName w :
  registers request newCandidate partyName →
  lists listing "candidates" CANDIDATES_PATH →
  configured env token →
  quiet 3 (script w) = true →
  Forall (λ c, ∃ name, prop c "partyName" = Some name
                       ∧ toLowerCase name ≠ toLowerCase partyName)
    (items w CANDIDATES_PATH) →
  encodable (items w CANDIDATES_PATH ++ [JObj newCandidate]) = true →
  let r := run (_ ← fetch toLowerCase request env; fetch toLowerCase listing env) w in
  outcome r
  = Returned {| r_status := 200;
                r_body := Items (items w CANDIDATES_PATH ++ [JObj newCandidate]) |}.
Proof.
  intros Hr Hl Hc Hq Hnew Henc r. subst r.
  rewrite run_bind.
  rewrite (run_fetch_register_new _ _ _ token newCandidate partyName)
    by (done || by from_quiet Hq).
  unfold and_then. cbn [outcome final trace].
  rewrite (run_fetch_collection _ _ _ token "candidates" CANDIDATES_PATH) by done.
  host_reads Hq. rewrite fd_content_read, items_write. done.
Qed.

Lemma registered_candidate_listed_witness :
  let listing := {| method := "GET"; pathname := "/api/candidates";
                    searchParams := ∅; body := inl "Unexpected end of JSON input" |} in
  r_status <$> (match outcome (run (_ ← fetch lower (Example.registration "Blue")
                                         Example.env;
                                    fetch lower listing Example.env)
                                 Example.with_party) with
                | Returned x => Some x
                | Thrown _ => None
                end)
  = Some 200.
Proof.
  intros listing.
  rewrite (registered_candidate_listed lower (Example.registration "Blue") listing
             Example.env "ghp"
             (record [("partyName", Some "Blue"); ("candidateName", Some "Rui");
                      ("password", Some "secret")])
             "Blue" Example.with_party).
  - reflexivity.
  - by repeat split.
  - split; [|done]. unfold collections. listed.
  - by split.
  - reflexivity.
  - vm_compute. repeat constructor. exists "Red". by split.
  - reflexivity.
Defined.

(** The run of a vote submission with a fresh id of a credential. *)
Lemma run_fetch_vote_fresh toLowerCase request env token voteData votingId party
    credential w :
  submits request voteData votingId party →
  configured env token →
  quiet 5 (script w) = true →
  find (has_id votingId) (items w VOTING_IDS_PATH) = Some credential →
  JStr votingId ∉ items w USED_VOTING_IDS_PATH →
  encodable (items w VOTES_PATH
             ++ [JObj (finalVoteRecord voteData votingId party credential
                         (toISOString w (clock w)))]) = true →
  encodable (items w USED_VOTING_IDS_PATH ++ [JStr votingId]) = true →
  run (fetch toLowerCase request env) w
  = {| outcome := Returned {| r_status := 200;
                              r_body := reply true "Vote submitted successfully." |};
       final := voted voteData votingId party credential (Nat.iter 5 pop_script w);
       trace := vote_requests voteData votingId party token credential w |}.
Proof.
  intros Hs Hc Hq Hfind Hused Hvote Hmark.
  rewrite (run_fetch_submit_vote _ _ _ token voteData votingId party) by done.
  rewrite (run_retry_break _ _ _ _ (reply true "Vote submitted successfully.", 200));
    rewrite (vote_attempt_fresh _ _ _ _ _ credential)
      by (by try apply array_includes_false); done.
Qed.

(** The run of a vote submission with a used id of a credential. *)
Lemma run_fetch_vote_used toLowerCase request env token voteData votingId party
    credential w :
  submits request voteData votingId party →
  configured env token →
  quiet 2 (script w) = true →
  find (has_id votingId) (items w VOTING_IDS_PATH) = Some credential →
  JStr votingId ∈ items w USED_VOTING_IDS_PATH →
  run (fetch toLowerCase request env) w
  = {| outcome := Returned {| r_status := 200;
                              r_body := reply true
                                "This Voting ID has already been used to vote." |};
       final := pop_script (pop_script w);
       trace := [EvHttp (GET VOTING_IDS_PATH token);
                 EvHttp (GET USED_VOTING_IDS_PATH token)] |}.
Proof.
  intros Hs Hc Hq Hfind Hused.
  rewrite (run_fetch_submit_vote _ _ _ token voteData votingId party) by done.
  rewrite (run_retry_break _ _ _ _
             (reply true "This Voting ID has already been used to vote.", 200));
    rewrite (vote_attempt_used _ _ _ _ _ credential)
      by (by try apply array_includes_true); done.
Qed.

Lemma items_voted_ids voteData votingId party credential w :
  items (voted voteData votingId party credential w) VOTING_IDS_PATH
  = items w VOTING_IDS_PATH.
Proof. unfold voted. by rewrite !items_write_ne. Qed.

Lemma items_voted_used voteData votingId party credential w :
  items (voted voteData votingId party credential w) USED_VOTING_IDS_PATH
  = (items w USED_VOTING_IDS_PATH ++ [JStr votingId])%list.
Proof. unfold voted. by rewrite items_write. Qed.

Lemma items_voted_votes voteData votingId party credential w :
  items (voted voteData votingId party credential w) VOTES_PATH
  = (items w VOTES_PATH
     ++ [JObj (finalVoteRecord voteData votingId party credential
                 (toISOString w (clock w)))])%list.
Proof. unfold voted. by rewrite items_write_ne, items_write. Qed.

(** A vote submission with a fresh id of a credential, then a check of that
    id in either form, then the same submission again, all answered by the
    store, when the two contents that the first submission writes have no
    character above U+00FF: the vote is accepted, the check says the id is
    valid and used, the second submission is answered 'This Voting ID has
    already been used to vote.', and at the end the votes hold one more record
    and the used ids one more item than at the start. *)
Theorem voted_id_is_spent toLowerCase request checking env token voteData votingId
    party credential accepted overwrite w :
  submits request voteData votingId party →
  checks checking (Some votingId) accepted overwrite →
  pathname checking = "/api/check-voting-id" →
  configured env token →
  quiet 9 (script w) = true →
  find (has_id votingId) (items w VOTING_IDS_PATH) = Some credential →
  JStr votingId ∉ items w USED_VOTING_IDS_PATH →
  encodable (items w VOTES_PATH
             ++ [JObj (finalVoteRecord voteData votingId party credential
                         (toISOString w (clock w)))]) = true →
  encodable (items w USED_VOTING_IDS_PATH ++ [JStr votingId]) = true →
  let r := run (first ← fetch toLowerCase request env;
                second ← fetch toLowerCase checking env;
                third ← fetch toLowerCase request env;
                Ret (first, second, third)) w in
  (∃ o, outcome r
        = Returned ({| r_status := 200;
                       r_body := reply true "Vote submitted successfully." |},
                    {| r_status := 200; r_body := Object o |},
                    {| r_status := 200;
                       r_body := reply true
                         "This Voting ID has already been used to vote." |})
        ∧ o !! "valid" = Some (VBool true)
        ∧ o !! "used" = Some (VBool true))
  ∧ items (final r) VOTES_PATH
    = (items w VOTES_PATH
       ++ [JObj (finalVoteRecord voteData votingId party credential
                   (toISOString w (clock w)))])%list
  ∧ items (final r) USED_VOTING_IDS_PATH
    = (items w USED_VOTING_IDS_PATH ++ [JStr votingId])%list.
Proof.
  intros Hs Hchecks Hp Hc Hq Hfind Hfresh Hvote Hmark r. subst r.
  pose proof Hs as (_ & _ & Hne & _).
  set (w1 := voted voteData votingId party credential (Nat.iter 5 pop_script w)).
  assert (Hids : items w1 VOTING_IDS_PATH = items w VOTING_IDS_PATH)
    by (subst w1; rewrite items_voted_ids; reflexivity).
  assert (Hused : items w1 USED_VOTING_IDS_PATH
                  = (items w USED_VOTING_IDS_PATH ++ [JStr votingId])%list)
    by (subst w1; rewrite items_voted_used; reflexivity).
  assert (Hvotes : items w1 VOTES_PATH
                   = (items w VOTES_PATH
                      ++ [JObj (finalVoteRecord voteData votingId party credential
                                  (toISOString w (clock w)))])%list)
    by (subst w1; rewrite items_voted_votes; reflexivity).
  assert (Hq1 : quiet 4 (script w1) = true) by (subst w1; from_quiet Hq).
  rewrite run_bind.
  rewrite (run_fetch_vote_fresh _ _ _ token voteData votingId party credential)
    by (done || by from_quiet Hq).
  fold w1. clearbody w1. unfold and_then. cbn [outcome final trace].
  rewrite run_bind.
  rewrite (run_fetch_check _ _ _ token (Some votingId) accepted overwrite) by done.
  rewrite run_check_voting_id by (done || by from_quiet Hq1).
  rewrite Hids, Hfind, Hused. cbv zeta.
  rewrite bool_decide_eq_true_2 by set_solver.
  unfold and_then. cbn [respond outcome final trace].
  rewrite run_bind.
  rewrite (run_fetch_vote_used _ _ _ token voteData votingId party credential);
    [|done|done|by from_quiet Hq1|by rewrite <- Hids in Hfind
     |change (JStr votingId ∈ items w1 USED_VOTING_IDS_PATH); rewrite Hused; set_solver].
  unfold and_then. cbn [outcome final trace]. rewrite run_Ret.
  cbn [outcome final trace]. split; [|by split].
  eexists. split; [done|].
  destruct (prop credential "playerName"), (prop credential "gameEdition");
    simpl; split; by simplify_map_eq.
Qed.

Lemma voted_id_is_spent_witness :
  let checking := {| method := "GET"; pathname := "/api/check-voting-id";
                     searchParams := {[ "votingId" := "ABC123" ]};
                     body := inl "Unexpected end of JSON input" |} in
  let r := run (first ← fetch lower (Example.vote "ABC123" "Red") Example.env;
                second ← fetch lower checking Example.env;
                third ← fetch lower (Example.vote "ABC123" "Red") Example.env;
                Ret (first, second, third)) Example.fresh in
  length (items (final r) VOTES_PATH) = 1%nat
  ∧ items (final r) USED_VOTING_IDS_PATH = [JStr "ABC123"].
Proof.
  intros checking.
  destruct (voted_id_is_spent lower (Example.vote "ABC123" "Red") checking Example.env
              "ghp" (record [("votingId", Some "ABC123"); ("party", Some "Red")])
              "ABC123" "Red" Example.steve "Voting ID status retrieved." false Example.fresh)
    as (_ & H1 & H2).
  - by repeat split.
  - by constructor.
  - done.
  - by split.
  - reflexivity.
  - reflexivity.
  - vm_compute. apply not_elem_of_nil.
  - reflexivity.
  - reflexivity.
  - split; [by rewrite H1|exact H2].
Defined.

(** ** Requests turned away *)

(** A POST to 'register-candidate' or 'submit-vote' whose JSON object lacks
    one of the endpoint's required fields, or has the empty string there, is
    answered 400 with the endpoint's message, whatever the other fields are;
    nothing is sent to the host. *)
Theorem missing_field_rejected toLowerCase request env token endpoint data fields
    message field w :
  posts request endpoint data →
  configured env token →
  (endpoint, (fields, message)) ∈ required →
  field ∈ fields →
  truthy (data !! field) = false →
  run (fetch toLowerCase request env) w
  = turned_away {| r_status := 400; r_body := reply false message |} w.
Proof.
  intros (Hm & Hp & Hb) Hc Hin Hfield Hfalsy.
  rewrite (run_fetch_api _ _ _ token endpoint); [|by rewrite Hm|done..].
  unfold required in Hin.
  repeat (apply elem_of_cons in Hin as [[= -> -> ->]|Hin]);
    [| |by apply elem_of_nil in Hin];
    unfold api; simpl String.eqb; cbv iota; rewrite Hm; simpl String.eqb; cbv iota;
    unfold request_json; rewrite Hb;
    match goal with |- context [Ret data ≫= ?f] => change (Ret data ≫= f) with (f data) end;
    cbv beta zeta;
    repeat (apply elem_of_cons in Hfield as [->|Hfield]);
    try (by apply elem_of_nil in Hfield);
    rewrite Hfalsy;
    repeat match goal with |- context [truthy ?x] => destruct (truthy x) end;
    done.
Qed.

Lemma missing_field_rejected_witness :
  let request := Example.post "submit-vote" [("votingId", Some "ABC123");
                                             ("party", Some "")] in
  outcome (run (fetch lower request Example.env) Example.fresh)
  = Returned {| r_status := 400;
                r_body := reply false
                            "Missing voting ID or party for vote submission." |}.
Proof.
  intros request.
  by rewrite (missing_field_rejected lower request Example.env "ghp" "submit-vote"
                (record [("votingId", Some "ABC123"); ("party", Some "")])
                ["votingId"; "party"]
                "Missing voting ID or party for vote submission." "party"
                Example.fresh)
    by (done || (unfold required; listed) || listed).
Defined.

(** A check of a voting id, in either form, that gives no id or the empty
    string is answered 400 with 'Voting ID is required.'; nothing is sent to
    the host. *)
Theorem check_without_id toLowerCase request env token votingId accepted overwrite w :
  checks request votingId accepted overwrite →
  pathname request = "/api/check-voting-id" →
  configured env token →
  truthy votingId = false →
  run (fetch toLowerCase request env) w
  = turned_away {| r_status := 400; r_body := reply false "Voting ID is required." |} w.
Proof.
  intros Hchecks Hp Hc Hfalsy.
  rewrite (run_fetch_check _ _ _ token votingId accepted overwrite) by done.
  unfold check_voting_id. by rewrite Hfalsy.
Qed.

Lemma check_without_id_witness :
  let request := {| method := "GET"; pathname := "/api/check-voting-id";
                    searchParams := ∅; body := inl "Unexpected end of JSON input" |} in
  outcome (run (fetch lower request Example.env) Example.fresh)
  = Returned {| r_status := 400; r_body := reply false "Voting ID is required." |}.
Proof.
  intros request.
  by rewrite (check_without_id lower request Example.env "ghp" None
                "Voting ID status retrieved." false Example.fresh)
    by (done || by constructor).
Defined.

(** A POST to an endpoint that reads a JSON body, when the body cannot be
    read as JSON: the error of [request.json()] reaches the outer [catch], and
    the answer is 500 with 'Internal Server Error: ' and the error's message,
    or 'Unknown error' for an empty message; nothing is sent to the host. *)
Theorem unreadable_body_rejected toLowerCase request env token endpoint message w :
  endpoint ∈ ["check-voting-id"; "register-candidate"; "submit-vote"] →
  method request = "POST" →
  pathname request = "/api/" +:+ endpoint →
  body request = inl message →
  configured env token →
  run (fetch toLowerCase request env) w
  = turned_away {| r_status := 500;
                   r_body := reply false ("Internal Server Error: "
                               +:+ or_else (Some message) "Unknown error") |} w.
Proof.
  intros Hin Hm Hp Hb Hc.
  rewrite (run_fetch_api _ _ _ token endpoint); [|by rewrite Hm|done..].
  repeat (apply elem_of_cons in Hin as [->|Hin]); [| | |by apply elem_of_nil in Hin];
    unfold api; simpl String.eqb; cbv iota; rewrite Hm; simpl String.eqb; cbv iota;
    unfold request_json; rewrite Hb; done.
Qed.

Lemma unreadable_body_rejected_witness :
  let request := {| method := "POST"; pathname := "/api/submit-vote";
                    searchParams := ∅; body := inl "Unexpected end of JSON input" |} in
  outcome (run (fetch lower request Example.env) Example.fresh)
  = Returned {| r_status := 500;
                r_body := reply false
                  "Internal Server Error: Unexpected end of JSON input" |}.
Proof.
  intros request.
  by rewrite (unreadable_body_rejected lower request Example.env "ghp" "submit-vote"
                "Unexpected end of JSON input" Example.fresh)
    by (done || listed).
Defined.

(** A request to one of the seven endpoints with a method the endpoint does
    not serve, the preflight apart, is answered 405 with 'Method Not Allowed';
    the body is not read and nothing is sent to the host. *)
Theorem other_method_rejected toLowerCase request env token endpoint methods w :
  (endpoint, methods) ∈ allowed →
  method request ∉ methods →
  method request ≠ "OPTIONS" →
  pathname request = "/api/" +:+ endpoint →
  configured env token →
  run (fetch toLowerCase request env) w
  = turned_away {| r_status := 405; r_body := reply false "Method Not Allowed" |} w.
Proof.
  intros Hin Hm Ho Hp Hc.
  rewrite (run_fetch_api _ _ _ token endpoint) by done.
  unfold allowed in Hin.
  repeat (apply elem_of_cons in Hin as [[= -> ->]|Hin]);
    try (by apply elem_of_nil in Hin);
    unfold api, get_collection; simpl String.eqb; cbv iota;
    repeat match goal with
      | |- context [String.eqb (method request) ?m] =>
          destruct (String.eqb_spec (method request) m) as [Heq|_];
          [exfalso; apply Hm; rewrite Heq; set_solver|]
      end;
    done.
Qed.

Lemma other_method_rejected_witness :
  let request := {| method := "DELETE"; pathname := "/api/votes";
                    searchParams := ∅; body := inl "Unexpected end of JSON input" |} in
  outcome (run (fetch lower request Example.env) Example.fresh)
  = Returned {| r_status := 405; r_body := reply false "Method Not Allowed" |}.
Proof.
  intros request.
  by rewrite (other_method_rejected lower request Example.env "ghp" "votes" ["GET"]
                Example.fresh)
    by (done || (unfold allowed; listed) || not_listed).
Defined.

(** The two forms of not found, for a request that is no preflight to a
    configured worker: a path under [/api/] whose rest is none of the seven
    endpoints is answered 404 with the JSON object of a failure, and a path
    that does not begin with [/api/] is answered 404 with the text 'Not
    Found'. Neither sends anything to the host. *)
Theorem not_found_forms toLowerCase request env token w :
  method request ≠ "OPTIONS" →
  configured env token →
  substring_from 5 (pathname request) ∉ allowed.*1
  ∨ startsWith (pathname request) "/api/" = false →
  run (fetch toLowerCase request env) w
  = turned_away
      {| r_status := 404;
         r_body := if startsWith (pathname request) "/api/"
                   then reply false "Not Found" else Text "Not Found" |} w.
Proof.
  intros Ho [Ht Hne] Hcases. unfold fetch.
  apply String.eqb_neq in Ho. rewrite Ho, Ht, (truthy_Some _ Hne).
  simpl negb. cbv iota zeta.
  destruct (startsWith (pathname request) "/api/") eqn:Hs; [|done].
  destruct Hcases as [Hnone|]; [|done].
  set (endpoint := substring_from 5 (pathname request)) in *.
  unfold api.
  repeat match goal with
    | |- context [String.eqb endpoint ?name] =>
        destruct (String.eqb_spec endpoint name) as [Heq|_];
        [exfalso; apply Hnone; rewrite Heq; unfold allowed; set_solver|]
    end.
  done.
Qed.

Lemma not_found_forms_witness :
  let request path := {| method := "GET"; pathname := path; searchParams := ∅;
                         body := inl "Unexpected end of JSON input" |} in
  outcome (run (fetch lower (request "/api/Votes") Example.env) Example.fresh)
  = Returned {| r_status := 404; r_body := reply false "Not Found" |}
  ∧ outcome (run (fetch lower (request "/votes") Example.env) Example.fresh)
    = Returned {| r_status := 404; r_body := Text "Not Found" |}.
Proof.
  intros request. split.
  - by rewrite (not_found_forms lower (request "/api/Votes") Example.env "ghp"
                  Example.fresh)
      by (done || (left; vm_compute; not_listed)).
  - by rewrite (not_found_forms lower (request "/votes") Example.env "ghp"
                  Example.fresh)
      by (done || by right).
Defined.

(** ** A retried vote submission *)

(** A vote submission with a fresh id of a credential, when the write of the
    mark meets a version conflict once, the store answers everything else and
    the contents to be written, the votes with the two records and the used
    ids with the voting id, have no character above U+00FF: the first attempt
    has written its vote record, the loop waits 100 ms and the second
    attempt, which still finds the id unused, writes a second record. The
    answer is 200 with 'Vote submitted successfully.', the id is marked once,
    and the votes collection has gained two records of this id, which differ
    in their timestamp only. *)
Theorem lost_mark_records_vote_twice toLowerCase request env token voteData votingId
    party credential w res rest :
  submits request voteData votingId party →
  configured env token →
  script w = None :: None :: None :: None :: Some res :: rest →
  version_conflict res = true →
  quiet 5 rest = true →
  find (has_id votingId) (items w VOTING_IDS_PATH) = Some credential →
  JStr votingId ∉ items w USED_VOTING_IDS_PATH →
  let vote timestamp := JObj (finalVoteRecord voteData votingId party credential
                                (toISOString w timestamp)) in
  encodable (items w VOTES_PATH ++ [vote (clock w); vote (clock w + 100)]) = true →
  encodable (items w USED_VOTING_IDS_PATH ++ [JStr votingId]) = true →
  let r := run (fetch toLowerCase request env) w in
  outcome r = Returned {| r_status := 200;
                          r_body := reply true "Vote submitted successfully." |}
  ∧ items (final r) VOTES_PATH
    = (items w VOTES_PATH ++ [vote (clock w); vote (clock w + 100)])%list
  ∧ items (final r) USED_VOTING_IDS_PATH
    = (items w USED_VOTING_IDS_PATH ++ [JStr votingId])%list
  ∧ length (votes_for votingId (final r)) = (length (votes_for votingId w) + 2)%nat.
Proof.
  intros Hs Hc Hscript Hconflict Hrest Hfind Hfresh vote Hvotes2 Hmark r. subst r.
  destruct paths_distinct as (Hvu & Hvi & _).
  pose proof (version_conflict_thrown _ Hconflict) as Hthrown.
  pose proof (array_includes_false _ _ Hfresh) as Hunused.
  assert (Hvotes1 : encodable (items w VOTES_PATH ++ [vote (clock w)]) = true).
  { change [vote (clock w); vote (clock w + 100)]
      with ([vote (clock w)] ++ [vote (clock w + 100)])%list in Hvotes2.
    rewrite List.app_assoc, encodable_app in Hvotes2.
    by apply andb_true_iff in Hvotes2 as [? _]. }
  rewrite (run_fetch_submit_vote _ _ _ token voteData votingId party) by done.
  rewrite (run_retry_again _ _ _ _ sha_mismatch_error); [| |done];
    rewrite (vote_attempt_second_write_fails _ _ _ _ _ credential res rest
               sha_mismatch_error) by done; [|done].
  cbn [outcome final trace]. change (100 * (0 + 1)) with 100.
  set (w1 := advance 100 _).
  assert (Hq1 : quiet 5 (script w1) = true) by (subst w1; simpl; by rewrite Hscript).
  assert (Hids : items w1 VOTING_IDS_PATH = items w VOTING_IDS_PATH).
  { subst w1. change (items (advance ?ms ?x) ?p) with (items x p).
    by rewrite items_write_ne. }
  assert (Hused : items w1 USED_VOTING_IDS_PATH = items w USED_VOTING_IDS_PATH).
  { subst w1. change (items (advance ?ms ?x) ?p) with (items x p).
    by rewrite items_write_ne. }
  assert (Hvotes : items w1 VOTES_PATH = (items w VOTES_PATH ++ [vote (clock w)])%list).
  { subst w1. change (items (advance ?ms ?x) ?p) with (items x p).
    by rewrite items_write. }
  assert (Hclock : toISOString w1 (clock w1) = toISOString w (clock w + 100)) by done.
  assert (Hagain : encodable (items w1 VOTES_PATH
                              ++ [JObj (finalVoteRecord voteData votingId party
                                          credential (toISOString w1 (clock w1)))])
                    = true).
  { rewrite Hvotes, Hclock, <- List.app_assoc. exact Hvotes2. }
  clearbody w1.
  rewrite (run_retry_break _ _ _ _ (reply true "Vote submitted successfully.", 200));
    rewrite (vote_attempt_fresh _ _ _ _ _ credential)
      by (done || by rewrite ?Hids, ?Hused); [|done].
  unfold after. cbn [respond conclude outcome final trace].
  set (w2 := voted voteData votingId party credential (Nat.iter 5 pop_script w1)).
  assert (Hboth : items w2 VOTES_PATH
                  = (items w VOTES_PATH ++ [vote (clock w); vote (clock w + 100)])%list).
  { subst w2. rewrite items_voted_votes.
    change (items (Nat.iter 5 pop_script w1)) with (items w1).
    change (toISOString (Nat.iter 5 pop_script w1) (clock (Nat.iter 5 pop_script w1)))
      with (toISOString w1 (clock w1)).
    rewrite Hvotes, Hclock. by rewrite <- List.app_assoc. }
  split; [done|]. split; [done|]. split.
  - subst w2. rewrite items_voted_used.
    change (items (Nat.iter 5 pop_script w1)) with (items w1). by rewrite Hused.
  - unfold votes_for. rewrite Hboth, filter_app, length_app. f_equal.
    rewrite !filter_cons_True; [done|..]; apply finalVoteRecord_fields.
Qed.

Lemma lost_mark_records_vote_twice_witness :
  let w := Contention.mark_lost_once in
  let r := run (fetch lower (Example.vote "ABC123" "Red") Example.env) w in
  outcome r = Returned {| r_status := 200;
                          r_body := reply true "Vote submitted successfully." |}
  ∧ length (items (final r) VOTES_PATH) = 2%nat
  ∧ items (final r) USED_VOTING_IDS_PATH = [JStr "ABC123"].
Proof.
  intros w.
  destruct (lost_mark_records_vote_twice lower (Example.vote "ABC123" "Red") Example.env
              "ghp" (record [("votingId", Some "ABC123"); ("party", Some "Red")])
              "ABC123" "Red" Example.steve w conflict []) as (H1 & H2 & H3 & _).
  - by repeat split.
  - by split.
  - reflexivity.
  - reflexivity.
  - reflexivity.
  - reflexivity.
  - vm_compute. apply not_elem_of_nil.
  - reflexivity.
  - reflexivity.
  - split; [exact H1|]. split; [by rewrite H2|exact H3].
Defined.

(** ** A retried registration *)

(** The registration attempt whose write fails: nothing is written. *)
Lemma register_attempt_write_fails toLowerCase newCandidate partyName token w res rest e :
  script w = None :: Some res :: rest →
  newCandidate !! "partyName" = Some partyName →
  Forall (λ c, ∃ name, prop c "partyName" = Some name
                       ∧ toLowerCase name ≠ toLowerCase partyName)
    (items w CANDIDATES_PATH) →
  updated res = Throw e →
  encodable (items w CANDIDATES_PATH ++ [JObj newCandidate]) = true →
  run (register_attempt toLowerCase newCandidate token) w
  = {| outcome := Thrown e;
       final := pop_script (pop_script w);
       trace := [EvHttp (GET CANDIDATES_PATH token);
                 EvHttp (PUT CANDIDATES_PATH
                           (items w CANDIDATES_PATH ++ [JObj newCandidate])
                           (fd_sha (read w CANDIDATES_PATH)) token
                           ("Add new candidate: "
                            +:+ default "undefined"
                                  (newCandidate !! "candidateName")))] |}.
Proof.
  intros Hs Hp Hnew He Henc. unfold register_attempt.
  assert (Hq : quiet 1 (script w) = true) by (by rewrite Hs).
  host_reads Hq. rewrite fd_content_read, Hp, (some_same_party_new _ _ _ Hnew).
  rewrite (run_updateGitHubFile_fails _ _ _ _ _ _ _ res rest e)
    by (done || (simpl; by rewrite Hs)).
  unfold after; simpl. by rewrite truthy_sha.
Qed.

(** A registration of a new party, when its write meets a version conflict
    once, the store answers everything else and the candidates with the
    posted object have no character above U+00FF: the loop waits 100 ms, the
    second attempt reads the candidates again and writes, and the collection
    has gained the candidate once. The worker has sent a read and a write,
    waited, and sent a read and a write again. *)
Theorem registration_retried_adds_once toLowerCase request env token newCandidate
    partyName w res rest :
  registers request newCandidate partyName →
  configured env token →
  script w = None :: Some res :: rest →
  version_conflict res = true →
  quiet 2 rest = true →
  Forall (λ c, ∃ name, prop c "partyName" = Some name
                       ∧ toLowerCase name ≠ toLowerCase partyName)
    (items w CANDIDATES_PATH) →
  encodable (items w CANDIDATES_PATH ++ [JObj newCandidate]) = true →
  let r := run (fetch toLowerCase request env) w in
  let put := EvHttp (PUT CANDIDATES_PATH
                       (items w CANDIDATES_PATH ++ [JObj newCandidate])
                       (fd_sha (read w CANDIDATES_PATH)) token
                       ("Add new candidate: "
                        +:+ default "undefined" (newCandidate !! "candidateName"))) in
  outcome r = Returned {| r_status := 200;
                          r_body := reply true "Candidate registered successfully." |}
  ∧ items (final r) CANDIDATES_PATH
    = (items w CANDIDATES_PATH ++ [JObj newCandidate])%list
  ∧ trace r = [EvHttp (GET CANDIDATES_PATH token); put; EvSleep 100;
               EvHttp (GET CANDIDATES_PATH token); put].
Proof.
  intros Hr Hc Hscript Hconflict Hrest Hnew Henc r put. subst r.
  pose proof Hr as (_ & Hp & _).
  pose proof (version_conflict_thrown _ Hconflict) as Hthrown.
  rewrite (run_fetch_register _ _ _ token newCandidate partyName) by done.
  rewrite (run_retry_again _ _ _ _ sha_mismatch_error); [| |done];
    rewrite (register_attempt_write_fails _ _ partyName _ _ res rest
               sha_mismatch_error) by done; [|done].
  cbn [outcome final trace]. change (100 * (0 + 1)) with 100.
  set (w1 := advance 100 _).
  assert (Hq1 : quiet 2 (script w1) = true) by (subst w1; simpl; by rewrite Hscript).
  assert (Hitems : items w1 CANDIDATES_PATH = items w CANDIDATES_PATH) by done.
  assert (Hread : read w1 CANDIDATES_PATH = read w CANDIDATES_PATH) by done.
  clearbody w1.
  pose proof (run_register_attempt toLowerCase newCandidate token w1 Hq1) as Hrun.
  rewrite Hp, Hitems, Hread, (some_same_party_new _ _ _ Hnew), Henc in Hrun.
  rewrite (run_retry_break _ _ _ _ (reply true "Candidate registered successfully.", 200))
    by (by rewrite Hrun).
  rewrite Hrun. unfold after. cbn [respond conclude outcome final trace].
  split; [done|]. split; [by rewrite items_write|done].
Qed.

Lemma registration_retried_adds_once_witness :
  let w := Example.world {[ CANDIDATES_PATH := Example.file [Example.red_party] 1 ]}
             [None; Some conflict] in
  let r := run (fetch lower (Example.registration "Blue") Example.env) w in
  outcome r = Returned {| r_status := 200;
                          r_body := reply true "Candidate registered successfully." |}
  ∧ length (items (final r) CANDIDATES_PATH) = 2%nat.
Proof.
  intros w.
  destruct (registration_retried_adds_once lower (Example.registration "Blue")
              Example.env "ghp"
              (record [("partyName", Some "Blue"); ("candidateName", Some "Rui");
                       ("password", Some "secret")])
              "Blue" w conflict []) as (H1 & H2 & _).
  - by repeat split.
  - by split.
  - reflexivity.
  - reflexivity.
  - reflexivity.
  - vm_compute. repeat constructor. exists "Red". by split.
  - reflexivity.
  - split; [exact H1|by rewrite H2].
Defined.

(** ** Contents that cannot be encoded *)

(** A registration of a new party whose content, the candidates with the
    posted object, has a character above U+00FF: [btoa] throws before the
    write is sent, the loop does not retry, and the answer is the 500 of the
    outer [catch] with the message of that error. The worker has sent the
    one read and the store is as it was. *)
Theorem register_unencodable toLowerCase request env token newCandidate partyName w :
  registers request newCandidate partyName →
  configured env token →
  quiet 1 (script w) = true →
  Forall (λ c, ∃ name, prop c "partyName" = Some name
                       ∧ toLowerCase name ≠ toLowerCase partyName)
    (items w CANDIDATES_PATH) →
  encodable (items w CANDIDATES_PATH ++ [JObj newCandidate]) = false →
  let r := run (fetch toLowerCase request env) w in
  outcome r = Returned {| r_status := 500;
                          r_body := reply false ("Internal Server Error: "
                                      +:+ InvalidCharacterError_btoa) |}
  ∧ store (final r) = store w
  ∧ trace r = [EvHttp (GET CANDIDATES_PATH token)].
Proof.
  intros Hr Hc Hq Hnew Henc r. subst r.
  pose proof Hr as (_ & Hp & _).
  rewrite (run_fetch_register _ _ _ token newCandidate partyName) by done.
  assert (Hrun : run (register_attempt toLowerCase newCandidate token) w
                 = {| outcome := Thrown InvalidCharacterError_btoa;
                      final := pop_script w;
                      trace := [EvHttp (GET CANDIDATES_PATH token)] |}).
  { unfold register_attempt. host_reads Hq.
    rewrite fd_content_read, Hp, (some_same_party_new _ _ _ Hnew).
    by rewrite updateGitHubFile_throws. }
  rewrite (run_retry_abort _ _ _ _ InvalidCharacterError_btoa) by (by rewrite ?Hrun).
  rewrite Hrun. done.
Qed.

Lemma register_unencodable_witness :
  let request := Example.post "register-candidate"
                   [("partyName", Some Unicode.party); ("candidateName", Some "Rui");
                    ("password", Some "secret")] in
  let r := run (fetch lower request Example.env) Example.with_party in
  r_status <$> (match outcome r with Returned x => Some x | Thrown _ => None end)
  = Some 500
  ∧ store (final r) = store Example.with_party.
Proof.
  intros request.
  destruct (register_unencodable lower request Example.env "ghp"
              (record [("partyName", Some Unicode.party); ("candidateName", Some "Rui");
                       ("password", Some "secret")])
              Unicode.party Example.with_party) as (H1 & H2 & _).
  - by repeat split.
  - by split.
  - reflexivity.
  - vm_compute. repeat constructor. exists "Red". by split.
  - reflexivity.
  - split; [by rewrite H1|exact H2].
Defined.

(** A vote submission with a fresh id of a credential whose content, the
    votes with the new record, has a character above U+00FF: [btoa] throws
    before the first write is sent, the loop does not retry, and the answer
    is the 500 of the outer [catch] with the message of that error. The worker
    has sent its three reads; no vote is recorded and the id is not marked. *)
Theorem vote_unencodable toLowerCase request env token voteData votingId party
    credential w :
  submits request voteData votingId party →
  configured env token →
  quiet 3 (script w) = true →
  find (has_id votingId) (items w VOTING_IDS_PATH) = Some credential →
  JStr votingId ∉ items w USED_VOTING_IDS_PATH →
  encodable (items w VOTES_PATH
             ++ [JObj (finalVoteRecord voteData votingId party credential
                         (toISOString w (clock w)))]) = false →
  let r := run (fetch toLowerCase request env) w in
  outcome r = Returned {| r_status := 500;
                          r_body := reply false ("Internal Server Error: "
                                      +:+ InvalidCharacterError_btoa) |}
  ∧ store (final r) = store w
  ∧ trace r = [EvHttp (GET VOTING_IDS_PATH token);
               EvHttp (GET USED_VOTING_IDS_PATH token);
               EvHttp (GET VOTES_PATH token)].
Proof.
  intros Hs Hc Hq Hfind Hfresh Henc r. subst r.
  rewrite (run_fetch_submit_vote _ _ _ token voteData votingId party) by done.
  assert (Hrun : run (vote_attempt voteData votingId party token) w
                 = {| outcome := Thrown InvalidCharacterError_btoa;
                      final := Nat.iter 3 pop_script w;
                      trace := [EvHttp (GET VOTING_IDS_PATH token);
                                EvHttp (GET USED_VOTING_IDS_PATH token);
                                EvHttp (GET VOTES_PATH token)] |}).
  { unfold vote_attempt.
    host_reads Hq. rewrite fd_content_read, Hfind.
    host_reads Hq. rewrite fd_content_read.
    change (items (pop_script w) USED_VOTING_IDS_PATH)
      with (items w USED_VOTING_IDS_PATH).
    rewrite (array_includes_false _ _ Hfresh).
    host_reads Hq. rewrite run_Now. cbv beta zeta.
    rewrite (updateGitHubFile_throws VOTES_PATH); [reflexivity|].
    rewrite fd_content_read. exact Henc. }
  rewrite (run_retry_abort _ _ _ _ InvalidCharacterError_btoa) by (by rewrite ?Hrun).
  rewrite Hrun. done.
Qed.

Lemma vote_unencodable_witness :
  let r := run (fetch lower (Example.vote "ABC123" Unicode.party) Example.env)
             Example.fresh in
  r_status <$> (match outcome r with Returned x => Some x | Thrown _ => None end)
  = Some 500
  ∧ store (final r) = store Example.fresh.
Proof.
  destruct (vote_unencodable lower (Example.vote "ABC123" Unicode.party) Example.env
              "ghp" (record [("votingId", Some "ABC123"); ("party", Some Unicode.party)])
              "ABC123" Unicode.party Example.steve Example.fresh) as (H1 & H2 & _).
  - by repeat split.
  - by split.
  - reflexivity.
  - reflexivity.
  - vm_compute. apply not_elem_of_nil.
  - reflexivity.
  - split; [by rewrite H1|exact H2].
Defined.
